(** * Flash-loan harvesting pipeline: paginated retrieval, log decoding,
      transaction index and per-token summary.

    Shallow embedding of [research/extract_all_flashloans.py] and of the
    two sibling scripts [research/query_all_flashloans.py] and
    [research/query_balancer_flashloans.py].

    Python integers are [Z]; Python floats are IEEE-754 binary64 values,
    represented by [spec_float] with precision 53 and maximal exponent 1024;
    [str] values are [string]s, a character being a code point below 256;
    a [dict] keyed by hashes is a [gmap]; an exception is the [Raise]
    branch of [result].  The objects [decode_flashloan_log] is handed by
    reference live in a store (module [Objects]). *)

From Stdlib Require Import ZArith List String Ascii Bool Lia.
From Stdlib Require Strings.Byte.
From Stdlib Require Import SpecFloat.
From stdpp Require Import base option list strings gmap sorting.

Open Scope Z_scope.

(** ** Python run-time values and exceptions *)

Module Py.

(** The exception kinds the scripts can meet.  [ServiceUnavailable] stands
    for whatever the remote call [client.get] raises; [NoProgress] is the
    error kind the design document names for a stuck cursor. *)
Inductive exn : Set :=
| ValueError
| TypeError
| OverflowError
| ZeroDivisionError
| AttributeError
| ServiceUnavailable
| NoProgress.

Inductive result (A : Type) : Type :=
| Ok (a : A)
| Raise (e : exn).
Arguments Ok {A} a.
Arguments Raise {A} e.

#[global] Instance result_ret : MRet result := fun _ a => Ok a.
#[global] Instance result_bind : MBind result := fun _ _ f m =>
  match m with
  | Ok a => f a
  | Raise e => Raise e
  end.

(** A dynamically typed scalar as the indexing client hands it over:
    [None], a [str] or an [int]. *)
Inductive pyval : Set :=
| PyNone
| PyStr (s : string)
| PyInt (z : Z).

#[global] Instance pyval_eq_dec : EqDecision pyval.
Proof. solve_decision. Defined.

#[global] Instance pyval_countable : Countable pyval.
Proof.
  refine (inj_countable'
    (fun v => match v with
              | PyNone => inl tt
              | PyStr s => inr (inl s)
              | PyInt z => inr (inr z)
              end)
    (fun c => match c with
              | inl _ => PyNone
              | inr (inl s) => PyStr s
              | inr (inr z) => PyInt z
              end) _).
  intros [| |]; reflexivity.
Defined.

(** Truth value of a scalar: [None], [""] and [0] are false. *)
Definition truthy (v : pyval) : bool :=
  match v with
  | PyNone => false
  | PyStr s => negb (String.eqb s "")
  | PyInt z => negb (z =? 0)
  end.

(** An attribute of a foreign object: [None] when [hasattr] is false. *)
Definition attr : Set := option pyval.

(** [a or b] on an optional integer. *)
Definition or_int (a : option Z) (b : Z) : Z :=
  match a with
  | Some z => if z =? 0 then b else z
  | None => b
  end.

(** *** Strings *)

Definition chars (s : string) : list ascii := list_ascii_of_string s.
Definition str (cs : list ascii) : string := string_of_list_ascii cs.

(** [s[a:b]] and [s[a:]] for non-negative literal bounds. *)
Definition slice (a b : nat) (s : string) : string :=
  str (take (b - a) (drop a (chars s))).
Definition slice_from (a : nat) (s : string) : string :=
  str (drop a (chars s)).

Definition len (s : string) : Z := Z.of_nat (String.length s).

(** *** [int(s, 16)] *)

Definition hex_digit (c : ascii) : option Z :=
  let n := Z.of_N (N_of_ascii c) in
  if (48 <=? n) && (n <=? 57) then Some (n - 48)
  else if (97 <=? n) && (n <=? 102) then Some (n - 87)
  else if (65 <=? n) && (n <=? 70) then Some (n - 55)
  else None.

Definition is_space (c : ascii) : bool :=
  let n := Z.of_N (N_of_ascii c) in
  (9 <=? n) && (n <=? 13) || (n =? 32) || (n =? 133) || (n =? 160).

Fixpoint skip_spaces (cs : list ascii) : list ascii :=
  match cs with
  | c :: cs' => if is_space c then skip_spaces cs' else cs
  | [] => []
  end.

(** Digits after the first one: single underscores may separate digits,
    and only white space may follow the last digit. *)
Fixpoint hex_digits (acc : Z) (cs : list ascii) : result Z :=
  match cs with
  | [] => Ok acc
  | c :: cs' =>
    match hex_digit c with
    | Some d => hex_digits (16 * acc + d) cs'
    | None =>
      if Ascii.eqb c "_" then
        match cs' with
        | c2 :: cs'' =>
          match hex_digit c2 with
          | Some d => hex_digits (16 * acc + d) cs''
          | None => Raise ValueError
          end
        | [] => Raise ValueError
        end
      else if forallb is_space cs then Ok acc
      else Raise ValueError
    end
  end.

(** An optional [0x]/[0X] prefix (with at most one underscore behind it),
    then at least one digit. *)
Definition hex_literal (cs : list ascii) : result Z :=
  let body :=
    match cs with
    | z :: x :: rest =>
      if Ascii.eqb z "0" && (Ascii.eqb x "x" || Ascii.eqb x "X") then
        match rest with
        | u :: rest' => if Ascii.eqb u "_" then rest' else rest
        | [] => rest
        end
      else cs
    | _ => cs
    end in
  match body with
  | c :: cs' =>
    match hex_digit c with
    | Some d => hex_digits d cs'
    | None => Raise ValueError
    end
  | [] => Raise ValueError
  end.

(** [int(s, 16)] for a [str] argument: leading white space, an optional
    sign, a hexadecimal literal, trailing white space.  White space is
    what [int] strips: the ASCII characters 9 to 13 and 32, and among the
    other code points below 256 the next-line character (133) and the
    no-break space (160). *)
Definition int16 (s : string) : result Z :=
  match skip_spaces (chars s) with
  | c :: cs =>
    if Ascii.eqb c "-" then z ← hex_literal cs; Ok (- z)
    else if Ascii.eqb c "+" then hex_literal cs
    else hex_literal (c :: cs)
  | [] => Raise ValueError
  end.

(** [int(v, 16)] for a scalar: an explicit base demands a string. *)
Definition int16_val (v : pyval) : result Z :=
  match v with
  | PyStr s => int16 s
  | _ => Raise TypeError
  end.

(** *** Floats *)

Definition float : Set := spec_float.

(** A number as Python prints or stores it: an [int] or a [float]. *)
Inductive num : Set :=
| NInt (z : Z)
| NFloat (f : float).

(** The integer [z] as an exact, not yet rounded, binary value. *)
Definition exact (z : Z) : float :=
  match z with
  | Z0 => S754_zero false
  | Zpos p => S754_finite false p 0
  | Zneg p => S754_finite true p 0
  end.

(** Integers of magnitude [2^1024 - 2^970] and above round beyond the
    largest finite binary64 value. *)
Definition float_limit : Z := 2 ^ 1024 - 2 ^ 970.

(** [float(z)], correctly rounded; too large an integer overflows. *)
Definition float_of_int (z : Z) : result float :=
  if float_limit <=? Z.abs z then Raise OverflowError
  else Ok (binary_normalize 53 1024 z 0 false).

(** [a / b] on two [int]s: the correctly rounded quotient. *)
Definition truediv_int (a b : Z) : result float :=
  if b =? 0 then Raise ZeroDivisionError
  else if float_limit * Z.abs b <=? Z.abs a then Raise OverflowError
  else Ok (SFdiv 53 1024 (exact a) (exact b)).

(** [x / y] on two [float]s. *)
Definition truediv_float (x y : float) : result float :=
  match y with
  | S754_zero _ => Raise ZeroDivisionError
  | _ => Ok (SFdiv 53 1024 x y)
  end.

(** [x < y] on floats; false when either is not a number. *)
Definition flt (x y : float) : bool := SFltb x y.

(** [min(xs)] and [max(xs)] keep the first extreme element met. *)
Definition min_float (x : float) (xs : list float) : float :=
  fold_left (fun m y => if flt y m then y else m) xs x.
Definition max_float (x : float) (xs : list float) : float :=
  fold_left (fun m y => if flt m y then y else m) xs x.

(** [sum(xs)] on floats.  The interpreter adds from the integer zero,
    left to right; from version 3.12 on it carries a compensation term
    along (Neumaier's scheme).  Both are kept. *)
Inductive sum_impl : Set := Plain | Compensated.

Definition fadd : float -> float -> float := SFadd 53 1024.
Definition fsub : float -> float -> float := SFsub 53 1024.

Definition cs_add (total : float * float) (x : float) : float * float :=
  let '(hi, lo) := total in
  let t := fadd hi x in
  if SFleb (SFabs x) (SFabs hi)
  then (t, fadd lo (fadd (fsub hi t) x))
  else (t, fadd lo (fadd (fsub x t) hi)).

Definition is_finite (x : float) : bool :=
  match x with
  | S754_zero _ | S754_finite _ _ _ => true
  | _ => false
  end.

Definition is_zero (x : float) : bool :=
  match x with
  | S754_zero _ => true
  | _ => false
  end.

Definition cs_to_double (total : float * float) : float :=
  let '(hi, lo) := total in
  if negb (is_zero lo) && is_finite lo then fadd hi lo else hi.

Definition sum_float (impl : sum_impl) (xs : list float) : float :=
  match impl, xs with
  | Plain, _ => fold_left fadd xs (S754_zero false)
  | Compensated, [] => S754_zero false
  | Compensated, x :: xs' =>
    cs_to_double
      (fold_left cs_add xs' (fadd (S754_zero false) x, S754_zero false))
  end.

End Py.

(** ** The indexing service as the scripts see it *)

Module Hypersync.
Import Py.

(** One event log.  [topics] holds the indexed words, each a [str] or
    [None]; [data] is the hex string of the non-indexed words or [None]. *)
Record Log : Set := {
  transaction_hash : pyval;
  block_number : pyval;
  topics : list (option string);
  data : option string
}.

(** One transaction record; a field the response does not carry is an
    absent attribute. *)
Record Transaction : Set := {
  hash : attr;
  gas_used : attr;
  gas_price : attr
}.

(** The answer to one [client.get(query)]: [res.data.logs],
    [res.data.transactions], [res.next_block], [res.archive_height]. *)
Record QueryResponse : Set := {
  logs : list Log;
  transactions : list Transaction;
  next_block : Z;
  archive_height : Z
}.

(** The client: the [n]-th call, made with the query's current
    [from_block] and with its [to_block], answers with a page or raises
    ([None]).  The address, the topic filter and the field selection are
    the same in every query of a script, so they are part of the
    client. *)
Definition client : Set := nat -> Z -> option Z -> option QueryResponse.

End Hypersync.

(** ** The harvest loop ([query_flashloans], [while True]) *)

Module Harvest.
Import Py Hypersync.

(** What a bounded run of the loop has come to: a returned value, an
    exception, or a loop that is still iterating when the bound is
    reached. *)
Inductive run (A : Type) : Type :=
| Returned (a : A)
| Failed (e : exn)
| Running.
Arguments Returned {A} a.
Arguments Failed {A} e.
Arguments Running {A}.

Definition run_map {A B} (f : A -> B) (r : run A) : run B :=
  match r with
  | Returned a => Returned (f a)
  | Failed e => Failed e
  | Running => Running
  end.

(** [if hasattr(tx, 'hash') and tx.hash: all_txs[tx.hash] = tx] *)
Definition index_tx (all_txs : gmap pyval Transaction) (tx : Transaction)
  : gmap pyval Transaction :=
  match hash tx with
  | Some h => if truthy h then <[h := tx]> all_txs else all_txs
  | None => all_txs
  end.

(** [for tx in res.data.transactions: ...] of the two scripts that test
    the hash before storing. *)
Definition index_page (all_txs : gmap pyval Transaction)
    (txs : list Transaction) : result (gmap pyval Transaction) :=
  Ok (fold_left index_tx txs all_txs).

(** [all_txs[tx.hash] = tx] without the test, as the stablecoin script
    has it: reading a missing attribute raises. *)
Fixpoint index_page_unguarded (all_txs : gmap pyval Transaction)
    (txs : list Transaction) : result (gmap pyval Transaction) :=
  match txs with
  | [] => Ok all_txs
  | tx :: txs' =>
    match hash tx with
    | Some h => index_page_unguarded (<[h := tx]> all_txs) txs'
    | None => Raise AttributeError
    end
  end.

Section Loop.
Variable index : gmap pyval Transaction -> list Transaction ->
                 result (gmap pyval Transaction).

(** The body of [while True] of the two scripts whose progress line
    only prints the number of logs and [res.next_block].  [calls] counts
    the requests made so far and [from_block] is [query.from_block]. *)
Fixpoint harvest_loop (fuel : nat) (c : client) (to_block : option Z)
    (calls : nat) (from_block : Z)
    (all_logs : list Log) (all_txs : gmap pyval Transaction)
  : run (nat * list Log * gmap pyval Transaction) :=
  match fuel with
  | O => Running
  | S fuel' =>
    match c calls from_block to_block with
    | None => Failed ServiceUnavailable
    | Some res =>
      let all_logs := all_logs ++ logs res in
      match index all_txs (transactions res) with
      | Raise e => Failed e
      | Ok all_txs =>
        if or_int to_block (archive_height res) <=? next_block res
        then Returned (S calls, all_logs, all_txs)
        else harvest_loop fuel' c to_block (S calls) (next_block res)
               all_logs all_txs
      end
    end
  end.

(** The whole function: both accumulators start empty. *)
Definition harvest (fuel : nat) (c : client) (from_block : Z)
    (to_block : option Z) : run (list Log * gmap pyval Transaction) :=
  run_map (fun r => (snd (fst r), snd r))
    (harvest_loop fuel c to_block 0 from_block [] ∅).

End Loop.

(** The pages a run of the loop receives, in request order, as long as
    storing them raises nothing. *)
Fixpoint fetched (fuel : nat) (c : client) (to_block : option Z)
    (calls : nat) (from_block : Z) : list QueryResponse :=
  match fuel with
  | O => []
  | S fuel' =>
    match c calls from_block to_block with
    | None => []
    | Some res =>
      res ::
      (if or_int to_block (archive_height res) <=? next_block res
       then []
       else fetched fuel' c to_block (S calls) (next_block res))
    end
  end.

End Harvest.

(** ** [extract_all_flashloans.py] *)

Module ExtractAll.
Import Py Hypersync Harvest.
Open Scope string_scope.
Open Scope Z_scope.

Definition KNOWN_TOKENS : list (string * (string * Z)) := [
  ("0x000000000000000000000000a0b86991c6218b36c1d19d4a2e9eb0ce3606eb48", ("USDC", 6));
  ("0x000000000000000000000000dac17f958d2ee523a2206206994597c13d831ec7", ("USDT", 6));
  ("0x0000000000000000000000006b175474e89094c44da98b954eedeac495271d0f", ("DAI", 18));
  ("0x000000000000000000000000853d955acef822db058eb8505911ed77f175b99e", ("FRAX", 18));
  ("0x0000000000000000000000005f98805a4e8be255a32880fdec7f6728c6568ba0", ("LUSD", 18));
  ("0x000000000000000000000000c02aaa39b223fe8d0a0e5c4f27ead9083c756cc2", ("WETH", 18));
  ("0x0000000000000000000000002260fac5e5542a773aa44fbcfedf7c193bc2c599", ("WBTC", 8));
  ("0x000000000000000000000000cd5fe23c85820f7b72d0926fc9b05b43e359b7ee", ("weETH", 18));
  ("0x0000000000000000000000007f39c581f595b53c5cb19bd0b3f8da6c935e2ca0", ("wstETH", 18));
  ("0x000000000000000000000000ae78736cd615f374d3085123a210448e74fc6393", ("rETH", 18));
  ("0x000000000000000000000000be9895146f7af43049ca1c1ae358b0541ea49704", ("cbETH", 18));
  ("0x000000000000000000000000a35b1b31ce002fbf2058d22f30f95d405200a15b", ("ETHx", 18));
  ("0x000000000000000000000000ac3e018457b222d93114458476f3e3416abbe38f", ("sfrxETH", 18))
].

(** [d.get(k)] on a table with string keys; [None] is never a key. *)
Fixpoint dict_get {V : Type} (d : list (string * V)) (k : option string)
  : option V :=
  match k, d with
  | Some s, (s', v) :: d' => if String.eqb s' s then Some v else dict_get d' k
  | _, _ => None
  end.

(** *** The harvest loop *)

(** The integer [100] as a float, for [float * int]. *)
Definition float_100 : float := binary_normalize 53 1024 100 0 false.

(** [pct]: [(res.next_block - from_block) / (target - from_block) * 100
    if target > from_block else 100], where [from_block] is the argument
    of [query_flashloans], not the cursor. *)
Definition progress (from_block : Z) (to_block : option Z)
    (res : QueryResponse) : result num :=
  let target := or_int to_block (archive_height res) in
  if from_block <? target then
    q ← truediv_int (next_block res - from_block) (target - from_block);
    Ok (NFloat (SFmul 53 1024 q float_100))
  else Ok (NInt 100).

(** The body of [while True] with the progress figure computed between
    the update of the index and the stop test, as the script has it. *)
Fixpoint query_loop (fuel : nat) (c : client) (start : Z)
    (to_block : option Z) (calls : nat) (from_block : Z)
    (all_logs : list Log) (all_txs : gmap pyval Transaction)
  : run (nat * list Log * gmap pyval Transaction) :=
  match fuel with
  | O => Running
  | S fuel' =>
    match c calls from_block to_block with
    | None => Failed ServiceUnavailable
    | Some res =>
      let all_logs := (all_logs ++ logs res)%list in
      match index_page all_txs (transactions res) with
      | Raise e => Failed e
      | Ok all_txs =>
        match progress start to_block res with
        | Raise e => Failed e
        | Ok pct =>
          if or_int to_block (archive_height res) <=? next_block res
          then Returned (S calls, all_logs, all_txs)
          else query_loop fuel' c start to_block (S calls) (next_block res)
                 all_logs all_txs
        end
      end
    end
  end.

(** [query_flashloans]: both accumulators start empty, and the block the
    progress is measured from is the argument [from_block]. *)
Definition query_flashloans (fuel : nat) (c : client) (from_block : Z)
    (to_block : option Z) : run (list Log * gmap pyval Transaction) :=
  run_map (fun r => (snd (fst r), snd r))
    (query_loop fuel c from_block to_block 0 from_block [] ∅).


(** The dictionary [decode_flashloan_log] returns. *)
Record Event : Set := {
  tx_hash : pyval;
  block : pyval;
  token : string;
  token_address : string;
  amount_raw : Z;
  amount : float;
  decimals : Z;
  fee_raw : Z;
  gas_used : Z;
  gas_price_gwei : num;
  recipient : string
}.

(** [log.topics[i] if len(log.topics) > i else None] *)
Definition topic (log : Log) (i : nat) : option string :=
  default None (topics log !! i).

(** Truth value of an optional string. *)
Definition present (t : option string) : bool :=
  match t with
  | Some s => negb (String.eqb s "")
  | None => false
  end.

(** The name and the decimals of the token. *)
Definition token_of (token_topic : option string) : string * Z :=
  match dict_get KNOWN_TOKENS token_topic with
  | Some token_info => token_info
  | None =>
    (match token_topic with
     | Some t => if present token_topic then slice 26 42 t ++ "..."
                 else "Unknown"
     | None => "Unknown"
     end, 18)
  end.

(** [t[26:] if t else ""] *)
Definition address_of (t : option string) : string :=
  match t with
  | Some s => if present t then slice_from 26 s else ""
  | None => ""
  end.

(** The two words of [log.data]. *)
Definition decode_amounts (data : option string) : result (Z * Z) :=
  match data with
  | Some d =>
    if present data && (66 <=? len d) then
      amount_raw ← int16 (slice 2 66 d);
      if 130 <=? len d then
        fee_raw ← int16 (slice 66 130 d);
        Ok (amount_raw, fee_raw)
      else Ok (amount_raw, 0)
    else Ok (0, 0)
  | None => Ok (0, 0)
  end.

(** [int(x, 16) if isinstance(x, str) else x], under
    [hasattr(tx, name) and x]; zero otherwise. *)
Definition gas_field (a : attr) : result Z :=
  match a with
  | Some v =>
    if truthy v then
      match v with
      | PyStr s => int16 s
      | PyInt z => Ok z
      | PyNone => Ok 0
      end
    else Ok 0
  | None => Ok 0
  end.

(** [gas_used] and [gas_price] of the matched transaction, if any. *)
Definition decode_gas (tx : option Transaction) : result (Z * Z) :=
  match tx with
  | Some tx =>
    gas_used ← gas_field (Hypersync.gas_used tx);
    gas_price ← gas_field (Hypersync.gas_price tx);
    Ok (gas_used, gas_price)
  | None => Ok (0, 0)
  end.

(** The float literal [1e9]. *)
Definition float_1e9 : float := binary_normalize 53 1024 1000000000 0 false.

(** [gas_price / 1e9 if gas_price else 0] *)
Definition gwei (gas_price : Z) : result num :=
  if gas_price =? 0 then Ok (NInt 0)
  else x ← float_of_int gas_price; q ← truediv_float x float_1e9; Ok (NFloat q).

Definition decode_flashloan_log (log : Log) (txs : gmap pyval Transaction)
  : result Event :=
  let recipient_topic := topic log 1 in
  let token_topic := topic log 2 in
  let '(token_name, decimals) := token_of token_topic in
  '(amount_raw, fee_raw) ← decode_amounts (data log);
  amount_formatted ← truediv_int amount_raw (10 ^ decimals);
  '(gas_used, gas_price) ← decode_gas (txs !! transaction_hash log);
  gas_price_gwei ← gwei gas_price;
  Ok {| tx_hash := transaction_hash log;
        block := block_number log;
        token := token_name;
        token_address := address_of token_topic;
        amount_raw := amount_raw;
        amount := amount_formatted;
        decimals := decimals;
        fee_raw := fee_raw;
        gas_used := gas_used;
        gas_price_gwei := gas_price_gwei;
        recipient := address_of recipient_topic |}.

(** [for log in logs: events.append(decode_flashloan_log(log, txs))] *)
Definition decode_all (logs : list Log) (txs : gmap pyval Transaction)
  : result (list Event) :=
  mapM (fun log => decode_flashloan_log log txs) logs.

(** *** The summary by token printed by [main] *)

(** [by_token[e["token"]].append(e)]: groups keep the order in which
    their tokens first appear, and each group the order of its events. *)
Fixpoint by_token_append (e : Event) (groups : list (string * list Event))
  : list (string * list Event) :=
  match groups with
  | [] => [(token e, [e])]
  | (t, es) :: groups' =>
    if String.eqb t (token e) then (t, (es ++ [e])%list) :: groups'
    else (t, es) :: by_token_append e groups'
  end.

Definition by_token (events : list Event) : list (string * list Event) :=
  fold_left (fun groups e => by_token_append e groups) events [].

(** [sorted(items, key=lambda x: -len(x[1]))]: the sort is stable, so
    its result is the one of a stable insertion sort. *)
Definition sort_key (x : string * list Event) : Z :=
  - Z.of_nat (length (snd x)).

Fixpoint insert_by_key (x : string * list Event)
    (l : list (string * list Event)) : list (string * list Event) :=
  match l with
  | [] => [x]
  | y :: l' =>
    if sort_key x <=? sort_key y then x :: l else y :: insert_by_key x l'
  end.

Definition sorted (l : list (string * list Event))
  : list (string * list Event) :=
  foldr insert_by_key [] l.

(** The figures of one printed entry. *)
Record Row : Set := {
  row_token : string;
  row_count : nat;
  loan_min : float;
  loan_max : float;
  loan_avg : float;
  gas_figures : option (Z * Z * float)
}.

(** [min(gas_list)], [max(gas_list)], [sum(gas_list)/len(gas_list)],
    printed only [if gas_list]. *)
Definition gas_summary (gas_list : list Z) : result (option (Z * Z * float)) :=
  match gas_list with
  | [] => Ok None
  | g :: gs =>
    avg ← truediv_int (fold_left Z.add gas_list 0)
                       (Z.of_nat (length gas_list));
    Ok (Some (fold_left Z.min gs g, fold_left Z.max gs g, avg))
  end.

(** The body of the [for token, token_events in ...] loop. *)
Definition summarize (impl : sum_impl) (t : string)
    (token_events : list Event) : result Row :=
  let amounts := map amount token_events in
  let gas_list :=
    List.filter (fun g => 0 <? g) (map gas_used token_events) in
  match amounts with
  | [] => Raise ValueError
  | a :: rest =>
    n ← float_of_int (Z.of_nat (length amounts));
    avg ← truediv_float (sum_float impl amounts) n;
    gas ← gas_summary gas_list;
    Ok {| row_token := t;
          row_count := length token_events;
          loan_min := min_float a rest;
          loan_max := max_float a rest;
          loan_avg := avg;
          gas_figures := gas |}
  end.

(** The entries of "SUMMARY BY TOKEN", in printing order. *)
Definition summary (impl : sum_impl) (events : list Event)
  : result (list Row) :=
  mapM (fun g => summarize impl (fst g) (snd g))
       (take 15 (sorted (by_token events))).

(** *** The stablecoin section of [main] *)

Definition stables : list string := ["USDC"; "USDT"; "DAI"; "FRAX"; "LUSD"].

(** The figures printed for one stablecoin. *)
Record StableRow : Set := {
  stable_token : string;
  stable_count : nat;
  total_volume : float;
  avg_loan : float;
  max_loan : float;
  stable_avg_gas : option float
}.

(** The body of the [for token in stables] loop behind [continue]:
    [sum(amounts)], [sum(amounts)/len(amounts)], [max(amounts)] and,
    [if gas_list], [sum(gas_list)/len(gas_list)]. *)
Definition stable_row (impl : sum_impl) (t : string)
    (token_events : list Event) : result StableRow :=
  let amounts := map amount token_events in
  let gas_list :=
    List.filter (fun g => 0 <? g) (map gas_used token_events) in
  match amounts with
  | [] => Raise ZeroDivisionError
  | a :: rest =>
    n ← float_of_int (Z.of_nat (length amounts));
    avg ← truediv_float (sum_float impl amounts) n;
    gas ← match gas_list with
          | [] => Ok None
          | _ =>
            q ← truediv_int (fold_left Z.add gas_list 0)
                             (Z.of_nat (length gas_list));
            Ok (Some q)
          end;
    Ok {| stable_token := t;
          stable_count := length token_events;
          total_volume := sum_float impl amounts;
          avg_loan := avg;
          max_loan := max_float a rest;
          stable_avg_gas := gas |}
  end.

(** [for token in stables]: a stablecoin without events is skipped. *)
Fixpoint stable_rows (impl : sum_impl) (stable_events : list Event)
    (tokens : list string) : result (list StableRow) :=
  match tokens with
  | [] => Ok []
  | t :: tokens' =>
    let token_events :=
      List.filter (fun e => String.eqb (token e) t) stable_events in
    match token_events with
    | [] => stable_rows impl stable_events tokens'
    | _ =>
      r ← stable_row impl t token_events;
      rs ← stable_rows impl stable_events tokens';
      Ok (r :: rs)
    end
  end.

(** The entries of "STABLECOIN FLASH LOANS", in printing order. *)
Definition stable_summary (impl : sum_impl) (events : list Event)
  : result (list StableRow) :=
  let stable_events :=
    List.filter (fun e => bool_decide (token e ∈ stables)) events in
  stable_rows impl stable_events stables.

(** *** [main] behind the harvest *)

(** What [main] has written and printed when it ends: the rows of the
    CSV file, one for each event, and the entries of its two
    summaries. *)
Record Report : Type := {
  csv_rows : list Event;
  token_rows : list Row;
  stablecoin_rows : list StableRow
}.

(** [main] from the harvested logs and index on: nothing is written
    when there is no log. *)
Definition main (impl : sum_impl) (logs : list Log)
    (txs : gmap pyval Transaction) : result (option Report) :=
  match logs with
  | [] => Ok None
  | _ =>
    events ← decode_all logs txs;
    rows ← summary impl events;
    stable ← stable_summary impl events;
    Ok (Some {| csv_rows := events;
                token_rows := rows;
                stablecoin_rows := stable |})
  end.

End ExtractAll.

(** ** [query_all_flashloans.py]: the same loop *)

Module QueryAll.
Import Py Hypersync Harvest.

Definition query_flashloans := harvest index_page.

Open Scope string_scope.
Open Scope Z_scope.

Definition STABLECOINS : list (string * string) := [
  ("0x000000000000000000000000a0b86991c6218b36c1d19d4a2e9eb0ce3606eb48", "USDC");
  ("0x000000000000000000000000dac17f958d2ee523a2206206994597c13d831ec7", "USDT");
  ("0x0000000000000000000000006b175474e89094c44da98b954eedeac495271d0f", "DAI");
  ("0x000000000000000000000000853d955acef822db058eb8505911ed77f175b99e", "FRAX");
  ("0x0000000000000000000000005f98805a4e8be255a32880fdec7f6728c6568ba0", "LUSD");
  ("0x000000000000000000000000c02aaa39b223fe8d0a0e5c4f27ead9083c756cc2", "WETH");
  ("0x0000000000000000000000002260fac5e5542a773aa44fbcfedf7c193bc2c599", "WBTC")
].

(** The dictionary [decode_flashloan_log] returns in this script. *)
Record Event : Set := {
  tx_hash : pyval;
  block : pyval;
  token : string;
  token_topic : option string;
  amount : Z;
  fee : Z;
  gas_used : Z;
  gas_price_gwei : num
}.

(** [STABLECOINS.get(token_topic,
                     token_topic[:20] + "..." if token_topic else "Unknown")] *)
Definition token_name (token_topic : option string) : string :=
  default
    (match token_topic with
     | Some t => if ExtractAll.present token_topic then slice 0 20 t ++ "..."
                 else "Unknown"
     | None => "Unknown"
     end)
    (ExtractAll.dict_get STABLECOINS token_topic).

(** The payload and the gas fields are read by the same statements as in
    [extract_all_flashloans.py]. *)
Definition decode_flashloan_log (log : Log) (txs : gmap pyval Transaction)
  : result Event :=
  let token_topic := ExtractAll.topic log 2 in
  let token_name := token_name token_topic in
  '(amount, fee) ← ExtractAll.decode_amounts (data log);
  '(gas_used, gas_price) ← ExtractAll.decode_gas (txs !! transaction_hash log);
  gas_price_gwei ← ExtractAll.gwei gas_price;
  Ok {| tx_hash := transaction_hash log;
        block := block_number log;
        token := token_name;
        token_topic := token_topic;
        amount := amount;
        fee := fee;
        gas_used := gas_used;
        gas_price_gwei := gas_price_gwei |}.

(** *** [main]: the stablecoin events and the sample *)

Definition stablecoin_names : list string :=
  ["USDC"; "USDT"; "DAI"; "FRAX"; "LUSD"].

(** The loop over the logs: every log is decoded, and the events of the
    five names are appended to [stablecoin_events], their transaction
    hashes added to [unique_txs]. *)
Fixpoint select (logs : list Log) (txs : gmap pyval Transaction)
    (unique_txs : gset pyval) (stablecoin_events : list Event)
  : result (gset pyval * list Event) :=
  match logs with
  | [] => Ok (unique_txs, stablecoin_events)
  | log :: logs' =>
    decoded ← decode_flashloan_log log txs;
    if bool_decide (token decoded ∈ stablecoin_names)
    then select logs' txs ({[tx_hash decoded]} ∪ unique_txs)
                (stablecoin_events ++ [decoded])%list
    else select logs' txs unique_txs stablecoin_events
  end.

(** [6 if event["token"] in ["USDC", "USDT"] else 18] *)
Definition sample_decimals (event : Event) : Z :=
  if bool_decide (token event ∈ ["USDC"; "USDT"]) then 6 else 18.

(** The sample: an event is printed, with its scaled amount, when its
    transaction hash has not been printed before. *)
Fixpoint sample (events : list Event) (seen : gset pyval)
  : result (list (Event * float)) :=
  match events with
  | [] => Ok []
  | event :: events' =>
    if bool_decide (tx_hash event ∈ seen) then sample events' seen
    else
      amount_fmt ← truediv_int (amount event) (10 ^ sample_decimals event);
      printed ← sample events' ({[tx_hash event]} ∪ seen);
      Ok ((event, amount_fmt) :: printed)
  end.

(** What a run of [main] on the harvested logs comes to; nothing when
    there is no log. *)
Record Report : Type := {
  stablecoin_events : list Event;
  unique_txs : gset pyval;
  samples : list (Event * float)
}.

Definition main (logs : list Log) (txs : gmap pyval Transaction)
  : result (option Report) :=
  match logs with
  | [] => Ok None
  | _ =>
    '(unique_txs, stablecoin_events) ← select logs txs ∅ [];
    printed ← sample (take 20 stablecoin_events) ∅;
    Ok (Some {| stablecoin_events := stablecoin_events;
                unique_txs := unique_txs;
                samples := printed |})
  end.

End QueryAll.

(** ** Dictionaries of lists and the stable sort by size *)

Module Grouping.
Section Groups.
Context {A : Type} (key : A -> string).

(** [if k not in d: d[k] = []] and [d[k].append(x)] on a dictionary kept
    as the list of its items in insertion order. *)
Fixpoint append (x : A) (groups : list (string * list A))
  : list (string * list A) :=
  match groups with
  | [] => [(key x, [x])]
  | (t, xs) :: groups' =>
    if String.eqb t (key x) then (t, xs ++ [x]) :: groups'
    else (t, xs) :: append x groups'
  end.

(** [sorted(d.items(), key=lambda x: -len(x[1]))] *)
Definition sort_key (g : string * list A) : Z :=
  - Z.of_nat (length (snd g)).

Fixpoint insert_by_key (g : string * list A) (l : list (string * list A))
  : list (string * list A) :=
  match l with
  | [] => [g]
  | h :: l' =>
    if sort_key g <=? sort_key h then g :: l else h :: insert_by_key g l'
  end.

Definition sorted (l : list (string * list A)) : list (string * list A) :=
  foldr insert_by_key [] l.

End Groups.
End Grouping.

(** ** [query_balancer_flashloans.py] *)

Module QueryBalancer.
Import Py Hypersync Harvest.
Open Scope string_scope.
Open Scope Z_scope.

Definition STABLECOINS : list (string * string) := [
  ("0xa0b86991c6218b36c1d19d4a2e9eb0ce3606eb48", "USDC");
  ("0xdac17f958d2ee523a2206206994597c13d831ec7", "USDT");
  ("0x6b175474e89094c44da98b954eedeac495271d0f", "DAI");
  ("0x4fabb145d64652a948d72533023f6e7a623c7c53", "BUSD");
  ("0x8e870d67f660d95d5be530380d0ec0bd388289e1", "USDP");
  ("0x0000000000085d4780b73119b644ae5ecd22b376", "TUSD");
  ("0x853d955acef822db058eb8505911ed77f175b99e", "FRAX");
  ("0x5f98805a4e8be255a32880fdec7f6728c6568ba0", "LUSD");
  ("0x57ab1ec28d129707052df4df418d58a2d46d5f51", "sUSD");
  ("0x1abaea1f7c830bd89acc67ec4af516284b1bc33c", "EURC")
].

Definition STABLECOIN_TOPICS : list (string * string) :=
  map (fun '(addr, name) =>
         ("0x000000000000000000000000" ++ slice_from 2 addr, name))
      STABLECOINS.

(** The loop of this script stores every transaction unconditionally. *)
Definition query_flashloans := harvest index_page_unguarded.

Record Event : Set := {
  tx_hash : pyval;
  block : pyval;
  token : string;
  token_address : option string;
  amount : Z;
  fee : Z;
  gas_used : Z;
  gas_price_gwei : float;
  recipient : option string
}.

(** [int(tx.f, 16) if tx and tx.f else 0] *)
Definition gas_field (tx : option Transaction) (f : Transaction -> attr)
  : result Z :=
  match tx with
  | Some tx =>
    match f tx with
    | Some v => if truthy v then int16_val v else Ok 0
    | None => Raise AttributeError
    end
  | None => Ok 0
  end.

Definition decode_flashloan_log (log : Log) (txs : gmap pyval Transaction)
  : result Event :=
  let recipient_topic := ExtractAll.topic log 1 in
  let token_topic := ExtractAll.topic log 2 in
  let token_name :=
    default "Unknown" (ExtractAll.dict_get STABLECOIN_TOPICS token_topic) in
  '(amount, fee) ← ExtractAll.decode_amounts (data log);
  let tx := txs !! transaction_hash log in
  gas_used ← gas_field tx Hypersync.gas_used;
  gas_price ← gas_field tx Hypersync.gas_price;
  x ← float_of_int gas_price;
  gas_price_gwei ← truediv_float x ExtractAll.float_1e9;
  Ok {| tx_hash := transaction_hash log;
        block := block_number log;
        token := token_name;
        token_address := token_topic;
        amount := amount;
        fee := fee;
        gas_used := gas_used;
        gas_price_gwei := gas_price_gwei;
        recipient := recipient_topic |}.

(** *** [main]: the summary by stablecoin and the sample *)

(** The loop over the logs: every log is decoded and filed under its
    token. *)
Fixpoint group_logs (logs : list Log) (txs : gmap pyval Transaction)
    (by_token : list (string * list Event))
  : result (list (string * list Event)) :=
  match logs with
  | [] => Ok by_token
  | log :: logs' =>
    decoded ← decode_flashloan_log log txs;
    group_logs logs' txs (Grouping.append token decoded by_token)
  end.

(** The float literal [1e6]. *)
Definition float_1e6 : float := binary_normalize 53 1024 1000000 0 false.

(** The figures of one printed entry. *)
Record Row : Set := {
  row_token : string;
  row_count : nat;
  total_amount : Z;
  volume : float;
  avg_gas : num
}.

(** The body of the [for token, events in sorted(...)] loop:
    [sum(e["amount"] ...)], [sum(e["gas_used"] ...) / len(events) if
    events else 0] and [total_amount / 1e6]. *)
Definition summarize (t : string) (events : list Event) : result Row :=
  let total_amount := fold_left Z.add (map amount events) 0 in
  avg_gas ← match events with
            | [] => Ok (NInt 0)
            | _ =>
              q ← truediv_int (fold_left Z.add (map gas_used events) 0)
                               (Z.of_nat (length events));
              Ok (NFloat q)
            end;
  x ← float_of_int total_amount;
  volume ← truediv_float x float_1e6;
  Ok {| row_token := t;
        row_count := length events;
        total_amount := total_amount;
        volume := volume;
        avg_gas := avg_gas |}.

(** [decoded['tx_hash'][:20]]: only a string can be sliced. *)
Definition hash_prefix (v : pyval) : result string :=
  match v with
  | PyStr s => Ok (slice 0 20 s)
  | _ => Raise TypeError
  end.

(** One entry of "Sample transactions": the log is decoded again. *)
Definition sample_entry (log : Log) (txs : gmap pyval Transaction)
  : result (string * Event * float) :=
  decoded ← decode_flashloan_log log txs;
  h ← hash_prefix (tx_hash decoded);
  x ← float_of_int (amount decoded);
  a ← truediv_float x float_1e6;
  Ok (h, decoded, a).

Definition samples (logs : list Log) (txs : gmap pyval Transaction)
  : result (list (string * Event * float)) :=
  mapM (fun log => sample_entry log txs) (take 10 logs).

(** What a run of [main] on the harvested logs comes to: the entries of
    the summary in printing order and the sample; nothing when there is
    no log. *)
Definition main (logs : list Log) (txs : gmap pyval Transaction)
  : result (option (list Row * list (string * Event * float))) :=
  match logs with
  | [] => Ok None
  | _ =>
    by_token ← group_logs logs txs [];
    rows ← mapM (fun g => summarize (fst g) (snd g))
                (Grouping.sorted by_token);
    shown ← samples logs txs;
    Ok (Some (rows, shown))
  end.

End QueryBalancer.

(** ** The client configuration (the same in the three scripts) *)

Module Config.
Import Py.
Open Scope string_scope.

(** The arguments [hypersync.ClientConfig] is built from. *)
Record ClientConfig : Set := {
  url : string;
  bearer_token : option string
}.

(** [a or b] on two results of [os.environ.get]. *)
Definition or_str (a b : option string) : option string :=
  if ExtractAll.present a then a else b.

(** The configuration chosen from the environment: without a token the
    client is built with the URL alone. *)
Definition client_config (environ : gmap string string) : ClientConfig :=
  let api_token :=
    or_str (environ !! "ENVIO_API_KEY") (environ !! "ENVIO_API_TOKEN") in
  if negb (ExtractAll.present api_token)
  then {| url := "https://eth.hypersync.xyz"; bearer_token := None |}
  else {| url := "https://eth.hypersync.xyz"; bearer_token := api_token |}.

End Config.

(** ** Objects and references *)

(** [decode_flashloan_log] is handed two references: to a log object
    and to the dictionary [all_txs], whose values are references to
    transaction objects.  The store holds the objects of the program;
    a statement of the function is a step on the store that may read
    it, add to it or change an object of it, and may raise. *)

Module Objects.
Import Py Hypersync.
Open Scope string_scope.
Open Scope Z_scope.

(** A reference is the address of an object. *)
Abbreviation ref := positive (only parsing).

Inductive object : Type :=
| LogObject (l : Log)
| TxObject (t : Transaction)
| DictObject (d : gmap pyval ref)
| EventObject (e : ExtractAll.Event).

Abbreviation store := (gmap ref object) (only parsing).

(** A computation on the store; an exception leaves the store as it
    was when it was raised. *)
Definition M (A : Type) : Type := store -> result A * store.

#[global] Instance M_ret : MRet M := fun _ a s => (Ok a, s).
#[global] Instance M_bind : MBind M := fun _ _ f m s =>
  match m s with
  | (Ok a, s') => f a s'
  | (Raise e, s') => (Raise e, s')
  end.

(** A computation on values only. *)
Definition lift {A : Type} (r : result A) : M A := fun s => (r, s).

(** [log.name]: reading an attribute of a log object. *)
Definition log_attr {A : Type} (name : Log -> A) (log : ref) : M A :=
  fun s =>
    match s !! log with
    | Some (LogObject l) => (Ok (name l), s)
    | _ => (Raise AttributeError, s)
    end.

(** The attribute [name] of the object a dictionary value refers to,
    [None] when [hasattr] is false: an object that is no transaction
    has neither gas attribute. *)
Definition tx_attr (name : Transaction -> attr) (tx : ref) : M attr :=
  fun s =>
    match s !! tx with
    | Some (TxObject t) => (Ok (name t), s)
    | _ => (Ok None, s)
    end.

(** [hasattr(tx, name)] *)
Definition hasattr (name : Transaction -> attr) (tx : ref) : M bool :=
  a ← tx_attr name tx; mret (bool_decide (is_Some a)).

(** [tx.name] *)
Definition getattr (name : Transaction -> attr) (tx : ref) : M pyval :=
  a ← tx_attr name tx;
  match a with
  | Some v => mret v
  | None => lift (Raise AttributeError)
  end.

(** [txs.get(k)]: the reference stored under [k], if there is one.  A
    decoded event is a dictionary as well; what it holds are scalars,
    which are false or carry no gas attribute, so that to the decoder
    its entries are as good as none. *)
Definition dict_get (txs : ref) (k : pyval) : M (option ref) :=
  fun s =>
    match s !! txs with
    | Some (DictObject d) => (Ok (d !! k), s)
    | Some (EventObject _) => (Ok None, s)
    | _ => (Raise AttributeError, s)
    end.

(** [all_txs[k] = v]: the assignment of the harvest loop, the one
    statement of the script that changes an object it was handed. *)
Definition dict_setitem (txs : ref) (k : pyval) (v : ref) : M unit :=
  fun s =>
    match s !! txs with
    | Some (DictObject d) => (Ok tt, <[txs := DictObject (<[k := v]> d)]> s)
    | _ => (Raise TypeError, s)
    end.

(** A dictionary display: a new object, at a reference not in use. *)
Definition new_event (e : ExtractAll.Event) : M ref := fun s =>
  let p := fresh (dom s) in (Ok p, <[p := EventObject e]> s).

(** [len(x)] and [x[a:b]] on a value that may be [None]. *)
Definition len_of (x : option string) : result Z :=
  match x with
  | Some s => Ok (len s)
  | None => Raise TypeError
  end.

Definition subscript (a b : nat) (x : option string) : result string :=
  match x with
  | Some s => Ok (slice a b s)
  | None => Raise TypeError
  end.

(** [int(v, 16)] on a scalar. *)
Definition int16_of (v : pyval) : result Z :=
  match v with
  | PyStr s => int16 s
  | _ => Raise TypeError
  end.

(** [isinstance(v, str)] *)
Definition is_str (v : pyval) : bool :=
  match v with
  | PyStr _ => true
  | _ => false
  end.

(** A scalar stored as a gas figure. *)
Definition as_int (v : pyval) : Z :=
  match v with
  | PyInt z => z
  | _ => 0
  end.

(** [log.topics[i] if len(log.topics) > i else None] *)
Definition topic (log : ref) (i : nat) : M (option string) :=
  ts ← log_attr topics log;
  if bool_decide (i < length ts)%nat then
    ts ← log_attr topics log;
    mret (default None (ts !! i))
  else mret None.

(** The two words of [log.data]: [log.data] is read again wherever
    the script names it. *)
Definition decode_amounts (log : ref) : M (Z * Z) :=
  d ← log_attr data log;
  if ExtractAll.present d then
    d ← log_attr data log;
    n ← lift (len_of d);
    if 66 <=? n then
      d ← log_attr data log;
      w ← lift (subscript 2 66 d);
      amount_raw ← lift (int16 w);
      d ← log_attr data log;
      n ← lift (len_of d);
      if 130 <=? n then
        d ← log_attr data log;
        w ← lift (subscript 66 130 d);
        fee_raw ← lift (int16 w);
        mret (amount_raw, fee_raw)
      else mret (amount_raw, 0)
    else mret (0, 0)
  else mret (0, 0).

(** [if hasattr(tx, name) and tx.name: x = int(tx.name, 16) if
    isinstance(tx.name, str) else tx.name], from [x = 0]. *)
Definition gas_field (name : Transaction -> attr) (tx : ref) : M Z :=
  h ← hasattr name tx;
  if (h : bool) then
    v ← getattr name tx;
    if truthy v then
      v ← getattr name tx;
      if is_str v then
        v ← getattr name tx;
        lift (int16_of v)
      else
        v ← getattr name tx;
        mret (as_int v)
    else mret 0
  else mret 0.

(** [tx = txs.get(log.transaction_hash)] and the gas figures of [tx],
    zero when there is none. *)
Definition decode_gas (log txs : ref) : M (Z * Z) :=
  h ← log_attr transaction_hash log;
  tx ← dict_get txs h;
  match tx with
  | Some tx =>
    gas_used ← gas_field Hypersync.gas_used tx;
    gas_price ← gas_field Hypersync.gas_price tx;
    mret (gas_used, gas_price)
  | None => mret (0, 0)
  end.

(** [decode_flashloan_log] on references: it returns the reference of
    the dictionary it has built. *)
Definition decode_flashloan_log (log txs : ref) : M ref :=
  recipient_topic ← topic log 1;
  token_topic ← topic log 2;
  let '(token_name, decimals) := ExtractAll.token_of token_topic in
  '(amount_raw, fee_raw) ← decode_amounts log;
  amount_formatted ← lift (truediv_int amount_raw (10 ^ decimals));
  '(gas_used, gas_price) ← decode_gas log txs;
  tx_hash ← log_attr transaction_hash log;
  block ← log_attr block_number log;
  gas_price_gwei ← lift (ExtractAll.gwei gas_price);
  new_event {| ExtractAll.tx_hash := tx_hash;
               ExtractAll.block := block;
               ExtractAll.token := token_name;
               ExtractAll.token_address := ExtractAll.address_of token_topic;
               ExtractAll.amount_raw := amount_raw;
               ExtractAll.amount := amount_formatted;
               ExtractAll.decimals := decimals;
               ExtractAll.fee_raw := fee_raw;
               ExtractAll.gas_used := gas_used;
               ExtractAll.gas_price_gwei := gas_price_gwei;
               ExtractAll.recipient := ExtractAll.address_of recipient_topic |}.

(** [for log in logs: events.append(decode_flashloan_log(log, txs))],
    from [events = []]. *)
Fixpoint decode_all (logs : list ref) (txs : ref) : M (list ref) :=
  match logs with
  | [] => mret []
  | log :: logs' =>
    event ← decode_flashloan_log log txs;
    events ← decode_all logs' txs;
    mret (event :: events)
  end.

End Objects.

(** ** Vocabulary of the properties *)

Module Props.
Import Py Hypersync Harvest.

(** The pages are stored one after the other. *)
Fixpoint index_pages
    (index : gmap pyval Transaction -> list Transaction ->
             result (gmap pyval Transaction))
    (all_txs : gmap pyval Transaction) (pages : list QueryResponse)
  : result (gmap pyval Transaction) :=
  match pages with
  | [] => Ok all_txs
  | p :: pages' =>
    match index all_txs (transactions p) with
    | Ok all_txs' => index_pages index all_txs' pages'
    | Raise e => Raise e
    end
  end.

(** The transaction records of all pages received, in arrival order. *)
Definition seen (fuel : nat) (c : client) (from_block : Z)
    (to_block : option Z) : list Transaction :=
  concat (map transactions (fetched fuel c to_block 0 from_block)).

(** A record the guarded loop files under the key [h]. *)
Definition keyed_by (h : pyval) (tx : Transaction) : Prop :=
  hash tx = Some h /\ truthy h = true.

#[global] Instance keyed_by_dec h tx : Decision (keyed_by h tx).
Proof. unfold keyed_by. apply _. Defined.

(** A record the unguarded loop files under the key [h]. *)
Definition filed_under (h : pyval) (tx : Transaction) : Prop :=
  hash tx = Some h.

#[global] Instance filed_under_dec h tx : Decision (filed_under h tx).
Proof. unfold filed_under. apply _. Defined.

(** A service that does not move the cursor of a harvest started at
    [from_block] with the bound [to_block]: asked for a block between
    [lo] and [from_block], it names a next block in that range that is
    not beyond the block asked for and is still below the target. *)
Definition stuck (c : client) (lo from_block : Z) (to_block : option Z)
  : Prop :=
  forall n q, lo <= q <= from_block ->
    exists res, c n q to_block = Some res /\
                lo <= next_block res <= q /\
                next_block res < or_int to_block (archive_height res).


(** *** Hexadecimal fields *)

Definition is_hex (c : ascii) : bool :=
  match hex_digit c with
  | Some _ => true
  | None => false
  end.

(** The number written by hexadecimal digits, most significant first. *)
Fixpoint hex_value (acc : Z) (cs : list ascii) : Z :=
  match cs with
  | [] => acc
  | c :: cs' => hex_value (16 * acc + default 0 (hex_digit c)) cs'
  end.

(** The bytes written by hexadecimal digits, two digits a byte. *)
Fixpoint bytes_of_hex (cs : list ascii) : option (list Byte.byte) :=
  match cs with
  | [] => Some []
  | h :: cs1 =>
    match cs1 with
    | l :: cs' =>
      match hex_digit h, hex_digit l, bytes_of_hex cs' with
      | Some a, Some b, Some bs =>
        match Byte.of_N (Z.to_N (16 * a + b)) with
        | Some x => Some (x :: bs)
        | None => None
        end
      | _, _, _ => None
      end
    | [] => None
    end
  end.


(** The characters of [log.data] behind the leading [0x]; none for an
    absent or empty field. *)
Definition data_digits (data : option string) : list ascii :=
  match data with
  | Some d => drop 2 (chars d)
  | None => []
  end.

(** [log.data] is absent, empty, or [0x] followed by hexadecimal digits. *)
Definition hex_data (data : option string) : bool :=
  match data with
  | Some d =>
    match chars d with
    | [] => true
    | z :: x :: body =>
      Ascii.eqb z "0" && Ascii.eqb x "x" && forallb is_hex body
    | _ => false
    end
  | None => true
  end.



(** The same on hexadecimal digits, 64 digits a word. *)
Definition hex_word (i : nat) (ds : list ascii) : Z :=
  if (64 * (i + 1) <=? length ds)%nat
  then hex_value 0 (take 64 (drop (64 * i) ds))
  else 0.

(** *** Gas fields *)

Definition strip_0x (cs : list ascii) : list ascii :=
  match cs with
  | z :: x :: rest =>
    if Ascii.eqb z "0" && Ascii.eqb x "x" then rest else cs
  | _ => cs
  end.

(** The unsigned 256-bit integer a gas field stands for: a hexadecimal
    string of at most 64 digits, with or without [0x], or a non-negative
    [int]; an absent, [None] or empty field stands for zero. *)
Definition quantity (a : attr) : option Z :=
  match a with
  | None => Some 0
  | Some PyNone => Some 0
  | Some (PyInt z) => if (0 <=? z) && (z <? 2 ^ 256) then Some z else None
  | Some (PyStr s) =>
    match chars s with
    | [] => Some 0
    | cs =>
      let ds := strip_0x cs in
      if (1 <=? length ds)%nat && (length ds <=? 64)%nat && forallb is_hex ds
      then Some (hex_value 0 ds)
      else None
    end
  end.

(** Both gas fields of the matched record, if there is one, are
    quantities. *)
Definition gas_ok (tx : option Transaction) : bool :=
  match tx with
  | Some tx =>
    bool_decide (is_Some (quantity (gas_used tx))) &&
    bool_decide (is_Some (quantity (gas_price tx)))
  | None => true
  end.

(** The quantity of a gas field of the matched record; zero without a
    match. *)
Definition gas_of (tx : option Transaction) (f : Transaction -> attr) : Z :=
  match tx with
  | Some tx => default 0 (quantity (f tx))
  | None => 0
  end.

(** The binary64 value next to [a / 10^decimals] (ties to even). *)
Definition scaled (a decimals : Z) : float :=
  SFdiv 53 1024 (exact a) (exact (10 ^ decimals)).

(** The binary64 value of [float(n) / 1e9]. *)
Definition gwei_float (n : Z) : float :=
  SFdiv 53 1024 (binary_normalize 53 1024 n 0 false)
        ExtractAll.float_1e9.

(** The float next to the integer [z]; exact below [2^53]. *)
Definition float_of_Z (z : Z) : float := binary_normalize 53 1024 z 0 false.

(** *** The objects of a call *)

(** The log a reference stands for. *)
Definition log_at (s : Objects.store) (p : Objects.ref) : option Log :=
  match s !! p with
  | Some (Objects.LogObject l) => Some l
  | _ => None
  end.

(** The transaction a dictionary value stands for; an object of
    another kind shows no attribute. *)
Definition tx_at (s : Objects.store) (p : Objects.ref) : Transaction :=
  match s !! p with
  | Some (Objects.TxObject t) => t
  | _ => {| hash := None; gas_used := None; gas_price := None |}
  end.

(** The index a reference stands for: the dictionary with the
    transactions in place of their references.  A decoded event holds
    no transaction. *)
Definition txs_at (s : Objects.store) (p : Objects.ref)
  : option (gmap pyval Transaction) :=
  match s !! p with
  | Some (Objects.DictObject d) => Some (tx_at s <$> d)
  | Some (Objects.EventObject _) => Some ∅
  | _ => None
  end.

(** The event a reference stands for. *)
Definition event_at (s : Objects.store) (p : Objects.ref)
  : option ExtractAll.Event :=
  match s !! p with
  | Some (Objects.EventObject e) => Some e
  | _ => None
  end.

(** The store [s'] holds every object of [s] as it is in [s], and
    beside them nothing but decoded events. *)
Definition grown (s s' : Objects.store) : Prop :=
  forall p,
    match s !! p with
    | Some o => s' !! p = Some o
    | None => s' !! p = None \/ exists e, s' !! p = Some (Objects.EventObject e)
    end.
(** *** The summary *)

(** The events of one token, in input order. *)
Definition events_of (t : string) (events : list ExtractAll.Event)
  : list ExtractAll.Event :=
  filter (fun e => ExtractAll.token e = t) events.

(** The group filed under a token. *)
Fixpoint group_of (t : string)
    (groups : list (string * list ExtractAll.Event))
  : option (list ExtractAll.Event) :=
  match groups with
  | [] => None
  | (t', es) :: groups' =>
    if String.eqb t' t then Some es else group_of t groups'
  end.

(** The gas figures of a list of events: minimum, maximum and average
    of the gas used, over the events whose gas is known (positive);
    none when there is no such event. *)
Definition gas_figures_of (es : list ExtractAll.Event)
  : option (Z * Z * float) :=
  match List.filter (fun g => 0 <? g) (map ExtractAll.gas_used es) with
  | [] => None
  | g :: gs =>
    Some (fold_left Z.min gs g, fold_left Z.max gs g,
          SFdiv 53 1024 (exact (fold_left Z.add (g :: gs) 0))
                        (exact (Z.of_nat (length (g :: gs)))))
  end.

(** A row gives the figures of the events [es] of one token: their
    number, the minimum, the maximum and the average of their scaled
    amounts, and their gas figures. *)
Definition describes (impl : sum_impl) (es : list ExtractAll.Event)
    (r : ExtractAll.Row) : Prop :=
  match map ExtractAll.amount es with
  | [] => False
  | a :: rest =>
    ExtractAll.row_count r = length es /\
    ExtractAll.loan_min r = min_float a rest /\
    ExtractAll.loan_max r = max_float a rest /\
    ExtractAll.loan_avg r
    = SFdiv 53 1024 (sum_float impl (a :: rest))
                    (float_of_Z (Z.of_nat (length es))) /\
    ExtractAll.gas_figures r = gas_figures_of es
  end.



(** What a row of the summary says about the group it is made from. *)
Definition row_of (impl : sum_impl) (events : list ExtractAll.Event)
    (g : string * list ExtractAll.Event) (r : ExtractAll.Row) : Prop :=
  ExtractAll.row_token r = fst g /\ snd g = events_of (fst g) events /\
  describes impl (snd g) r.

End Props.

(** ** Sample services and records *)

Module Samples.
Import Py Hypersync Harvest.
Open Scope string_scope.
Open Scope Z_scope.

(** A service that hands the cursor back unchanged. *)
Definition stuck_client : client := fun _ q _ =>
  Some {| logs := []; transactions := []; next_block := q;
          archive_height := 200 |}.


Definition tx_early : Transaction :=
  {| hash := Some (PyStr "0xaa");
     gas_used := Some (PyStr "0x5208");
     gas_price := Some (PyStr "0x4a817c800") |}.

Definition tx_late : Transaction :=
  {| hash := Some (PyStr "0xaa");
     gas_used := Some (PyStr "0x7530");
     gas_price := Some (PyStr "0x3b9aca00") |}.

(** One page that carries two records with the same hash. *)
Definition dup_client : client := fun _ q _ =>
  Some {| logs := []; transactions := [tx_early; tx_late];
          next_block := q + 10; archive_height := 1000 |}.

Definition usdc_topic : string :=
  "0x000000000000000000000000a0b86991c6218b36c1d19d4a2e9eb0ce3606eb48".

(** A loan of 1 000 000 raw units of USDC with a fee of 5. *)
Definition usdc_log : Log :=
  {| transaction_hash := PyStr "0xaa";
     block_number := PyInt 19000001;
     topics := [Some "0x0d7d75e01ab95780d3cd1c8ec0dd6c2ce19e3a20427eec8bf53283b6fb8e95f0";
                Some "0x0000000000000000000000001111111111111111111111111111111111111111";
                Some usdc_topic];
     data := Some ("0x00000000000000000000000000000000000000000000000000000000000f4240"
                   ++ "0000000000000000000000000000000000000000000000000000000000000005") |}.

(** A log with the signature topic only and an empty payload. *)
Definition bare_log : Log :=
  {| transaction_hash := PyStr "0xaa";
     block_number := PyInt 19000002;
     topics := [Some "0x0d7d75e01ab95780d3cd1c8ec0dd6c2ce19e3a20427eec8bf53283b6fb8e95f0"];
     data := Some "0x" |}.

(** A log whose data holds one word, with a character that is no
    digit, and no fee. *)
Definition garbled_log : Log :=
  {| transaction_hash := PyStr "0xaa";
     block_number := PyInt 19000003;
     topics := [Some "0x0d7d75e01ab95780d3cd1c8ec0dd6c2ce19e3a20427eec8bf53283b6fb8e95f0"];
     data := Some "0x00000000000000000000000000000000000000000000000000000000000g4240" |}.

(** Gas 21000 at 20 gwei, as hexadecimal strings. *)
Definition hex_txs : gmap pyval Transaction :=
  {[ PyStr "0xaa" := tx_early ]}.

(** A store that holds the log of the USDC loan at reference 1, the
    index at 2 and the one transaction of the index at 3. *)
Definition usdc_store : Objects.store :=
  {[ 1%positive := Objects.LogObject usdc_log;
     2%positive := Objects.DictObject {[ PyStr "0xaa" := 3%positive ]};
     3%positive := Objects.TxObject tx_early ]}.

(** The same figures as integers. *)
Definition numeric_tx : Transaction :=
  {| hash := Some (PyStr "0xaa");
     gas_used := Some (PyInt 21000);
     gas_price := Some (PyInt 20000000000) |}.

Definition numeric_txs : gmap pyval Transaction :=
  {[ PyStr "0xaa" := numeric_tx ]}.

(** A record without a usable hash. *)
Definition anonymous_tx : Transaction :=
  {| hash := Some PyNone;
     gas_used := Some (PyStr "0x5208");
     gas_price := Some (PyStr "0x4a817c800") |}.

Definition anonymous_client : client := fun _ q _ =>
  Some {| logs := [usdc_log]; transactions := [anonymous_tx];
          next_block := q + 10; archive_height := 1000 |}.

(** A decoded event with the given token, scaled amount and gas. *)
Definition event_of (t : string) (a : float) (g : Z) : ExtractAll.Event :=
  {| ExtractAll.tx_hash := PyStr "0xaa";
     ExtractAll.block := PyInt 19000001;
     ExtractAll.token := t;
     ExtractAll.token_address := "";
     ExtractAll.amount_raw := 0;
     ExtractAll.amount := a;
     ExtractAll.decimals := 18;
     ExtractAll.fee_raw := 0;
     ExtractAll.gas_used := g;
     ExtractAll.gas_price_gwei := NInt 0;
     ExtractAll.recipient := "" |}.


(** One loan each of sixteen different tokens. *)
Definition sixteen_events : list ExtractAll.Event :=
  map (fun t => event_of t (Props.float_of_Z 1) 0)
      ["T01"; "T02"; "T03"; "T04"; "T05"; "T06"; "T07"; "T08";
       "T09"; "T10"; "T11"; "T12"; "T13"; "T14"; "T15"; "T16"].

End Samples.

(** ** Vocabulary of the further properties *)

Module Laws.
Import Py Hypersync Harvest.
Open Scope string_scope.
Open Scope Z_scope.

(** A service whose block numbers are unsigned 64-bit integers. *)
Definition u64_service (c : client) : Prop :=
  forall n q to_block res, c n q to_block = Some res ->
    0 <= next_block res < 2 ^ 64 /\ 0 <= archive_height res < 2 ^ 64.

(** A service that moves one block per request and never leaves the
    range of 64-bit block numbers. *)
Definition capped_client : client := fun _ q _ =>
  Some {| logs := []; transactions := [];
          next_block := Z.max 0 (Z.min (q + 1) 1000);
          archive_height := 1000 |}.

(** A service that claims a next block beyond every binary64 value. *)
Definition far_client : client := fun _ q _ =>
  Some {| logs := []; transactions := []; next_block := 2 ^ 1024;
          archive_height := 1 |}.

(** A record that carries no hash attribute. *)
Definition hashless_tx : Transaction :=
  {| hash := None;
     gas_used := Some (PyStr "0x5208");
     gas_price := Some (PyStr "0x4a817c800") |}.

(** One page with a record without hash after a record with one. *)
Definition hashless_client : client := fun _ q _ =>
  Some {| logs := [Samples.usdc_log];
          transactions := [Samples.tx_early; hashless_tx];
          next_block := q + 10; archive_height := 1000 |}.

(** A service that answers once and fails on the second request. *)
Definition failing_client : client := fun n q _ =>
  match n with
  | O => Some {| logs := [Samples.usdc_log]; transactions := [Samples.tx_early];
                 next_block := q + 1; archive_height := 1000 |}
  | _ => None
  end.

(** Two pages of one log each, then the end of the range. *)
Definition two_page_client : client := fun n q _ =>
  Some {| logs := [if (n =? 0)%nat then Samples.usdc_log else Samples.bare_log];
          transactions := [Samples.anonymous_tx];
          next_block := q + 5; archive_height := 10 |}.

(** A character [int(s, 16)] accepts at no position: no digit, no
    white space, no underscore, no sign and not the letter of the
    prefix. *)
Definition unreadable (c : ascii) : bool :=
  negb (Props.is_hex c) && negb (is_space c) && negb (Ascii.eqb c "_") &&
  negb (Ascii.eqb c "+") && negb (Ascii.eqb c "-") &&
  negb (Ascii.eqb c "x") && negb (Ascii.eqb c "X").

(** What [int(s, 16)] may come to on the characters [cs]: an integer of
    magnitude below [n], no character being unreadable, or [ValueError]. *)
Definition int_outcome (n : Z) (cs : list ascii) (r : result Z) : Prop :=
  match r with
  | Ok z => Z.abs z < n /\ Forall (fun c => unreadable c = false) cs
  | Raise e => e = ValueError
  end.

(** A record whose gas price is beyond the range of floats. *)
Definition huge_gas_txs : gmap pyval Transaction :=
  {[ PyStr "0xaa" := {| hash := Some (PyStr "0xaa");
                        gas_used := Some (PyInt 21000);
                        gas_price := Some (PyInt (2 ^ 1024)) |} ]}.

(** A log of a token no table lists. *)
Definition unlisted_topic : string :=
  "0x0000000000000000000000001234567890abcdef1234567890abcdef12345678".

Definition unlisted_log : Log :=
  {| transaction_hash := PyStr "0xaa";
     block_number := PyInt 19000004;
     topics := [Some "0x0d7d75e01ab95780d3cd1c8ec0dd6c2ce19e3a20427eec8bf53283b6fb8e95f0";
                Some "0x0000000000000000000000001111111111111111111111111111111111111111";
                Some unlisted_topic];
     data := Some "0x0000000000000000000000000000000000000000000000000000000000000001" |}.

(** A group holds the elements of its key, in input order, and there
    is at least one. *)
Definition filed {A : Type} (key : A -> string) (xs : list A)
    (g : string * list A) : Prop :=
  snd g = filter (fun x => key x = fst g) xs /\ snd g <> [].

(** Groups in sorting order. *)
Definition by_size {A : Type} (g h : string * list A) : Prop :=
  Grouping.sort_key g <= Grouping.sort_key h.

(** [sum] of a list of integers. *)
Definition total (l : list Z) : Z := fold_left Z.add l 0.

(** A record whose gas fields are hexadecimal strings, [None], empty or
    the integer zero: no field is a non-zero integer or missing. *)
Definition textual (a : attr) : bool :=
  match a with
  | Some (PyInt z) => z =? 0
  | Some _ => true
  | None => false
  end.

Definition textual_gas (tx : option Transaction) : bool :=
  match tx with
  | Some tx => textual (gas_used tx) && textual (gas_price tx)
  | None => true
  end.

(** A log whose transaction hash is not a string. *)
Definition numbered_log : Log :=
  {| transaction_hash := PyInt 7;
     block_number := PyInt 20000001;
     topics := [Some "0x0d7d75e01ab95780d3cd1c8ec0dd6c2ce19e3a20427eec8bf53283b6fb8e95f0";
                Some "0x0000000000000000000000001111111111111111111111111111111111111111";
                Some Samples.usdc_topic];
     data := Some "0x0000000000000000000000000000000000000000000000000000000000000002" |}.

(** A loan of DAI. *)
Definition dai_log : Log :=
  {| transaction_hash := PyStr "0xbb";
     block_number := PyInt 20000002;
     topics := [Some "0x0d7d75e01ab95780d3cd1c8ec0dd6c2ce19e3a20427eec8bf53283b6fb8e95f0";
                Some "0x0000000000000000000000001111111111111111111111111111111111111111";
                Some "0x0000000000000000000000006b175474e89094c44da98b954eedeac495271d0f"];
     data := Some "0x0000000000000000000000000000000000000000000000000000000000000003" |}.

(** An entry of the stablecoin section gives the figures of the events
    [es] of its token: their number, the sum, the average and the
    maximum of their scaled amounts (a maximum none of them exceeds),
    and the average gas over the events of positive gas. *)
Definition stable_describes (impl : sum_impl) (es : list ExtractAll.Event)
    (r : ExtractAll.StableRow) : Prop :=
  let amounts := map ExtractAll.amount es in
  ExtractAll.stable_count r = length es /\
  ExtractAll.total_volume r = sum_float impl amounts /\
  ExtractAll.avg_loan r
  = SFdiv 53 1024 (sum_float impl amounts)
                  (Props.float_of_Z (Z.of_nat (length es))) /\
  ExtractAll.max_loan r ∈ amounts /\
  (forall a, a ∈ amounts -> flt (ExtractAll.max_loan r) a = false) /\
  ExtractAll.stable_avg_gas r
  = option_map (fun f : Z * Z * float => snd f) (Props.gas_figures_of es).

(** Loans of three tokens, two of them stablecoins. *)
Definition mixed_events : list ExtractAll.Event :=
  [Samples.event_of "DAI" (Props.float_of_Z 5) 30000;
   Samples.event_of "WETH" (Props.float_of_Z 7) 0;
   Samples.event_of "USDC" (Props.float_of_Z 100) 21000;
   Samples.event_of "DAI" (Props.float_of_Z 15) 0].

(** A service that, for every block asked for between [lo] and [hi]
    in a harvest up to [hi],
    answers with a next block further on (an unsigned 64-bit integer),
    with logs whose payload is well formed and with records whose gas
    fields are quantities. *)
Definition well_served (c : client) (lo hi : Z) : Prop :=
  forall n q, lo <= q < hi ->
    exists res, c n q (Some hi) = Some res /\ q < next_block res < 2 ^ 64 /\
      Forall (fun log => Props.hex_data (data log) = true) (logs res) /\
      Forall (fun tx => Props.gas_ok (Some tx) = true) (transactions res).

(** A service that hands out one loan of USDC for every million
    blocks. *)
Definition million_client : client := fun _ q _ =>
  Some {| logs := [Samples.usdc_log]; transactions := [Samples.tx_early];
          next_block := q + 1000000; archive_height := 30000000 |}.

End Laws.

(** ** Facts about the harvest loop *)

Section HarvestFacts.
Import Py Hypersync Harvest Props.

Variable index : gmap pyval Transaction -> list Transaction ->
                 result (gmap pyval Transaction).

Lemma harvest_loop_returned fuel c to_block :
  forall calls from_block all_logs all_txs n l t,
  harvest_loop index fuel c to_block calls from_block all_logs all_txs
    = Returned (n, l, t) ->
  let ps := fetched fuel c to_block calls from_block in
  n = (calls + length ps)%nat /\
  l = all_logs ++ concat (map logs ps) /\
  index_pages index all_txs ps = Ok t.
Proof.
  induction fuel as [|fuel IH]; intros calls q all_logs all_txs n l t; simpl.
  - discriminate.
  - destruct (c calls q to_block) as [res|]; [|discriminate].
    destruct (index all_txs (transactions res)) as [m|e] eqn:Hi;
      [|discriminate].
    destruct (or_int to_block (archive_height res) <=? next_block res).
    + intros H. inversion H; subst. simpl. rewrite Hi.
      repeat split; [lia | by rewrite app_nil_r].
    + intros H. apply IH in H. destruct H as (Hn & Hl & Ht). simpl.
      rewrite Hi. repeat split; [lia | by rewrite Hl, <- app_assoc | exact Ht].
Qed.

Lemma harvest_loop_fuel fuel k c to_block :
  forall calls from_block all_logs all_txs r,
  harvest_loop index fuel c to_block calls from_block all_logs all_txs
    = Returned r ->
  harvest_loop index (fuel + k) c to_block calls from_block all_logs all_txs
    = Returned r.
Proof.
  induction fuel as [|fuel IH]; intros calls q all_logs all_txs r; simpl.
  - discriminate.
  - destruct (c calls q to_block) as [res|]; [|discriminate].
    destruct (index all_txs (transactions res)) as [m|e]; [|discriminate].
    destruct (or_int to_block (archive_height res) <=? next_block res);
      [done | apply IH].
Qed.

(** The only exceptions that leave the loop are the service's and the
    index's. *)
Lemma harvest_loop_failed fuel c to_block :
  forall calls from_block all_logs all_txs e,
  harvest_loop index fuel c to_block calls from_block all_logs all_txs
    = Failed e ->
  e = ServiceUnavailable \/
  exists m txs, index m txs = Raise e.
Proof.
  induction fuel as [|fuel IH]; intros calls q all_logs all_txs e; simpl.
  - discriminate.
  - destruct (c calls q to_block) as [res|].
    + destruct (index all_txs (transactions res)) as [m|e'] eqn:Hi.
      * destruct (or_int to_block (archive_height res) <=? next_block res);
          [discriminate | apply IH].
      * intros H. inversion H; subst. right. eauto.
    + intros H. inversion H. by left.
Qed.

Hypothesis index_total : forall m txs, exists m', index m txs = Ok m'.

Lemma harvest_loop_stuck c lo from_block to_block :
  stuck c lo from_block to_block ->
  forall fuel calls q all_logs all_txs, lo <= q <= from_block ->
  harvest_loop index fuel c to_block calls q all_logs all_txs = Running.
Proof.
  intros Hs. induction fuel as [|fuel IH]; intros calls q all_logs all_txs Hq;
    simpl; [done|].
  destruct (Hs calls q Hq) as (res & -> & Hle & Hlt).
  destruct (index_total all_txs (transactions res)) as [m ->].
  replace (or_int to_block (archive_height res) <=? next_block res)
    with false by (symmetry; apply Z.leb_gt; exact Hlt).
  apply IH. lia.
Qed.

End HarvestFacts.

Section IndexFacts.
Import Py Hypersync Harvest Props.

Lemma harvest_returned index fuel c from_block to_block l t :
  harvest index fuel c from_block to_block = Returned (l, t) ->
  exists n, harvest_loop index fuel c to_block 0 from_block [] ∅
            = Returned (n, l, t).
Proof.
  unfold harvest.
  destruct (harvest_loop index fuel c to_block 0 from_block [] ∅)
    as [[[n l'] t']| |]; simpl; [|discriminate..].
  intros H. inversion H; subst. by exists n.
Qed.

Lemma index_tx_lookup m tx h :
  index_tx m tx !! h = if decide (keyed_by h tx) then Some tx else m !! h.
Proof.
  unfold index_tx.
  destruct (decide (keyed_by h tx)) as [[Hh Ht]|Hn].
  - by rewrite Hh, Ht, lookup_insert_eq.
  - destruct (hash tx) as [k|] eqn:Hk; [|done].
    destruct (truthy k) eqn:Ht; [|done].
    apply lookup_insert_ne. intros ->. apply Hn. by split.
Qed.

Lemma fold_index_lookup txs : forall m h,
  fold_left index_tx txs m !! h =
    match last (filter (keyed_by h) txs) with
    | Some tx => Some tx
    | None => m !! h
    end.
Proof.
  induction txs as [|tx txs IH]; intros m h; simpl; [done|].
  rewrite IH, filter_cons, index_tx_lookup.
  case_decide; [|done].
  rewrite last_cons. by destruct (last (filter (keyed_by h) txs)).
Qed.

Lemma index_pages_guarded ps : forall m,
  index_pages index_page m ps
  = Ok (fold_left index_tx (concat (map transactions ps)) m).
Proof.
  induction ps as [|p ps IH]; intros m; simpl; [done|].
  by rewrite IH, fold_left_app.
Qed.

Lemma index_unguarded_app txs1 : forall m txs2,
  index_page_unguarded m (txs1 ++ txs2) =
    match index_page_unguarded m txs1 with
    | Ok m' => index_page_unguarded m' txs2
    | Raise e => Raise e
    end.
Proof.
  induction txs1 as [|tx txs1 IH]; intros m txs2; simpl; [done|].
  destruct (hash tx); [apply IH | done].
Qed.

Lemma index_pages_unguarded ps : forall m,
  index_pages index_page_unguarded m ps
  = index_page_unguarded m (concat (map transactions ps)).
Proof.
  induction ps as [|p ps IH]; intros m; simpl; [done|].
  rewrite index_unguarded_app.
  destruct (index_page_unguarded m (transactions p)); [apply IH | done].
Qed.

Lemma index_unguarded_lookup txs : forall m m' h,
  index_page_unguarded m txs = Ok m' ->
  m' !! h =
    match last (filter (filed_under h) txs) with
    | Some tx => Some tx
    | None => m !! h
    end.
Proof.
  induction txs as [|tx txs IH]; intros m m' h; simpl.
  - by intros [= ->].
  - destruct (hash tx) as [k|] eqn:Hk; [|discriminate].
    intros H. rewrite (IH _ _ h H), filter_cons, lookup_insert.
    destruct (decide (k = h)) as [->|Hne].
    + rewrite decide_True by exact Hk. rewrite last_cons.
      by destruct (last (filter (filed_under h) txs)).
    + rewrite decide_False; [done|]. unfold filed_under. congruence.
Qed.

Lemma guarded_harvest_lookup fuel c from_block to_block l t h :
  harvest index_page fuel c from_block to_block = Returned (l, t) ->
  t !! h = last (filter (keyed_by h) (seen fuel c from_block to_block)).
Proof.
  intros H. apply harvest_returned in H as [n H].
  apply harvest_loop_returned in H as (_ & _ & H).
  rewrite index_pages_guarded in H. inversion H as [Ht].
  rewrite fold_index_lookup, lookup_empty. unfold seen.
  by destruct (last _).
Qed.

Lemma unguarded_harvest_lookup fuel c from_block to_block l t h :
  harvest index_page_unguarded fuel c from_block to_block = Returned (l, t) ->
  t !! h = last (filter (filed_under h) (seen fuel c from_block to_block)).
Proof.
  intros H. apply harvest_returned in H as [n H].
  apply harvest_loop_returned in H as (_ & _ & H).
  rewrite index_pages_unguarded in H.
  rewrite (index_unguarded_lookup _ _ _ h H), lookup_empty. unfold seen.
  by destruct (last _).
Qed.

Lemma harvest_logs index fuel c from_block to_block l t :
  harvest index fuel c from_block to_block = Returned (l, t) ->
  l = concat (map logs (fetched fuel c to_block 0 from_block)).
Proof.
  intros H. apply harvest_returned in H as [n H].
  by apply harvest_loop_returned in H as (_ & -> & _).
Qed.

Lemma index_page_total m txs : exists m', index_page m txs = Ok m'.
Proof. unfold index_page. eauto. Qed.

Lemma guarded_never_no_progress fuel c from_block to_block :
  harvest index_page fuel c from_block to_block <> Failed NoProgress.
Proof.
  unfold harvest. intros H.
  destruct (harvest_loop index_page fuel c to_block 0 from_block [] ∅)
    as [r|e|] eqn:Hl; simpl in H; try discriminate.
  inversion H; subst.
  apply harvest_loop_failed in Hl as [Hl | (m & txs & Hl)]; discriminate.
Qed.

Lemma guarded_stuck_runs fuel c lo from_block to_block :
  stuck c lo from_block to_block -> lo <= from_block ->
  harvest index_page fuel c from_block to_block = Running.
Proof.
  intros Hs Hlo. unfold harvest.
  rewrite (harvest_loop_stuck index_page index_page_total c lo from_block
             to_block Hs); [done | lia].
Qed.

End IndexFacts.

(** ** Facts about the loop of [extract_all_flashloans.py] *)

Section ProgressLoopFacts.
Import Py Hypersync Harvest Props ExtractAll.

Lemma float_limit_large : 2 ^ 256 <= float_limit.
Proof. unfold float_limit. vm_compute. discriminate. Qed.

(** The progress line raises nothing but [OverflowError], and that only
    when the quotient is beyond the range of floats. *)
Lemma progress_raise start to_block res e :
  progress start to_block res = Raise e ->
  e = OverflowError /\
  start < or_int to_block (archive_height res) /\
  float_limit * (or_int to_block (archive_height res) - start)
    <= Z.abs (next_block res - start).
Proof.
  unfold progress, truediv_int.
  destruct (Z.ltb_spec start (or_int to_block (archive_height res)))
    as [Hlt|_]; [|discriminate].
  destruct (Z.eqb_spec (or_int to_block (archive_height res) - start) 0)
    as [|_]; [lia|].
  destruct (Z.leb_spec
              (float_limit
               * Z.abs (or_int to_block (archive_height res) - start))
              (Z.abs (next_block res - start))) as [Hle|_];
    [|discriminate].
  intros [= <-]. split; [done|]. split; [done|].
  by rewrite Z.abs_eq in Hle by lia.
Qed.

Lemma progress_near start to_block res :
  Z.abs (next_block res - start) < float_limit ->
  exists pct, progress start to_block res = Ok pct.
Proof.
  intros Hn. destruct (progress start to_block res) as [pct|e] eqn:Hp;
    [eauto|].
  apply progress_raise in Hp as (_ & Hlt & Hle).
  pose proof float_limit_large as HL.
  assert (0 < 2 ^ 256) by (by apply Z.pow_pos_nonneg). nia.
Qed.

(** A run of the loop that returns is a run of the loop without the
    progress line, with the same result. *)
Lemma query_loop_harvest fuel c start to_block :
  forall calls from_block all_logs all_txs r,
  query_loop fuel c start to_block calls from_block all_logs all_txs
    = Returned r ->
  harvest_loop index_page fuel c to_block calls from_block all_logs all_txs
    = Returned r.
Proof.
  induction fuel as [|fuel IH]; intros calls q all_logs all_txs r;
    cbn [query_loop harvest_loop]; [done|].
  destruct (c calls q to_block) as [res|]; [|done].
  unfold index_page.
  destruct (progress start to_block res) as [pct|e]; [|discriminate].
  destruct (or_int to_block (archive_height res) <=? next_block res);
    [done | apply IH].
Qed.

Lemma query_flashloans_harvest fuel c from_block to_block l t :
  query_flashloans fuel c from_block to_block = Returned (l, t) ->
  harvest index_page fuel c from_block to_block = Returned (l, t).
Proof.
  unfold query_flashloans, harvest.
  destruct (query_loop fuel c from_block to_block 0 from_block [] ∅)
    as [r| |] eqn:Hq; [|discriminate..].
  by rewrite (query_loop_harvest _ _ _ _ _ _ _ _ _ Hq).
Qed.


(** The exceptions that leave the loop are the service's and the
    [OverflowError] of the progress line. *)
Lemma query_loop_failed fuel c start to_block :
  forall calls from_block all_logs all_txs e,
  query_loop fuel c start to_block calls from_block all_logs all_txs
    = Failed e ->
  e = ServiceUnavailable \/ e = OverflowError.
Proof.
  induction fuel as [|fuel IH]; intros calls q all_logs all_txs e;
    cbn [query_loop]; [done|].
  destruct (c calls q to_block) as [res|]; [|intros [= <-]; by left].
  unfold index_page.
  destruct (progress start to_block res) as [pct|e'] eqn:Hp.
  - destruct (or_int to_block (archive_height res) <=? next_block res);
      [done | apply IH].
  - intros [= <-]. right. by apply progress_raise in Hp as [-> _].
Qed.

Lemma query_flashloans_failed fuel c from_block to_block e :
  query_flashloans fuel c from_block to_block = Failed e ->
  e = ServiceUnavailable \/ e = OverflowError.
Proof.
  unfold query_flashloans.
  destruct (query_loop fuel c from_block to_block 0 from_block [] ∅)
    as [r|e'|] eqn:Hq; [discriminate| |discriminate].
  intros [= <-]. by apply query_loop_failed in Hq.
Qed.

Lemma query_loop_stuck c lo start to_block :
  stuck c lo start to_block -> start - lo < float_limit ->
  forall fuel calls q all_logs all_txs, lo <= q <= start ->
  query_loop fuel c start to_block calls q all_logs all_txs = Running.
Proof.
  intros Hs Hlo. induction fuel as [|fuel IH];
    intros calls q all_logs all_txs Hq; cbn [query_loop]; [done|].
  destruct (Hs calls q Hq) as (res & -> & Hle & Hlt).
  unfold index_page.
  destruct (progress_near start to_block res) as [pct ->]; [lia|].
  replace (or_int to_block (archive_height res) <=? next_block res)
    with false by (symmetry; apply Z.leb_gt; exact Hlt).
  apply IH. lia.
Qed.


End ProgressLoopFacts.

(** ** The claims about the harvest loop *)

Section HarvestClaims.
Import Py Hypersync Harvest Props Samples.

(** C1 (as amended).  The loop has no guard against a cursor that does
    not move: no run of it ever fails with [NoProgress], in
    [extract_all_flashloans.py] as in [query_all_flashloans.py].  Against
    a service whose answers, for the blocks between [lo] and
    [from_block], never take the cursor forward while the target is not
    reached, the loop of [query_all_flashloans.py] neither returns nor
    raises, however many iterations it is given; the loop of
    [extract_all_flashloans.py] never returns, and it raises nothing
    either as long as the distance from [lo] to [from_block] is within
    the range of floats, so that its progress figure can be computed. *)
Theorem C1_stuck_cursor_never_raises (c : client) (lo from_block : Z)
    (to_block : option Z) :
  (forall fuel,
     (ExtractAll.query_flashloans fuel c from_block to_block
        <> Failed NoProgress) /\
     (QueryAll.query_flashloans fuel c from_block to_block
        <> Failed NoProgress)) /\
  (stuck c lo from_block to_block -> lo <= from_block ->
   forall fuel,
     (QueryAll.query_flashloans fuel c from_block to_block = Running) /\
     (forall l t,
        ExtractAll.query_flashloans fuel c from_block to_block
          <> Returned (l, t)) /\
     (from_block - lo < float_limit ->
      ExtractAll.query_flashloans fuel c from_block to_block = Running)).
Proof.
  split.
  - intros fuel. split; [|apply guarded_never_no_progress].
    intros H. by apply query_flashloans_failed in H as [H|H].
  - intros Hs Hlo fuel. split; [|split].
    + by apply (guarded_stuck_runs fuel c lo).
    + intros l t H. apply query_flashloans_harvest in H.
      by rewrite (guarded_stuck_runs fuel c lo) in H.
    + intros Hd. unfold ExtractAll.query_flashloans.
      rewrite (query_loop_stuck c lo from_block to_block Hs Hd); [done | lia].
Qed.

Lemma stuck_client_is_stuck : stuck stuck_client 0 100 (Some 200).
Proof.
  intros n q Hq. eexists. split; [reflexivity|]. simpl. lia.
Qed.

Lemma C1_stuck_cursor_witness :
  stuck stuck_client 0 100 (Some 200) /\
  forall fuel,
    (QueryAll.query_flashloans fuel stuck_client 100 (Some 200) = Running) /\
    (ExtractAll.query_flashloans fuel stuck_client 100 (Some 200)
       = Running).
Proof.
  split.
  - exact stuck_client_is_stuck.
  - intros fuel.
    destruct (C1_stuck_cursor_never_raises stuck_client 0 100 (Some 200))
      as [_ H].
    destruct (H stuck_client_is_stuck ltac:(lia) fuel) as (Hq & _ & He).
    split; [exact Hq|]. apply He.
    pose proof float_limit_large as HL.
    assert (100 < 2 ^ 256) by (vm_compute; reflexivity). lia.
Defined.

(** C1, the claim as written, fails: the service answers the request
    from block 100 with next block 100, twice and ever after, the target
    200 is not reached, and no run of the loop fails with [NoProgress]:
    after two requests, as after any number of them, the loop is still
    asking. *)
Lemma C1_counterexample :
  (ExtractAll.query_flashloans 2 stuck_client 100 (Some 200) = Running) /\
  ~ (exists fuel,
       ExtractAll.query_flashloans fuel stuck_client 100 (Some 200)
         = Failed NoProgress).
Proof.
  split; [vm_compute; reflexivity|].
  intros [fuel H]. by apply query_flashloans_failed in H as [H|H].
Qed.





(** C2 (as amended).  The transaction index keeps the record seen last:
    after a harvest that returns, the entry under a key is the last of
    all records of all pages, in arrival order, that the loop files
    under that key.  The two scripts that test the hash file a record
    under its hash when the hash is present and true; the stablecoin
    script files every record under its hash.  A later record so
    replaces an earlier one with the same hash. *)
Theorem C2_last_record_wins (fuel : nat) (c : client) (from_block : Z)
    (to_block : option Z) :
  (forall l t,
     ExtractAll.query_flashloans fuel c from_block to_block = Returned (l, t) ->
     forall h,
       t !! h = last (filter (keyed_by h) (seen fuel c from_block to_block)))
  /\
  (forall l t,
     QueryAll.query_flashloans fuel c from_block to_block = Returned (l, t) ->
     forall h,
       t !! h = last (filter (keyed_by h) (seen fuel c from_block to_block)))
  /\
  (forall l t,
     QueryBalancer.query_flashloans fuel c from_block to_block
       = Returned (l, t) ->
     forall h,
       t !! h
       = last (filter (filed_under h) (seen fuel c from_block to_block))).
Proof.
  repeat split; intros l t H h.
  - apply query_flashloans_harvest in H.
    exact (guarded_harvest_lookup _ _ _ _ _ _ h H).
  - exact (guarded_harvest_lookup _ _ _ _ _ _ h H).
  - exact (unguarded_harvest_lookup _ _ _ _ _ _ h H).
Qed.

Lemma C2_last_record_witness :
  (ExtractAll.query_flashloans 1 dup_client 0 (Some 5)
     = Returned ([], {[ PyStr "0xaa" := tx_late ]})) /\
  (forall h,
     ({[ PyStr "0xaa" := tx_late ]} : gmap pyval Transaction) !! h
     = last (filter (keyed_by h) (seen 1 dup_client 0 (Some 5)))).
Proof.
  split.
  - reflexivity.
  - apply (C2_last_record_wins 1 dup_client 0 (Some 5)) with (l := []).
    reflexivity.
Defined.

(** C2, the claim as written, fails: one page carries two records with
    the hash 0xaa, and the index holds the second, not the first. *)
Lemma C2_counterexample :
  exists l t,
    (ExtractAll.query_flashloans 1 dup_client 0 (Some 5) = Returned (l, t)) /\
    (seen 1 dup_client 0 (Some 5) = [tx_early; tx_late]) /\
    (t !! PyStr "0xaa" = Some tx_late) /\
    tx_late <> tx_early.
Proof.
  eexists _, _. split; [reflexivity|]. split; [reflexivity|].
  split; [reflexivity | discriminate].
Qed.
End HarvestClaims.

(** ** Facts about [int(s, 16)] *)

Section IntFacts.
Import Py Props.

Lemma bind_Ok {A B} (f : A -> result B) (m : result A) (b : B) :
  m ≫= f = Ok b <-> exists a, m = Ok a /\ f a = Ok b.
Proof.
  destruct m as [a|e]; simpl; split.
  - intros H. exists a. auto.
  - intros (a' & Ha & Hf). inversion Ha. subst. exact Hf.
  - discriminate.
  - intros (a' & Ha & _). discriminate.
Qed.

Lemma chars_str cs : chars (str cs) = cs.
Proof. apply list_ascii_of_string_of_list_ascii. Qed.

Lemma str_chars s : str (chars s) = s.
Proof. apply string_of_list_ascii_of_string. Qed.

Lemma length_chars s : length (chars s) = String.length s.
Proof. induction s as [|c s IH]; simpl; [done | by rewrite IH]. Qed.

Lemma hex_digit_range c d : hex_digit c = Some d -> 0 <= d < 16.
Proof.
  unfold hex_digit. set (n := Z.of_N (N_of_ascii c)).
  destruct (Z.leb_spec 48 n), (Z.leb_spec n 57); simpl;
    try (intros [= <-]; lia);
    destruct (Z.leb_spec 97 n), (Z.leb_spec n 102); simpl;
    try (intros [= <-]; lia);
    destruct (Z.leb_spec 65 n), (Z.leb_spec n 70); simpl;
    try (intros [= <-]; lia); discriminate.
Qed.

(** A hexadecimal digit is no white space, no sign, no underscore and
    not the letter of the prefix. *)
Lemma is_hex_plain c :
  is_hex c = true ->
  is_space c = false /\ Ascii.eqb c "-" = false /\ Ascii.eqb c "+" = false /\
  Ascii.eqb c "_" = false /\ Ascii.eqb c "x" = false /\
  Ascii.eqb c "X" = false.
Proof.
  destruct c as [[] [] [] [] [] [] [] []]; intros H;
    solve [discriminate H | repeat split].
Qed.

Lemma is_hex_digit c : is_hex c = true -> exists d, hex_digit c = Some d.
Proof. unfold is_hex. destruct (hex_digit c); [eauto | discriminate]. Qed.

Lemma hex_digits_all cs : forall acc,
  forallb is_hex cs = true -> hex_digits acc cs = Ok (hex_value acc cs).
Proof.
  induction cs as [|c cs IH]; intros acc H; simpl; [done|].
  simpl in H. apply andb_true_iff in H as [Hc Hcs].
  destruct (is_hex_digit c Hc) as [d ->]. simpl. by apply IH.
Qed.

Lemma hex_literal_digits c cs :
  forallb is_hex (c :: cs) = true ->
  hex_literal (c :: cs) = Ok (hex_value 0 (c :: cs)).
Proof.
  intros H. pose proof H as H'. simpl in H'.
  apply andb_true_iff in H' as [Hc Hcs].
  assert (Hbody :
    match c :: cs with
    | z :: x :: rest =>
      if Ascii.eqb z "0" && (Ascii.eqb x "x" || Ascii.eqb x "X") then
        match rest with
        | u :: rest' => if Ascii.eqb u "_" then rest' else rest
        | [] => rest
        end
      else c :: cs
    | _ => c :: cs
    end = c :: cs).
  { destruct cs as [|x rest]; [done|].
    simpl in Hcs. apply andb_true_iff in Hcs as [Hx _].
    destruct (is_hex_plain x Hx) as (_ & _ & _ & _ & -> & ->).
    by rewrite andb_false_r. }
  unfold hex_literal. rewrite Hbody.
  destruct (is_hex_digit c Hc) as [d Hd]. simpl. rewrite Hd. simpl.
  by apply hex_digits_all.
Qed.

Lemma int16_digits c cs :
  forallb is_hex (c :: cs) = true ->
  int16 (str (c :: cs)) = Ok (hex_value 0 (c :: cs)).
Proof.
  intros H. unfold int16. rewrite chars_str.
  pose proof H as H'. simpl in H'. apply andb_true_iff in H' as [Hc _].
  destruct (is_hex_plain c Hc) as (Hs & Hm & Hp & _).
  simpl. rewrite Hs, Hm, Hp. by apply hex_literal_digits.
Qed.

Lemma int16_prefixed c cs :
  forallb is_hex (c :: cs) = true ->
  int16 (str ("0" :: "x" :: c :: cs)%char) = Ok (hex_value 0 (c :: cs)).
Proof.
  intros H. unfold int16. rewrite chars_str.
  pose proof H as H'. simpl in H'. apply andb_true_iff in H' as [Hc Hcs].
  destruct (is_hex_plain c Hc) as (_ & _ & _ & Hu & _).
  destruct (is_hex_digit c Hc) as [d Hd].
  change (hex_literal ("0" :: "x" :: c :: cs)%char
          = Ok (hex_value 0 (c :: cs))).
  change (match (if Ascii.eqb c "_" then cs else c :: cs) with
          | c0 :: cs' =>
            match hex_digit c0 with
            | Some d => hex_digits d cs'
            | None => Raise ValueError
            end
          | [] => Raise ValueError
          end = Ok (hex_value 0 (c :: cs))).
  rewrite Hu, Hd. rewrite hex_digits_all by exact Hcs.
  simpl. by rewrite Hd.
Qed.

Lemma hex_value_bound cs : forall acc,
  0 <= acc -> forallb is_hex cs = true ->
  0 <= hex_value acc cs < (acc + 1) * 16 ^ Z.of_nat (length cs).
Proof.
  induction cs as [|c cs IH]; intros acc Hacc H.
  - simpl. lia.
  - simpl in H. apply andb_true_iff in H as [Hc Hcs].
    destruct (is_hex_digit c Hc) as [d Hd].
    pose proof (hex_digit_range c d Hd) as Hr.
    cbn [hex_value length]. rewrite Hd. simpl default.
    destruct (IH (16 * acc + d) ltac:(lia) Hcs) as [H0 H1].
    split; [exact H0|].
    rewrite Nat2Z.inj_succ, Z.pow_succ_r by lia.
    assert (0 < 16 ^ Z.of_nat (length cs)) by (apply Z.pow_pos_nonneg; lia).
    nia.
Qed.

Lemma hex_value_word cs :
  (length cs <= 64)%nat -> forallb is_hex cs = true ->
  0 <= hex_value 0 cs < 2 ^ 256.
Proof.
  intros Hl H. destruct (hex_value_bound cs 0 ltac:(lia) H) as [H0 H1].
  split; [exact H0|].
  eapply Z.lt_le_trans; [exact H1|].
  rewrite Z.mul_1_l. change (2 ^ 256) with (16 ^ 64).
  apply Z.pow_le_mono_r; lia.
Qed.

End IntFacts.

(** ** Facts about [decode_flashloan_log] *)

Section DecodeFacts.
Import Py Hypersync Harvest Props ExtractAll.

Lemma forallb_take {A} (f : A -> bool) n (l : list A) :
  forallb f l = true -> forallb f (take n l) = true.
Proof.
  revert n. induction l as [|x l IH]; intros [|n] H; simpl; try done.
  simpl in H. apply andb_true_iff in H as [-> H]. simpl. by apply IH.
Qed.

Lemma forallb_drop {A} (f : A -> bool) n (l : list A) :
  forallb f l = true -> forallb f (drop n l) = true.
Proof.
  revert n. induction l as [|x l IH]; intros [|n] H; simpl; try done.
  simpl in H. apply andb_true_iff in H as [_ H]. by apply IH.
Qed.

Lemma len_str cs : len (str cs) = Z.of_nat (length cs).
Proof. unfold len. by rewrite <- length_chars, chars_str. Qed.

Lemma slice_str a b cs : slice a b (str cs) = str (take (b - a) (drop a cs)).
Proof. unfold slice. by rewrite chars_str. Qed.

(** [int] of a slice of exactly 64 hexadecimal digits. *)
Lemma int16_word ds :
  length ds = 64%nat -> forallb is_hex ds = true ->
  int16 (str ds) = Ok (hex_value 0 ds).
Proof.
  intros Hl H. destruct ds as [|c cs]; [discriminate|]. by apply int16_digits.
Qed.

Lemma decode_amounts_digits body :
  forallb is_hex body = true ->
  decode_amounts (Some (str ("0" :: "x" :: body)%char))
  = Ok (hex_word 0 body, hex_word 1 body).
Proof.
  intros H. unfold decode_amounts, hex_word.
  rewrite len_str, !slice_str.
  change (present (Some (str ("0" :: "x" :: body)%char))) with true.
  cbn [length drop andb Nat.mul Nat.add]. simpl (66 - 2)%nat.
  simpl (130 - 66)%nat.
  change (drop 66 ("0" :: "x" :: body)%char) with (drop 64 body).
  rewrite drop_0.
  destruct (Z.leb_spec 66 (Z.of_nat (S (S (length body))))) as [H1|H1].
  - rewrite (leb_correct 64 (length body)) by lia.
    rewrite (int16_word (take 64 body));
      [| rewrite length_take; lia | by apply forallb_take].
    cbn [mbind result_bind].
    destruct (Z.leb_spec 130 (Z.of_nat (S (S (length body))))) as [H2|H2].
    + rewrite (leb_correct 128 (length body)) by lia.
      rewrite (int16_word (take 64 (drop 64 body)));
        [done | rewrite length_take, length_drop; lia
        | by apply forallb_take, forallb_drop].
    + rewrite (leb_correct_conv (length body) 128) by lia. done.
  - rewrite (leb_correct_conv (length body) 64) by lia.
    rewrite (leb_correct_conv (length body) 128) by lia. done.
Qed.

Lemma chars_nil s : chars s = [] -> s = ""%string.
Proof. intros H. by rewrite <- (str_chars s), H. Qed.

Lemma decode_amounts_hex data :
  hex_data data = true ->
  decode_amounts data
  = Ok (hex_word 0 (data_digits data), hex_word 1 (data_digits data)).
Proof.
  destruct data as [d|]; [|done]. unfold hex_data, data_digits.
  destruct (chars d) as [|z [|x body]] eqn:Hd; [| discriminate |].
  - intros _. by rewrite (chars_nil d Hd).
  - intros H. apply andb_true_iff in H as [H Hb].
    apply andb_true_iff in H as [Hz Hx].
    apply Ascii.eqb_eq in Hz, Hx. subst z x.
    rewrite <- (str_chars d), Hd. by apply decode_amounts_digits.
Qed.

Lemma hex_word_range i ds :
  forallb is_hex ds = true -> 0 <= hex_word i ds < 2 ^ 256.
Proof.
  intros H. unfold hex_word.
  destruct (64 * (i + 1) <=? length ds)%nat.
  - apply hex_value_word; [rewrite length_take; lia|].
    by apply forallb_take, forallb_drop.
  - split; [lia|]. apply Z.pow_pos_nonneg; lia.
Qed.

Lemma hex_data_digits data :
  hex_data data = true -> forallb is_hex (data_digits data) = true.
Proof.
  destruct data as [d|]; [|done]. unfold hex_data, data_digits.
  destruct (chars d) as [|z [|x body]]; [done | discriminate |].
  intros H. by apply andb_true_iff in H as [_ H].
Qed.

End DecodeFacts.

Section DecodeTotal.
Import Py Hypersync Harvest Props ExtractAll.

Lemma truthy_str s : chars s <> [] -> truthy (PyStr s) = true.
Proof. destruct s; [done|]. reflexivity. Qed.

(** A field that stands for a quantity is normalised to that quantity. *)
Lemma gas_field_quantity a n :
  quantity a = Some n -> gas_field a = Ok n /\ 0 <= n < 2 ^ 256.
Proof.
  assert (Hz : 0 <= 0 < 2 ^ 256) by (split; [lia | by apply Z.pow_pos_nonneg]).
  destruct a as [[|s|z]|]; unfold quantity, gas_field.
  - by intros [= <-].
  - destruct (chars s) as [|c cs] eqn:Hs.
    + intros [= <-]. by rewrite (chars_nil s Hs).
    + cbv zeta. set (ds := strip_0x (c :: cs)).
      destruct (_ && _) eqn:Hw; [|discriminate]. intros [= <-].
      apply andb_true_iff in Hw as [Hw Hh].
      apply andb_true_iff in Hw as [H1 H64].
      apply Nat.leb_le in H1, H64.
      rewrite truthy_str by congruence.
      split; [| by apply hex_value_word].
      rewrite <- (str_chars s), Hs.
      subst ds. unfold strip_0x in *.
      destruct cs as [|x rest].
      * by apply int16_digits.
      * destruct (Ascii.eqb c "0" && Ascii.eqb x "x") eqn:Hp.
        -- apply andb_true_iff in Hp as [Hc Hx].
           apply Ascii.eqb_eq in Hc, Hx. subst c x.
           destruct rest as [|r rest]; [simpl in H1; lia|].
           by apply int16_prefixed.
        -- by apply int16_digits.
  - destruct (Z.leb_spec 0 z), (Z.ltb_spec z (2 ^ 256));
      cbn [andb]; try discriminate.
    intros [= <-]. split; [|done]. unfold truthy.
    destruct (Z.eqb_spec z 0) as [->|]; done.
  - by intros [= <-].
Qed.

Lemma decode_gas_ok tx :
  gas_ok tx = true ->
  decode_gas tx
    = Ok (gas_of tx Hypersync.gas_used, gas_of tx Hypersync.gas_price) /\
  0 <= gas_of tx Hypersync.gas_used < 2 ^ 256 /\
  0 <= gas_of tx Hypersync.gas_price < 2 ^ 256.
Proof.
  assert (Hz : 0 <= 0 < 2 ^ 256) by (split; [lia | by apply Z.pow_pos_nonneg]).
  destruct tx as [tx|]; simpl; [|done].
  intros H. apply andb_true_iff in H as [Hu Hp].
  apply bool_decide_eq_true in Hu as [u Hu], Hp as [p Hp].
  destruct (gas_field_quantity _ _ Hu) as [-> Hur].
  destruct (gas_field_quantity _ _ Hp) as [-> Hpr].
  by rewrite Hu, Hp.
Qed.

Lemma gwei_ok n :
  0 <= n < 2 ^ 256 ->
  gwei n = Ok (if n =? 0 then NInt 0 else NFloat (gwei_float n)).
Proof.
  intros Hn. unfold gwei, float_of_int.
  destruct (Z.eqb_spec n 0); [done|].
  pose proof float_limit_large as HL.
  destruct (Z.leb_spec float_limit (Z.abs n)); [lia|]. reflexivity.
Qed.

Lemma dict_get_In {V} (d : list (string * V)) k v :
  dict_get d k = Some v -> In v (map snd d).
Proof.
  destruct k as [k|]; [|by destruct d].
  induction d as [|[k' v'] d IH]; simpl; [done|].
  destruct (String.eqb k' k); [intros [= ->]; by left | right; by apply IH].
Qed.

Lemma token_of_decimals t : In (snd (token_of t)) [6; 8; 18].
Proof.
  unfold token_of. destruct (dict_get KNOWN_TOKENS t) as [info|] eqn:H.
  - apply dict_get_In in H. simpl in H.
    repeat (destruct H as [<-|H]; [simpl; tauto|]). done.
  - simpl. tauto.
Qed.

Lemma scaled_ok a decimals :
  0 <= a < 2 ^ 256 -> In decimals [6; 8; 18] ->
  truediv_int a (10 ^ decimals) = Ok (scaled a decimals).
Proof.
  intros Ha Hd. unfold truediv_int, scaled.
  pose proof float_limit_large as HL.
  assert (Hp : 1 <= 10 ^ decimals).
  { simpl in Hd. destruct Hd as [<-|[<-|[<-|[]]]]; vm_compute; discriminate. }
  destruct (Z.eqb_spec (10 ^ decimals) 0); [lia|].
  destruct (Z.leb_spec (float_limit * Z.abs (10 ^ decimals)) (Z.abs a));
    [nia | done].
Qed.

(** The whole result of decoding a well-formed log. *)
Lemma decode_ok log txs :
  hex_data (data log) = true ->
  gas_ok (txs !! transaction_hash log) = true ->
  let tx := txs !! transaction_hash log in
  let ds := data_digits (data log) in
  let info := token_of (topic log 2) in
  decode_flashloan_log log txs
  = Ok {| tx_hash := transaction_hash log;
          block := block_number log;
          token := fst info;
          token_address := address_of (topic log 2);
          amount_raw := hex_word 0 ds;
          amount := scaled (hex_word 0 ds) (snd info);
          decimals := snd info;
          fee_raw := hex_word 1 ds;
          gas_used := gas_of tx Hypersync.gas_used;
          gas_price_gwei :=
            (if gas_of tx Hypersync.gas_price =? 0 then NInt 0
             else NFloat (gwei_float (gas_of tx Hypersync.gas_price)));
          recipient := address_of (topic log 1) |}.
Proof.
  intros Hd Hg tx ds info. unfold decode_flashloan_log.
  fold info. pose proof (token_of_decimals (topic log 2)) as Hdec.
  fold info in Hdec. destruct info as [name dec]. simpl in Hdec.
  rewrite (decode_amounts_hex _ Hd). fold ds. cbn [mbind result_bind].
  pose proof (hex_word_range 0 ds (hex_data_digits _ Hd)) as Hr.
  rewrite (scaled_ok _ _ Hr Hdec). cbn [mbind result_bind].
  destruct (decode_gas_ok tx Hg) as (Hgas & Hu & Hp).
  fold tx. rewrite Hgas. cbn [mbind result_bind].
  rewrite (gwei_ok _ Hp). reflexivity.
Qed.

End DecodeTotal.

(** ** Hexadecimal digits and the bytes they encode *)

Section ByteFacts.
Import Py Props.

Lemma bytes_of_hex_nil cs : bytes_of_hex cs = Some [] -> cs = [].
Proof.
  destruct cs as [|h [|l cs]]; simpl; [done | discriminate |].
  destruct (hex_digit h), (hex_digit l), (bytes_of_hex cs); try discriminate.
  destruct (Byte.of_N _); discriminate.
Qed.

Lemma bytes_of_hex_cons cs x bs :
  bytes_of_hex cs = Some (x :: bs) ->
  exists h l cs' a b,
    cs = h :: l :: cs' /\ hex_digit h = Some a /\ hex_digit l = Some b /\
    Z.of_N (Byte.to_N x) = 16 * a + b /\ bytes_of_hex cs' = Some bs.
Proof.
  destruct cs as [|h [|l cs]]; simpl; [discriminate | discriminate |].
  destruct (hex_digit h) as [a|] eqn:Ha; [|discriminate].
  destruct (hex_digit l) as [b|] eqn:Hb; [|discriminate].
  destruct (bytes_of_hex cs) as [bs'|] eqn:Hbs; [|discriminate].
  destruct (Byte.of_N _) as [y|] eqn:Hy; [|discriminate].
  intros [= -> ->]. exists h, l, cs, a, b.
  apply Byte.to_of_N in Hy. rewrite Hy.
  pose proof (hex_digit_range h a Ha). pose proof (hex_digit_range l b Hb).
  split; [done|]. split; [done|]. split; [done|]. split; [|done].
  apply Z2N.id. lia.
Qed.


Lemma bytes_of_hex_is_hex bs : forall cs,
  bytes_of_hex cs = Some bs -> forallb is_hex cs = true.
Proof.
  induction bs as [|x bs IH]; intros cs H.
  - by rewrite (bytes_of_hex_nil cs H).
  - apply bytes_of_hex_cons in H
      as (h & l & cs' & a & b & -> & Ha & Hb & _ & H).
    simpl. unfold is_hex at 1 2. rewrite Ha, Hb. simpl. by apply IH.
Qed.









End ByteFacts.

(** ** Facts about binary64 rounding *)

Section FloatFacts.
Import Py Props.

Lemma digits2_pos_bounds p :
  2 ^ (Zpos (digits2_pos p) - 1) <= Zpos p < 2 ^ Zpos (digits2_pos p).
Proof.
  induction p as [p IH|p IH|]; cbn [digits2_pos].
  - rewrite Pos2Z.inj_succ, Pos2Z.inj_xI.
    replace (Z.succ (Zpos (digits2_pos p)) - 1)
      with (Z.succ (Zpos (digits2_pos p) - 1)) by lia.
    rewrite !Z.pow_succ_r by lia. lia.
  - rewrite Pos2Z.inj_succ, (Pos2Z.inj_xO p).
    replace (Z.succ (Zpos (digits2_pos p)) - 1)
      with (Z.succ (Zpos (digits2_pos p) - 1)) by lia.
    rewrite !Z.pow_succ_r by lia. lia.
  - simpl. lia.
Qed.

Lemma digits2_pos_small p : Zpos p < 2 ^ 53 -> Zpos (digits2_pos p) <= 53.
Proof.
  intros H. destruct (digits2_pos_bounds p) as [Hl _].
  destruct (Z.le_gt_cases (Zpos (digits2_pos p)) 53) as [|Hgt]; [done|].
  assert (2 ^ 53 <= 2 ^ (Zpos (digits2_pos p) - 1))
    by (apply Z.pow_le_mono_r; lia).
  lia.
Qed.

Lemma digits2_pos_shift p k :
  digits2_pos (Pos.iter xO p k) = (digits2_pos p + k)%positive.
Proof.
  apply (Pos.iter_ind _ xO p
           (fun k q => digits2_pos q = (digits2_pos p + k)%positive)).
  - cbn [digits2_pos]. lia.
  - intros k' q Hq. cbn [digits2_pos]. rewrite Hq. lia.
Qed.

Lemma Zpos_shift p k : Zpos (Pos.iter xO p k) = Zpos p * 2 ^ Zpos k.
Proof.
  apply (Pos.iter_ind _ xO p (fun k q => Zpos q = Zpos p * 2 ^ Zpos k)).
  - rewrite (Pos2Z.inj_xO p). change (2 ^ 1) with 2. lia.
  - intros k' q Hq. rewrite (Pos2Z.inj_xO q), Hq, Pos2Z.inj_succ.
    rewrite Z.pow_succ_r by lia. lia.
Qed.

(** A mantissa of 53 digits with an exponent in range is kept as it is. *)
Lemma binary_round_aux_canonical s m e :
  Zpos (digits2_pos m) = 53 -> -1074 <= e <= 971 ->
  binary_round_aux 53 1024 s (Zpos m) e loc_Exact = S754_finite s m e.
Proof.
  intros Hd He.
  assert (Hn : fexp 53 1024 (Zdigits2 (Zpos m) + e) - e = 0).
  { unfold fexp, emin. cbn [Zdigits2]. rewrite Hd. lia. }
  unfold binary_round_aux, shr_fexp. rewrite Hn.
  cbn [shr shr_record_of_loc loc_of_shr_record shr_m round_nearest_even].
  rewrite Hn. cbn [shr shr_record_of_loc shr_m].
  destruct (Z.leb_spec e (1024 - 53)); [done | lia].
Qed.

(** The float of a positive integer below [2^53] is that integer,
    written with a mantissa of 53 digits. *)
Lemma float_of_Z_small p :
  Zpos p < 2 ^ 53 ->
  exists m e, float_of_Z (Zpos p) = S754_finite false m e /\
              Zpos (digits2_pos m) = 53 /\ -52 <= e <= 0 /\
              Zpos m = Zpos p * 2 ^ (- e).
Proof.
  intros Hp. pose proof (digits2_pos_small p Hp) as Hd.
  unfold float_of_Z, binary_normalize, binary_round.
  assert (Hf : fexp 53 1024 (Zpos (digits2_pos p) + 0)
               = Zpos (digits2_pos p) - 53).
  { unfold fexp, emin. lia. }
  rewrite Hf. unfold shl_align.
  destruct (Zpos (digits2_pos p) - 53 - 0) as [|k|k] eqn:Hk; [| lia |].
  - exists p, 0. rewrite binary_round_aux_canonical by lia.
    repeat split; lia.
  - exists (Pos.iter xO p k), (Zpos (digits2_pos p) - 53).
    rewrite binary_round_aux_canonical;
      [| rewrite digits2_pos_shift; lia | lia].
    split; [done|]. split; [rewrite digits2_pos_shift; lia|].
    split; [lia|]. rewrite Zpos_shift. f_equal. f_equal. lia.
Qed.

Lemma float_of_int_small z :
  0 < z < 2 ^ 53 ->
  float_of_int z = Ok (float_of_Z z) /\
  exists m e, float_of_Z z = S754_finite false m e.
Proof.
  intros Hz. destruct z as [|p|p]; try lia.
  destruct (float_of_Z_small p) as (m & e & Hm & _); [lia|].
  split; [|by exists m, e]. unfold float_of_int.
  pose proof float_limit_large as HL.
  assert (2 ^ 53 <= 2 ^ 256) by (apply Z.pow_le_mono_r; lia).
  destruct (Z.leb_spec float_limit (Z.abs (Zpos p))); [lia | done].
Qed.

Lemma digits2_pos_unique x d :
  2 ^ (d - 1) <= Zpos x < 2 ^ d -> Zpos (digits2_pos x) = d.
Proof.
  intros [Hl Hu]. destruct (digits2_pos_bounds x) as [Hl' Hu'].
  assert (0 < d).
  { destruct (Z.lt_ge_cases 0 d) as [|Hd]; [done|].
    assert (2 ^ d <= 2 ^ 0) by (apply Z.pow_le_mono_r; lia).
    change (2 ^ 0) with 1 in *. lia. }
  assert (Zpos (digits2_pos x) - 1 < d).
  { apply (Z.pow_lt_mono_r_iff 2); lia. }
  assert (d - 1 < Zpos (digits2_pos x)).
  { apply (Z.pow_lt_mono_r_iff 2); lia. }
  lia.
Qed.

Lemma iter_pos_eq {A} (f : A -> A) n : forall x, SpecFloat.iter_pos f n x = Pos.iter f x n.
Proof.
  induction n as [n IH|n IH|]; intros x; simpl.
  - by rewrite !IH, !Pos.iter_swap.
  - by rewrite !IH.
  - done.
Qed.

Lemma iter_shr_exact k : forall T,
  Pos.iter shr_1 (Build_shr_record (Zpos (Pos.iter xO T k)) false false) k
  = Build_shr_record (Zpos T) false false.
Proof.
  induction k as [|k IH] using Pos.peano_ind; intros T; [done|].
  rewrite Pos.iter_succ_r, Pos.iter_succ. cbn [shr_1 orb]. apply IH.
Qed.

(** A mantissa of 53 digits followed by [k] zero bits is rounded to
    itself. *)
Lemma binary_round_aux_shifted s T k e :
  Zpos (digits2_pos T) = 53 -> -1074 <= e + Zpos k <= 971 ->
  binary_round_aux 53 1024 s (Zpos (Pos.iter xO T k)) e loc_Exact
  = S754_finite s T (e + Zpos k).
Proof.
  intros Hd He.
  assert (Hn : fexp 53 1024 (Zdigits2 (Zpos (Pos.iter xO T k)) + e) - e
               = Zpos k).
  { unfold fexp, emin. cbn [Zdigits2]. rewrite digits2_pos_shift.
    rewrite Pos2Z.inj_add, Hd. lia. }
  unfold binary_round_aux, shr_fexp. rewrite Hn.
  cbn [shr shr_record_of_loc]. rewrite iter_pos_eq, iter_shr_exact.
  cbn [loc_of_shr_record shr_m round_nearest_even].
  assert (Hn' : fexp 53 1024 (Zdigits2 (Zpos T) + (e + Zpos k))
                - (e + Zpos k) = 0).
  { unfold fexp, emin. cbn [Zdigits2]. rewrite Hd. lia. }
  rewrite Hn'. cbn [shr shr_record_of_loc shr_m].
  destruct (Z.leb_spec (e + Zpos k) (1024 - 53)); [done | lia].
Qed.

Lemma float_of_Z_exact p :
  Zpos p < 2 ^ 53 ->
  exists T, float_of_Z (Zpos p)
            = S754_finite false T (Zpos (digits2_pos p) - 53) /\
            Zpos (digits2_pos T) = 53 /\
            Zpos T = Zpos p * 2 ^ (53 - Zpos (digits2_pos p)).
Proof.
  intros Hp. pose proof (digits2_pos_small p Hp) as Hd.
  unfold float_of_Z, binary_normalize, binary_round.
  assert (Hf : fexp 53 1024 (Zpos (digits2_pos p) + 0)
               = Zpos (digits2_pos p) - 53).
  { unfold fexp, emin. lia. }
  rewrite Hf. unfold shl_align.
  destruct (Zpos (digits2_pos p) - 53 - 0) as [|k|k] eqn:Hk; [| lia |].
  - exists p. rewrite binary_round_aux_canonical by lia.
    replace (Zpos (digits2_pos p) - 53) with 0 by lia.
    replace (53 - Zpos (digits2_pos p)) with 0 by lia.
    repeat split; lia.
  - exists (Pos.iter xO p k).
    rewrite binary_round_aux_canonical;
      [| rewrite digits2_pos_shift; lia | lia].
    split; [done|]. split; [rewrite digits2_pos_shift; lia|].
    rewrite Zpos_shift. f_equal. f_equal. lia.
Qed.

Lemma pow2_pos n : 0 < 2 ^ n \/ n < 0.
Proof.
  destruct (Z.lt_ge_cases n 0); [by right | left].
  apply Z.pow_pos_nonneg; lia.
Qed.

Lemma div_eucl_exact Q b :
  0 < b -> Z.div_eucl (Q * b) b = (Q, 0).
Proof.
  intros Hb. destruct (Z.div_eucl (Q * b) b) as [q r] eqn:Hd.
  assert (Hq : q = Q * b / b) by (unfold Z.div; by rewrite Hd).
  assert (Hr : r = (Q * b) mod b) by (unfold Z.modulo; by rewrite Hd).
  rewrite Z.div_mul in Hq by lia. rewrite Z.mod_mul in Hr by lia.
  by subst.
Qed.

Lemma new_location_exact b : new_location b 0 = loc_Exact.
Proof.
  unfold new_location, new_location_even, new_location_odd.
  by destruct (Z.even b).
Qed.

(** The magnitude of a quotient that is an integer. *)
Lemma quotient_digits m1 m2 q a1 a2 :
  0 <= a1 -> 0 <= a2 ->
  Zpos m1 * 2 ^ a1 = Zpos q * Zpos m2 * 2 ^ a2 ->
  let D := Zpos (digits2_pos m1) + a1 - (Zpos (digits2_pos m2) + a2) in
  Zpos (digits2_pos q) - 1 <= D <= Zpos (digits2_pos q).
Proof.
  intros Ha1 Ha2 Heq D.
  destruct (digits2_pos_bounds m1) as [L1 U1].
  destruct (digits2_pos_bounds m2) as [L2 U2].
  destruct (digits2_pos_bounds q) as [Lq Uq].
  set (d1 := Zpos (digits2_pos m1)) in *.
  set (d2 := Zpos (digits2_pos m2)) in *.
  set (dq := Zpos (digits2_pos q)) in *.
  assert (Hd1 : 1 <= d1) by (subst d1; lia).
  assert (Hd2 : 1 <= d2) by (subst d2; lia).
  assert (Hdq : 1 <= dq) by (subst dq; lia).
  assert (Hlow : 2 ^ (d1 - 1 + a1) < 2 ^ (dq + d2 + a2)).
  { rewrite !Z.pow_add_r by lia.
    assert (0 < 2 ^ a1) by (apply Z.pow_pos_nonneg; lia).
    assert (0 < 2 ^ a2) by (apply Z.pow_pos_nonneg; lia).
    assert (0 < 2 ^ (d1 - 1)) by (apply Z.pow_pos_nonneg; lia).
    assert (Zpos q * Zpos m2 < 2 ^ dq * 2 ^ d2)
      by (apply Z.mul_lt_mono_nonneg; lia).
    nia. }
  assert (Hup : 2 ^ (dq - 1 + (d2 - 1) + a2) < 2 ^ (d1 + a1)).
  { rewrite !Z.pow_add_r by lia.
    assert (0 < 2 ^ a1) by (apply Z.pow_pos_nonneg; lia).
    assert (0 < 2 ^ a2) by (apply Z.pow_pos_nonneg; lia).
    assert (0 < 2 ^ (dq - 1)) by (apply Z.pow_pos_nonneg; lia).
    assert (0 < 2 ^ (d2 - 1)) by (apply Z.pow_pos_nonneg; lia).
    assert (2 ^ (dq - 1) * 2 ^ (d2 - 1) <= Zpos q * Zpos m2)
      by (apply Z.mul_le_mono_nonneg; lia).
    nia. }
  apply Z.pow_lt_mono_r_iff in Hlow; [|lia|lia].
  apply Z.pow_lt_mono_r_iff in Hup; [|lia|lia].
  subst D. lia.
Qed.

Lemma shift_mantissa m s :
  0 <= s ->
  match s with
  | Zpos _ => Z.shiftl (Zpos m) s
  | Z0 => Zpos m
  | Zneg _ => 0
  end = Zpos m * 2 ^ s.
Proof.
  intros Hs. destruct s as [|k|k]; [simpl; lia | | lia].
  by rewrite Z.shiftl_mul_pow2.
Qed.

(** A quotient of two binary values that is an integer below [2^53] is
    computed exactly. *)
Lemma SFdiv_exact m1 e1 m2 e2 q :
  Zpos q < 2 ^ 53 ->
  Zpos m1 * 2 ^ (e1 - Z.min e1 e2)
  = Zpos q * Zpos m2 * 2 ^ (e2 - Z.min e1 e2) ->
  SFdiv 53 1024 (S754_finite false m1 e1) (S754_finite false m2 e2)
  = float_of_Z (Zpos q).
Proof.
  intros Hq Heq.
  assert (Ha1 : 0 <= e1 - Z.min e1 e2) by lia.
  assert (Ha2 : 0 <= e2 - Z.min e1 e2) by lia.
  pose proof (quotient_digits m1 m2 q _ _ Ha1 Ha2 Heq) as HD.
  cbv zeta in HD.
  pose proof (digits2_pos_small q Hq) as Hdq.
  destruct (float_of_Z_exact q Hq) as (T & -> & HT & HTv).
  set (d1 := Zpos (digits2_pos m1)) in *.
  set (d2 := Zpos (digits2_pos m2)) in *.
  set (dq := Zpos (digits2_pos q)) in *.
  set (a1 := e1 - Z.min e1 e2) in *. set (a2 := e2 - Z.min e1 e2) in *.
  assert (Hdq1 : 1 <= dq) by (subst dq; lia).
  unfold SFdiv, SFdiv_core_binary. cbn [Zdigits2 xorb]. fold d1 d2.
  assert (Hf : fexp 53 1024 (d1 + e1 - (d2 + e2)) = d1 + e1 - (d2 + e2) - 53).
  { unfold fexp, emin. lia. }
  rewrite Hf.
  set (e' := Z.min (d1 + e1 - (d2 + e2) - 53) (e1 - e2)).
  assert (He' : e' <= dq - 53) by lia.
  rewrite shift_mantissa by lia.
  assert (Hm : Zpos m1 * 2 ^ (e1 - e2 - e') = Zpos q * 2 ^ (- e') * Zpos m2).
  { apply (Z.mul_reg_r _ _ (2 ^ a2));
      [assert (0 < 2 ^ a2) by (apply Z.pow_pos_nonneg; lia); lia|].
    rewrite <- Z.mul_assoc, <- Z.pow_add_r by lia.
    replace (e1 - e2 - e' + a2) with (a1 + - e') by lia.
    rewrite Z.pow_add_r by lia. rewrite Z.mul_assoc, Heq. ring. }
  rewrite Hm, div_eucl_exact by lia. rewrite new_location_exact.
  destruct (dq - 53 - e') as [|k|k] eqn:Hn; [| | lia].
  - replace (Zpos q * 2 ^ (- e')) with (Zpos T)
      by (rewrite HTv; f_equal; f_equal; lia).
    rewrite binary_round_aux_canonical by lia. f_equal. lia.
  - replace (Zpos q * 2 ^ (- e')) with (Zpos (Pos.iter xO T k)).
    + rewrite binary_round_aux_shifted by lia. f_equal. lia.
    + rewrite Zpos_shift, HTv, <- Z.mul_assoc, <- Z.pow_add_r by lia.
      f_equal. f_equal. lia.
Qed.

Lemma scaled_exact q decimals :
  0 <= q < 2 ^ 53 -> 0 <= decimals ->
  scaled (q * 10 ^ decimals) decimals = float_of_Z q.
Proof.
  intros Hq Hd. unfold scaled.
  assert (Hp : 0 < 10 ^ decimals) by (apply Z.pow_pos_nonneg; lia).
  destruct (10 ^ decimals) as [|b|b] eqn:Hb; try lia.
  destruct q as [|q|q]; try lia; [done|].
  cbn [Z.mul exact]. apply SFdiv_exact; [lia|].
  rewrite Z.min_id, Z.sub_diag. lia.
Qed.

Lemma gwei_exact k :
  0 <= k -> k * 10 ^ 9 < 2 ^ 53 ->
  gwei_float (k * 10 ^ 9) = float_of_Z k.
Proof.
  intros Hk Hlt. unfold gwei_float.
  destruct k as [|k|k]; try lia; [vm_compute; reflexivity|].
  change (Zpos k * 10 ^ 9) with (Zpos (k * 1000000000)) in *.
  destruct (float_of_Z_exact (k * 1000000000) Hlt) as (T & HT & Hd & Hv).
  fold (float_of_Z (Zpos (k * 1000000000))). rewrite HT.
  change ExtractAll.float_1e9
    with (S754_finite false 8388608000000000 (-23)).
  pose proof (digits2_pos_small _ Hlt) as Hs.
  pose proof (digits2_pos_bounds (k * 1000000000)) as Hb.
  set (d := Zpos (digits2_pos (k * 1000000000))) in *.
  assert (Hd30 : 30 <= d).
  { destruct (Z.lt_ge_cases d 30) as [Hlt30|]; [|done].
    assert (2 ^ d <= 2 ^ 29) by (apply Z.pow_le_mono_r; lia).
    assert (Zpos (k * 1000000000) >= 1000000000) by lia.
    change (2 ^ 29) with 536870912 in *. lia. }
  apply SFdiv_exact.
  - assert (Zpos k <= Zpos k * 10 ^ 9) by lia.
    change (Zpos k * 10 ^ 9) with (Zpos (k * 1000000000)) in *. lia.
  - rewrite Z.min_r by lia. rewrite Z.sub_diag, Hv.
    replace (d - 53 - -23) with (d - 30) by lia.
    change (Z.pos 8388608000000000) with (10 ^ 9 * 2 ^ 23).
    rewrite Pos2Z.inj_mul.
    change (Z.pos 1000000000) with (10 ^ 9). change (2 ^ 0) with 1.
    rewrite <- Z.mul_assoc, <- Z.pow_add_r by lia.
    replace (53 - d + (d - 30)) with 23 by lia. ring.
Qed.

(** *** The order of floats *)

Lemma compare_cont_Lt m1 m2 :
  Pos.compare_cont Eq m1 m2 = Lt <-> (m1 < m2)%positive.
Proof. apply Pos.compare_lt_iff. Qed.

Lemma compare_cont_Gt m1 m2 :
  Pos.compare_cont Eq m1 m2 = Gt <-> (m2 < m1)%positive.
Proof. apply Pos.compare_gt_iff. Qed.

(** [x < y] on finite values of one sign, as the comparison computes it:
    by exponent, then by mantissa. *)
Lemma finite_lt_pos m1 e1 m2 e2 :
  flt (S754_finite false m1 e1) (S754_finite false m2 e2) = true
  <-> e1 < e2 \/ (e1 = e2 /\ (m1 < m2)%positive).
Proof.
  unfold flt, SFltb, SFcompare.
  destruct (Z.compare_spec e1 e2) as [->|H|H].
  - destruct (Pos.compare_cont Eq m1 m2) eqn:Hc.
    + apply Pos.compare_eq in Hc. split; [done | lia].
    + pose proof (proj1 (compare_cont_Lt _ _) Hc) as Hlt. split; [by right | done].
    + pose proof (proj1 (compare_cont_Gt _ _) Hc) as Hgt. split; [done | lia].
  - split; [by left | done].
  - split; [done | lia].
Qed.

Lemma finite_lt_neg m1 e1 m2 e2 :
  flt (S754_finite true m1 e1) (S754_finite true m2 e2) = true
  <-> e2 < e1 \/ (e2 = e1 /\ (m2 < m1)%positive).
Proof.
  unfold flt, SFltb, SFcompare.
  destruct (Z.compare_spec e1 e2) as [->|H|H].
  - destruct (Pos.compare_cont Eq m1 m2) eqn:Hc; simpl.
    + apply Pos.compare_eq in Hc. split; [done | lia].
    + pose proof (proj1 (compare_cont_Lt _ _) Hc) as Hlt. split; [done | lia].
    + pose proof (proj1 (compare_cont_Gt _ _) Hc) as Hgt. split; [by right | done].
  - split; [done | lia].
  - split; [by left | done].
Qed.

Lemma flt_irrefl x : flt x x = false.
Proof.
  destruct x as [[]| []| |[] m e]; try reflexivity.
  - apply not_true_is_false. rewrite finite_lt_neg. lia.
  - apply not_true_is_false. rewrite finite_lt_pos. lia.
Qed.

Lemma flt_trans x y z : flt x y = true -> flt y z = true -> flt x z = true.
Proof.
  destruct x as [[]|[]| |[] m1 e1], y as [[]|[]| |[] m2 e2],
           z as [[]|[]| |[] m3 e3];
    try reflexivity; try discriminate;
    rewrite ?finite_lt_pos, ?finite_lt_neg; lia.
Qed.

Lemma flt_asym x y : flt x y = true -> flt y x = false.
Proof.
  intros H. apply not_true_is_false. intros H'.
  pose proof (flt_trans _ _ _ H H') as Hx. by rewrite flt_irrefl in Hx.
Qed.


Lemma fold_max_greatest xs : forall seen m,
  m ∈ seen -> (forall y, y ∈ seen -> flt m y = false) ->
  let r := fold_left (fun m y => if flt m y then y else m) xs m in
  r ∈ seen ++ xs /\ forall y, y ∈ seen ++ xs -> flt r y = false.
Proof.
  induction xs as [|a xs IH]; intros seen m Hin Hle; cbn [fold_left].
  - by rewrite app_nil_r.
  - replace (seen ++ a :: xs) with ((seen ++ [a]) ++ xs)
      by (by rewrite <- app_assoc).
    apply IH.
    + destruct (flt m a); apply elem_of_app;
        [right; apply elem_of_cons; by left | by left].
    + intros y Hy. apply elem_of_app in Hy as [Hy|Hy].
      * destruct (flt m a) eqn:Ham; [|by apply Hle].
        apply not_true_is_false. intros Hay.
        pose proof (flt_trans _ _ _ Ham Hay) as Hmy.
        by rewrite (Hle y Hy) in Hmy.
      * apply elem_of_cons in Hy as [->|Hy]; [|by apply elem_of_nil in Hy].
        destruct (flt m a) eqn:Ham; [apply flt_irrefl | done].
Qed.


Lemma max_float_greatest x xs :
  max_float x xs ∈ x :: xs /\
  forall y, y ∈ x :: xs -> flt (max_float x xs) y = false.
Proof.
  apply (fold_max_greatest xs [x] x); [apply elem_of_cons; by left|].
  intros y Hy. apply elem_of_cons in Hy as [->|Hy];
    [apply flt_irrefl | by apply elem_of_nil in Hy].
Qed.

End FloatFacts.

(** ** Facts about the decoder on references *)

Section ObjectFacts.
Import Py Hypersync Props.

Lemma bind_run {A B} (m : Objects.M A) (f : A -> Objects.M B) s a s' :
  m s = (Ok a, s') -> (m ≫= f) s = f a s'.
Proof. intros H. unfold mbind, Objects.M_bind. by rewrite H. Qed.

Lemma bind_raise {A B} (m : Objects.M A) (f : A -> Objects.M B) s e s' :
  m s = (Raise e, s') -> (m ≫= f) s = (Raise e, s').
Proof. intros H. unfold mbind, Objects.M_bind. by rewrite H. Qed.

Lemma bind_lift {A B} (r : result A) (f : A -> Objects.M B) s :
  (Objects.lift r ≫= f) s
  = match r with
    | Ok a => f a s
    | Raise e => (Raise e, s)
    end.
Proof. unfold mbind, Objects.M_bind, Objects.lift. by destruct r. Qed.

Lemma bind_read {A B} (m : Objects.M A) (f : A -> Objects.M B) s r :
  m s = (r, s) ->
  (m ≫= f) s
  = match r with
    | Ok a => f a s
    | Raise e => (Raise e, s)
    end.
Proof. intros H. unfold mbind, Objects.M_bind. rewrite H. by destruct r. Qed.

Lemma log_attr_run {A} (name : Log -> A) s log l :
  log_at s log = Some l -> Objects.log_attr name log s = (Ok (name l), s).
Proof.
  unfold log_at, Objects.log_attr.
  destruct (s !! log) as [[| | |]|]; try discriminate. by intros [= ->].
Qed.

Lemma log_attr_none {A} (name : Log -> A) s log :
  log_at s log = None ->
  Objects.log_attr name log s = (Raise AttributeError, s).
Proof.
  unfold log_at, Objects.log_attr.
  by destruct (s !! log) as [[| | |]|].
Qed.

Lemma topic_run s log l i :
  log_at s log = Some l ->
  Objects.topic log i s = (Ok (ExtractAll.topic l i), s).
Proof.
  intros Hl. unfold Objects.topic, ExtractAll.topic.
  rewrite (bind_run _ _ _ _ _ (log_attr_run topics s log l Hl)).
  case_bool_decide as Hi.
  - by rewrite (bind_run _ _ _ _ _ (log_attr_run topics s log l Hl)).
  - by rewrite lookup_ge_None_2 by lia.
Qed.

Lemma decode_amounts_run s log l :
  log_at s log = Some l ->
  Objects.decode_amounts log s = (ExtractAll.decode_amounts (data l), s).
Proof.
  intros Hl. unfold Objects.decode_amounts, ExtractAll.decode_amounts.
  rewrite (bind_run _ _ _ _ _ (log_attr_run data s log l Hl)).
  destruct (data l) as [d|] eqn:Hd; [|done].
  destruct (ExtractAll.present (Some d)); [|done].
  rewrite (bind_run _ _ _ _ _ (log_attr_run data s log l Hl)), Hd.
  rewrite bind_lift. cbn [Objects.len_of andb].
  destruct (66 <=? len d); [|done].
  rewrite (bind_run _ _ _ _ _ (log_attr_run data s log l Hl)), Hd.
  rewrite bind_lift. cbn [Objects.subscript]. rewrite bind_lift.
  destruct (int16 (slice 2 66 d)) as [amount_raw|e]; [|done].
  cbn [mbind result_bind].
  rewrite (bind_run _ _ _ _ _ (log_attr_run data s log l Hl)), Hd.
  rewrite bind_lift. cbn [Objects.len_of].
  destruct (130 <=? len d); [|done].
  rewrite (bind_run _ _ _ _ _ (log_attr_run data s log l Hl)), Hd.
  rewrite bind_lift. cbn [Objects.subscript]. rewrite bind_lift.
  by destruct (int16 (slice 66 130 d)) as [fee_raw|e].
Qed.

Lemma tx_attr_gas_used s p :
  Objects.tx_attr gas_used p s = (Ok (gas_used (tx_at s p)), s).
Proof.
  unfold Objects.tx_attr, tx_at. by destruct (s !! p) as [[| | |]|].
Qed.

Lemma tx_attr_gas_price s p :
  Objects.tx_attr gas_price p s = (Ok (gas_price (tx_at s p)), s).
Proof.
  unfold Objects.tx_attr, tx_at. by destruct (s !! p) as [[| | |]|].
Qed.

Lemma gas_field_run name s p :
  Objects.tx_attr name p s = (Ok (name (tx_at s p)), s) ->
  Objects.gas_field name p s = (ExtractAll.gas_field (name (tx_at s p)), s).
Proof.
  intros Ha. unfold Objects.gas_field, ExtractAll.gas_field.
  assert (Hg : forall v, name (tx_at s p) = Some v ->
                 Objects.getattr name p s = (Ok v, s)).
  { intros v Hv. unfold Objects.getattr.
    by rewrite (bind_run _ _ _ _ _ Ha), Hv. }
  unfold Objects.hasattr at 1.
  rewrite (bind_run _ _ _ _ _ (bind_run _ _ _ _ _ Ha)).
  destruct (name (tx_at s p)) as [v|] eqn:Hv.
  - rewrite bool_decide_true by eauto.
    rewrite (bind_run _ _ _ _ _ (Hg v eq_refl)).
    destruct (truthy v) eqn:Ht; [|done].
    rewrite (bind_run _ _ _ _ _ (Hg v eq_refl)).
    destruct v as [|str|z]; cbn [Objects.is_str].
    + discriminate Ht.
    + by rewrite (bind_run _ _ _ _ _ (Hg _ eq_refl)).
    + by rewrite (bind_run _ _ _ _ _ (Hg _ eq_refl)).
  - rewrite bool_decide_false; [done|]. by intros [? ?].
Qed.

Lemma decode_gas_run s log txs l t :
  log_at s log = Some l -> txs_at s txs = Some t ->
  Objects.decode_gas log txs s
  = (ExtractAll.decode_gas (t !! transaction_hash l), s).
Proof.
  intros Hl Ht. unfold Objects.decode_gas, ExtractAll.decode_gas.
  rewrite (bind_run _ _ _ _ _ (log_attr_run transaction_hash s log l Hl)).
  unfold txs_at in Ht.
  destruct (s !! txs) as [[| |d|ev]|] eqn:Hd; try discriminate;
    injection Ht as <-.
  2:{ assert (Hget : Objects.dict_get txs (transaction_hash l) s
                     = (Ok None, s))
        by (unfold Objects.dict_get; by rewrite Hd).
      by rewrite (bind_run _ _ _ _ _ Hget), lookup_empty. }
  assert (Hget : Objects.dict_get txs (transaction_hash l) s
                 = (Ok (d !! transaction_hash l), s)).
  { unfold Objects.dict_get. by rewrite Hd. }
  rewrite (bind_run _ _ _ _ _ Hget), lookup_fmap.
  destruct (d !! transaction_hash l) as [p|]; [|done]. cbn [fmap option_fmap option_map].
  rewrite (bind_read _ _ _ _
             (gas_field_run gas_used s p (tx_attr_gas_used s p))).
  destruct (ExtractAll.gas_field (gas_used (tx_at s p))) as [u|e]; [|done].
  cbn [mbind result_bind].
  rewrite (bind_read _ _ _ _
             (gas_field_run gas_price s p (tx_attr_gas_price s p))).
  by destruct (ExtractAll.gas_field (gas_price (tx_at s p))) as [g|e].
Qed.

(** On a log and an index the store holds, the decoder on references
    computes what the function of values computes, and stores the event
    at a new reference. *)
Lemma decode_run s log txs l t :
  log_at s log = Some l -> txs_at s txs = Some t ->
  Objects.decode_flashloan_log log txs s
  = match ExtractAll.decode_flashloan_log l t with
    | Ok e => Objects.new_event e s
    | Raise x => (Raise x, s)
    end.
Proof.
  intros Hl Ht.
  unfold Objects.decode_flashloan_log, ExtractAll.decode_flashloan_log.
  rewrite (bind_run _ _ _ _ _ (topic_run s log l 1 Hl)).
  rewrite (bind_run _ _ _ _ _ (topic_run s log l 2 Hl)).
  destruct (ExtractAll.token_of (ExtractAll.topic l 2)) as [name dec].
  rewrite (bind_read _ _ _ _ (decode_amounts_run s log l Hl)).
  destruct (ExtractAll.decode_amounts (data l)) as [[a f]|x]; [|done].
  cbn [mbind result_bind]. rewrite bind_lift.
  destruct (truediv_int a (10 ^ dec)) as [q|x]; [|done].
  cbn [mbind result_bind].
  rewrite (bind_read _ _ _ _ (decode_gas_run s log txs l t Hl Ht)).
  destruct (ExtractAll.decode_gas (t !! transaction_hash l)) as [[u g]|x];
    [|done].
  cbn [mbind result_bind].
  rewrite (bind_run _ _ _ _ _ (log_attr_run transaction_hash s log l Hl)).
  rewrite (bind_run _ _ _ _ _ (log_attr_run block_number s log l Hl)).
  rewrite bind_lift.
  by destruct (ExtractAll.gwei g) as [k|x].
Qed.

(** Whatever the references stand for, a call that raises leaves the
    store as it was, and a call that returns has decoded the log and
    the index of the store and has added the event to it. *)
Lemma decode_outcome s log txs :
  match Objects.decode_flashloan_log log txs s with
  | (Ok p, s') =>
    exists l t e,
      log_at s log = Some l /\ txs_at s txs = Some t /\
      ExtractAll.decode_flashloan_log l t = Ok e /\
      p = fresh (dom s) /\ s' = <[p := Objects.EventObject e]> s
  | (Raise x, s') => s' = s
  end.
Proof.
  destruct (log_at s log) as [l|] eqn:Hl.
  - destruct (txs_at s txs) as [t|] eqn:Ht.
    + rewrite (decode_run s log txs l t Hl Ht).
      destruct (ExtractAll.decode_flashloan_log l t) as [e|x] eqn:He;
        [|done].
      unfold Objects.new_event. by exists l, t, e.
    + unfold Objects.decode_flashloan_log.
      rewrite (bind_run _ _ _ _ _ (topic_run s log l 1 Hl)).
      rewrite (bind_run _ _ _ _ _ (topic_run s log l 2 Hl)).
      destruct (ExtractAll.token_of (ExtractAll.topic l 2)) as [name dec].
      rewrite (bind_read _ _ _ _ (decode_amounts_run s log l Hl)).
      destruct (ExtractAll.decode_amounts (data l)) as [[a f]|x]; [|done].
      rewrite bind_lift.
      destruct (truediv_int a (10 ^ dec)) as [q|x]; [|done].
      unfold Objects.decode_gas.
      rewrite (bind_raise (_ ≫= _) _ s AttributeError s); [done|].
      rewrite (bind_run _ _ _ _ _ (log_attr_run transaction_hash s log l Hl)).
      apply bind_raise. unfold Objects.dict_get. unfold txs_at in Ht.
      by destruct (s !! txs) as [[| | |]|].
  - unfold Objects.decode_flashloan_log, Objects.topic.
    by rewrite (bind_raise _ _ _ _ _
                  (bind_raise _ _ _ _ _ (log_attr_none topics s log Hl))).
Qed.

Lemma grown_refl s : grown s s.
Proof. intros p. destruct (s !! p); [done | by left]. Qed.

Lemma grown_trans s1 s2 s3 : grown s1 s2 -> grown s2 s3 -> grown s1 s3.
Proof.
  intros H12 H23 p. specialize (H12 p). specialize (H23 p).
  destruct (s1 !! p) as [o|].
  - by rewrite H12 in H23.
  - destruct H12 as [H12|[e H12]]; rewrite H12 in H23; [done|].
    right. by exists e.
Qed.

Lemma fresh_unused (s : Objects.store) : s !! fresh (dom s) = None.
Proof. apply (not_elem_of_dom (D := gset positive)), is_fresh. Qed.

Lemma grown_new_event s e :
  grown s (<[fresh (dom s) := Objects.EventObject e]> s).
Proof.
  intros p. destruct (decide (p = fresh (dom s))) as [->|Hp].
  - rewrite fresh_unused, lookup_insert_eq. right. by exists e.
  - rewrite lookup_insert_ne by done. destruct (s !! p); [done | by left].
Qed.

Lemma grown_subseteq s s' : grown s s' -> s ⊆ s'.
Proof.
  intros H. apply map_subseteq_spec. intros p o Hp.
  specialize (H p). by rewrite Hp in H.
Qed.

Lemma grown_log_at s s' p : grown s s' -> log_at s' p = log_at s p.
Proof.
  intros H. specialize (H p). unfold log_at.
  destruct (s !! p) as [o|]; [by rewrite H|].
  by destruct H as [->|[e ->]].
Qed.

Lemma grown_tx_at s s' p : grown s s' -> tx_at s' p = tx_at s p.
Proof.
  intros H. specialize (H p). unfold tx_at.
  destruct (s !! p) as [o|]; [by rewrite H|].
  by destruct H as [->|[e ->]].
Qed.

Lemma grown_txs_at s s' p t :
  grown s s' -> txs_at s p = Some t -> txs_at s' p = Some t.
Proof.
  intros H. pose proof (H p) as Hp. unfold txs_at.
  destruct (s !! p) as [o|]; [|discriminate].
  rewrite Hp. destruct o as [| |d|]; try done.
  intros [= <-]. f_equal.
  apply map_fmap_ext. intros k q _. by apply grown_tx_at.
Qed.

Lemma grown_event_at s s' p e :
  grown s s' -> event_at s p = Some e -> event_at s' p = Some e.
Proof.
  intros H. specialize (H p). unfold event_at.
  destruct (s !! p) as [o|]; [by rewrite H | discriminate].
Qed.

Lemma new_event_at s e :
  event_at (<[fresh (dom s) := Objects.EventObject e]> s) (fresh (dom s))
  = Some e.
Proof. unfold event_at. by rewrite lookup_insert_eq. Qed.

Lemma decode_grown s log txs r s' :
  Objects.decode_flashloan_log log txs s = (r, s') -> grown s s'.
Proof.
  intros H. pose proof (decode_outcome s log txs) as Ho. rewrite H in Ho.
  destruct r as [p|x].
  - destruct Ho as (l & t & e & _ & _ & _ & -> & ->). apply grown_new_event.
  - subst s'. apply grown_refl.
Qed.

(** Once a call has returned, a second call on the same references
    decodes the same event again, at another reference. *)
Lemma decode_again s log txs p1 s1 :
  Objects.decode_flashloan_log log txs s = (Ok p1, s1) ->
  exists e,
    event_at s1 p1 = Some e /\
    Objects.decode_flashloan_log log txs s1
    = (Ok (fresh (dom s1)), <[fresh (dom s1) := Objects.EventObject e]> s1).
Proof.
  intros H. pose proof (decode_grown _ _ _ _ _ H) as Hg.
  pose proof (decode_outcome s log txs) as Ho. rewrite H in Ho.
  destruct Ho as (l & t & e & Hl & Ht & He & -> & ->).
  exists e. split; [apply new_event_at|].
  rewrite (decode_run _ log txs l t), He; [done | |].
  - by rewrite (grown_log_at _ _ _ Hg).
  - by apply (grown_txs_at s).
Qed.

(** The loop of [main] on the store: every event is the decoding of its
    own log against the index as it was before the loop. *)
Lemma decode_all_outcome txs logs : forall s r s',
  Objects.decode_all logs txs s = (r, s') ->
  grown s s' /\
  forall ps, r = Ok ps ->
    Forall2 (fun log p =>
               exists l t e,
                 log_at s log = Some l /\ txs_at s txs = Some t /\
                 ExtractAll.decode_flashloan_log l t = Ok e /\
                 event_at s' p = Some e) logs ps.
Proof.
  induction logs as [|log logs IH]; intros s r s'; cbn [Objects.decode_all].
  - intros [= <- <-]. split; [apply grown_refl|].
    intros ps [= <-]. constructor.
  - destruct (Objects.decode_flashloan_log log txs s) as [[p|x] s1] eqn:Hd.
    + rewrite (bind_run _ _ _ _ _ Hd).
      pose proof (decode_grown _ _ _ _ _ Hd) as Hg.
      pose proof (decode_outcome s log txs) as Ho. rewrite Hd in Ho.
      destruct Ho as (l & t & e & Hl & Ht & He & Hp & Hs1).
      destruct (Objects.decode_all logs txs s1) as [[ps'|x] s2] eqn:Ha.
      * rewrite (bind_run _ _ _ _ _ Ha). intros [= <- <-].
        destruct (IH _ _ _ Ha) as [Hg' Hall].
        split; [by eapply grown_trans|].
        intros ps [= <-]. constructor.
        -- exists l, t, e. repeat split; try done.
           apply (grown_event_at s1); [done|]. subst s1 p.
           apply new_event_at.
        -- eapply Forall2_impl; [by apply Hall|].
           intros log' p' (l' & t' & e' & Hl' & Ht' & He' & Hp').
           exists l', t, e'.
           rewrite (grown_log_at _ _ _ Hg) in Hl'.
           rewrite (grown_txs_at _ _ _ _ Hg Ht) in Ht'.
           injection Ht' as <-. by repeat split.
      * rewrite (bind_raise _ _ _ _ _ Ha). intros [= <- <-].
        destruct (IH _ _ _ Ha) as [Hg' _].
        split; [by eapply grown_trans | discriminate].
    + rewrite (bind_raise _ _ _ _ _ Hd). intros [= <- <-].
      split; [by eapply decode_grown | discriminate].
Qed.

End ObjectFacts.

(** ** The claims about [decode_flashloan_log] *)

Section DecodeClaims.
Import Py Hypersync Harvest Props Samples ExtractAll.






(** C5.  A log with fewer than three topics, with well-formed data and
    gas fields, decodes without an exception: the token is the
    placeholder "Unknown" with an empty address and 18 decimals, and with
    fewer than two topics the recipient is empty as well. *)
Theorem C5_short_topics (log : Log) (txs : gmap pyval Transaction) :
  (length (topics log) < 3)%nat ->
  hex_data (data log) = true ->
  gas_ok (txs !! transaction_hash log) = true ->
  exists ev, decode_flashloan_log log txs = Ok ev /\
             token ev = "Unknown"%string /\ token_address ev = ""%string /\
             decimals ev = 18 /\
             ((length (topics log) < 2)%nat -> recipient ev = ""%string).
Proof.
  intros Hl Hd Hg. eexists. split; [by apply decode_ok|].
  assert (Ht : topic log 2 = None).
  { unfold topic. by rewrite lookup_ge_None_2 by lia. }
  cbn [token token_address decimals recipient]. rewrite Ht.
  repeat split. intros Hl'. unfold topic.
  by rewrite lookup_ge_None_2 by lia.
Qed.

Lemma C5_short_topics_witness :
  exists ev, decode_flashloan_log bare_log ∅ = Ok ev /\
             token ev = "Unknown"%string /\ token_address ev = ""%string /\
             decimals ev = 18 /\
             ((length (topics bare_log) < 2)%nat -> recipient ev = ""%string).
Proof.
  apply (C5_short_topics bare_log ∅).
  - simpl. lia.
  - reflexivity.
  - reflexivity.
Defined.

Lemma truediv_int_scaled a decimals x :
  truediv_int a (10 ^ decimals) = Ok x -> x = scaled a decimals.
Proof.
  unfold truediv_int, scaled.
  destruct (10 ^ decimals =? 0); [discriminate|].
  destruct (_ <=? _); [discriminate|]. by intros [= <-].
Qed.

Lemma gwei_value gas_price g :
  gwei gas_price = Ok g ->
  g = if gas_price =? 0 then NInt 0 else NFloat (gwei_float gas_price).
Proof.
  unfold gwei, float_of_int, gwei_float.
  destruct (gas_price =? 0); [by intros [= <-]|].
  destruct (float_limit <=? Z.abs gas_price); [discriminate|].
  cbn [mbind result_bind]. by intros [= <-].
Qed.

(** C9.  In every decoded event the scaled amount is the binary64
    quotient of [amount_raw] by [10^decimals], and the gwei figure is the
    binary64 quotient of the normalised gas price by [1e9] (the integer
    zero when the gas price is zero).  Both quotients are exact when the
    result is a whole number below [2^53]: a raw amount of [q] whole
    tokens scales to the float [q], and a gas price of [k] whole gwei
    converts to the float [k].  A raw amount of 1 000 000 with 6
    decimals scales to 1.0, and a gas price of 20 000 000 000 converts to
    20.0 gwei. *)
Theorem C9_unit_conversion (log : Log) (txs : gmap pyval Transaction)
    (ev : Event) :
  decode_flashloan_log log txs = Ok ev ->
  amount ev = scaled (amount_raw ev) (decimals ev) /\
  (forall q, 0 <= q < 2 ^ 53 ->
             amount_raw ev = q * 10 ^ decimals ev ->
             amount ev = float_of_Z q) /\
  (exists gas_price,
     decode_gas (txs !! transaction_hash log) = Ok (gas_used ev, gas_price) /\
     gas_price_gwei ev
     = (if gas_price =? 0 then NInt 0 else NFloat (gwei_float gas_price)) /\
     (forall k, 0 < k -> gas_price = k * 10 ^ 9 -> gas_price < 2 ^ 53 ->
                gas_price_gwei ev = NFloat (float_of_Z k))) /\
  scaled 1000000 6 = float_of_Z 1 /\
  gwei_float 20000000000 = float_of_Z 20.
Proof.
  intros H. unfold decode_flashloan_log in H.
  pose proof (token_of_decimals (topic log 2)) as Hdec.
  destruct (token_of (topic log 2)) as [name dec]. cbn [snd] in Hdec.
  destruct (decode_amounts (data log)) as [[a f]|]; [|discriminate].
  cbn [mbind result_bind] in H.
  destruct (truediv_int a (10 ^ dec)) as [x|] eqn:Hx; [|discriminate].
  cbn [mbind result_bind] in H.
  destruct (decode_gas (txs !! transaction_hash log)) as [[gu gp]|];
    [|discriminate].
  cbn [mbind result_bind] in H.
  destruct (gwei gp) as [g|] eqn:Hg; [|discriminate].
  cbn [mbind result_bind] in H. inversion H; subst ev. clear H.
  cbn [amount amount_raw decimals gas_used gas_price_gwei].
  apply truediv_int_scaled in Hx. apply gwei_value in Hg.
  split; [done|].
  split.
  { intros q Hq ->. rewrite Hx. apply scaled_exact; [done|].
    simpl in Hdec. lia. }
  split.
  { exists gp. split; [done|]. split; [done|].
    intros k Hk -> Hlt. rewrite Hg.
    destruct (Z.eqb_spec (k * 10 ^ 9) 0) as [H0|_]; [lia|].
    f_equal. apply gwei_exact; lia. }
  split; vm_compute; reflexivity.
Qed.

Lemma C9_unit_conversion_witness :
  exists ev, decode_flashloan_log usdc_log hex_txs = Ok ev /\
             amount_raw ev = 1000000 /\ decimals ev = 6 /\
             amount ev = float_of_Z 1 /\
             gas_price_gwei ev = NFloat (float_of_Z 20).
Proof.
  destruct (decode_flashloan_log usdc_log hex_txs) as [ev|e] eqn:He;
    [| vm_compute in He; discriminate He].
  exists ev. split; [reflexivity|].
  destruct (C9_unit_conversion usdc_log hex_txs ev He)
    as (_ & Hq & (gp & Hgas & _ & Hk) & _).
  vm_compute in He. injection He as He. subst ev.
  cbn [amount amount_raw decimals gas_used gas_price_gwei] in *.
  split; [reflexivity|]. split; [reflexivity|].
  split.
  - apply (Hq 1); [lia | reflexivity].
  - vm_compute in Hgas. injection Hgas as Hgp. subst gp.
    apply (Hk 20); [lia | reflexivity | reflexivity].
Defined.

(** In [extract_all_flashloans.py] both gas fields of the matched record
    are normalised to the quantities they stand for, from a hexadecimal
    string as well as from an integer. *)
Lemma extract_all_normalizes_gas (log : Log) (txs : gmap pyval Transaction)
    (tx : Transaction) (u p : Z) :
  hex_data (data log) = true ->
  txs !! transaction_hash log = Some tx ->
  quantity (Hypersync.gas_used tx) = Some u ->
  quantity (Hypersync.gas_price tx) = Some p ->
  exists ev, decode_flashloan_log log txs = Ok ev /\
             gas_used ev = u /\ 0 <= u < 2 ^ 256 /\
             gas_price_gwei ev
             = if p =? 0 then NInt 0 else NFloat (gwei_float p).
Proof.
  intros Hd Ht Hu Hp.
  assert (Hg : gas_ok (txs !! transaction_hash log) = true).
  { rewrite Ht. simpl. rewrite Hu, Hp. reflexivity. }
  eexists. split; [by apply decode_ok|].
  cbn [gas_used gas_price_gwei]. rewrite Ht. simpl. rewrite Hu, Hp. simpl.
  split; [done|]. split; [|done].
  by destruct (gas_field_quantity _ _ Hu).
Qed.

(** C6, at the failing input.  The matched record carries its gas
    figures as integers.  [decode_flashloan_log] of
    [query_balancer_flashloans.py] passes them to [int(_, 16)] and raises
    [TypeError]; the one of [extract_all_flashloans.py] tests
    [isinstance(_, str)] first and returns gas 21000 at 20.0 gwei. *)
Theorem C6_balancer_numeric_gas_raises :
  QueryBalancer.decode_flashloan_log usdc_log numeric_txs = Raise TypeError /\
  exists ev, decode_flashloan_log usdc_log numeric_txs = Ok ev /\
             gas_used ev = 21000 /\
             gas_price_gwei ev = NFloat (float_of_Z 20).
Proof.
  split; [vm_compute; reflexivity|].
  eexists. split; [vm_compute; reflexivity|]. split; vm_compute; reflexivity.
Qed.


Lemma mapM_Ok {A B} (f : A -> result B) (xs : list A) : forall ys,
  mapM f xs = Ok ys -> Forall2 (fun x y => f x = Ok y) xs ys.
Proof.
  induction xs as [|x xs IH]; intros ys; simpl.
  - intros [= <-]. constructor.
  - destruct (f x) as [y|] eqn:Hy; [|discriminate]. cbn [mbind result_bind].
    destruct (mapM f xs) as [k|]; [|discriminate]. cbn [mbind result_bind].
    intros [= <-]. constructor; [done | by apply IH].
Qed.

(** The result depends on the index only through the entry under the
    hash of the log. *)
Lemma decode_frame log txs txs' :
  txs !! transaction_hash log = txs' !! transaction_hash log ->
  decode_flashloan_log log txs = decode_flashloan_log log txs'.
Proof. intros H. unfold decode_flashloan_log. by rewrite H. Qed.

(** C7.  Decoding is a function of its inputs and touches nothing.
    As a step on the store of objects, a call of [decode_flashloan_log]
    on the references of a log and of an index leaves every object of
    the store as it was, the log, the index and its transactions among
    them: when it raises the store is unchanged, and when it returns,
    the one new object is the event, which is the value of the function
    of values on the log and the index.  A second call on the same
    references raises the same exception or returns, at another
    reference, an event equal to the first.  The value depends on the
    index only through the entry under the hash of the log; and in the
    loop of [main] every event is the decoding of its own log against
    the index as it was before the loop, whatever was decoded before
    it. *)
Theorem C7_decode_deterministic (s : Objects.store)
    (log txs : Objects.ref) (logs : list Objects.ref) :
  (forall r s',
     Objects.decode_flashloan_log log txs s = (r, s') ->
     grown s s' /\
     match r with
     | Ok p =>
       s !! p = None /\
       exists l t e,
         log_at s log = Some l /\ txs_at s txs = Some t /\
         decode_flashloan_log l t = Ok e /\ event_at s' p = Some e
     | Raise x =>
       s' = s /\
       forall l t, log_at s log = Some l -> txs_at s txs = Some t ->
                   decode_flashloan_log l t = Raise x
     end) /\
  (forall r1 s1 r2 s2,
     Objects.decode_flashloan_log log txs s = (r1, s1) ->
     Objects.decode_flashloan_log log txs s1 = (r2, s2) ->
     log_at s2 log = log_at s log /\ txs_at s2 txs = txs_at s txs /\
     match r1, r2 with
     | Ok p1, Ok p2 =>
       p1 <> p2 /\ is_Some (event_at s2 p1) /\
       event_at s2 p2 = event_at s2 p1
     | Raise x1, Raise x2 => x1 = x2 /\ s2 = s
     | _, _ => False
     end) /\
  (forall l t t',
     t !! transaction_hash l = t' !! transaction_hash l ->
     decode_flashloan_log l t = decode_flashloan_log l t') /\
  (forall r s',
     Objects.decode_all logs txs s = (r, s') ->
     grown s s' /\
     forall ps, r = Ok ps ->
       Forall2 (fun log p =>
                  exists l t e,
                    log_at s log = Some l /\ txs_at s txs = Some t /\
                    decode_flashloan_log l t = Ok e /\
                    event_at s' p = Some e) logs ps).
Proof.
  split; [|split; [|split]].
  - intros r s' H. split; [by eapply decode_grown|].
    pose proof (decode_outcome s log txs) as Ho. rewrite H in Ho.
    destruct r as [p|x].
    + destruct Ho as (l & t & e & Hl & Ht & He & -> & ->).
      split; [apply fresh_unused|].
      exists l, t, e. repeat split; try done. apply new_event_at.
    + split; [done|]. subst s'. intros l t Hl Ht.
      rewrite (decode_run s log txs l t Hl Ht) in H.
      destruct (decode_flashloan_log l t) as [e|x']; [discriminate H|].
      by injection H as ->.
  - intros r1 s1 r2 s2 H1 H2.
    pose proof (decode_grown _ _ _ _ _ H1) as Hg1.
    pose proof (decode_grown _ _ _ _ _ H2) as Hg2.
    pose proof (grown_trans _ _ _ Hg1 Hg2) as Hg.
    split; [by apply grown_log_at|].
    pose proof (decode_outcome s log txs) as Ho1. rewrite H1 in Ho1.
    split.
    { destruct r1 as [p1|x1].
      - destruct Ho1 as (l & t & e & _ & Ht & _).
        by rewrite Ht, (grown_txs_at _ _ _ _ Hg Ht).
      - subst s1. rewrite H1 in H2. by injection H2 as _ <-. }
    clear Ho1. destruct r1 as [p1|x1].
    + destruct (decode_again _ _ _ _ _ H1) as (e & He & H2').
      rewrite H2' in H2. injection H2 as <- <-.
      assert (Hne : p1 <> fresh (dom s1)).
      { intros Heq. unfold event_at in He.
        rewrite Heq, fresh_unused in He. discriminate He. }
      split; [done|]. rewrite new_event_at.
      assert (He2 : event_at (<[fresh (dom s1) := Objects.EventObject e]> s1)
                      p1 = Some e).
      { unfold event_at. by rewrite lookup_insert_ne. }
      rewrite He2. by split; [eexists|].
    + pose proof (decode_outcome s log txs) as Ho. rewrite H1 in Ho.
      subst s1. rewrite H1 in H2. injection H2 as <- <-. by split.
  - intros l t t'. apply decode_frame.
  - intros r s'. apply decode_all_outcome.
Qed.

Lemma C7_decode_deterministic_witness :
  exists p1 s1 p2 s2 e,
    Objects.decode_flashloan_log 1 2 usdc_store = (Ok p1, s1) /\
    Objects.decode_flashloan_log 1 2 s1 = (Ok p2, s2) /\
    p1 <> p2 /\
    log_at s2 1 = Some usdc_log /\ txs_at s2 2 = Some hex_txs /\
    decode_flashloan_log usdc_log hex_txs = Ok e /\
    event_at s2 p1 = Some e /\ event_at s2 p2 = Some e.
Proof.
  destruct (C7_decode_deterministic usdc_store 1 2 []) as (H1 & H2 & _).
  destruct (Objects.decode_flashloan_log 1 2 usdc_store) as [r1 s1] eqn:Hd1.
  destruct (Objects.decode_flashloan_log 1 2 s1) as [r2 s2] eqn:Hd2.
  destruct (H1 r1 s1 eq_refl) as [_ Hr1].
  destruct (H2 r1 s1 r2 s2 eq_refl Hd2) as (Hl & Ht & Hr2).
  assert (Hlog : log_at usdc_store 1 = Some usdc_log) by reflexivity.
  assert (Htxs : txs_at usdc_store 2 = Some hex_txs)
    by (vm_compute; reflexivity).
  assert (Hev : exists e, decode_flashloan_log usdc_log hex_txs = Ok e)
    by (eexists; vm_compute; reflexivity).
  destruct Hev as [e He].
  destruct r1 as [p1|x1].
  - destruct Hr1 as (_ & l & t & e' & Hl' & Ht' & He' & Hp1).
    rewrite Hlog in Hl'. injection Hl' as <-.
    rewrite Htxs in Ht'. injection Ht' as <-.
    rewrite He in He'. injection He' as <-.
    destruct r2 as [p2|x2]; [|done].
    destruct Hr2 as (Hne & [e2 Hs] & Heq).
    exists p1, s1, p2, s2, e.
    assert (Hs2 : event_at s2 p1 = Some e).
    { destruct (H1 (Ok p1) s1 eq_refl) as [Hg _].
      destruct (C7_decode_deterministic s1 1 2 []) as (H1' & _).
      destruct (H1' (Ok p2) s2 Hd2) as [Hg' _].
      by apply (grown_event_at s1). }
    split; [done|]. split; [done|]. split; [done|].
    split; [by rewrite Hl|]. split; [by rewrite Ht|]. split; [done|].
    split; [done|]. by rewrite Heq.
  - destruct Hr1 as [_ Hr1]. rewrite (Hr1 _ _ Hlog Htxs) in He.
    discriminate He.
Defined.

(** The store is shared: when the index is assigned to through its
    reference, as the harvest loop does, the next decoding through that
    reference sees the new record, here a gas of 30000 in place of
    21000. *)
Lemma assignment_is_seen :
  let s := <[5%positive := Objects.TxObject tx_late]> usdc_store in
  exists s' p1 s1 p2 s2 e1 e2,
    Objects.dict_setitem 2 (PyStr "0xaa") 5 s = (Ok tt, s') /\
    Objects.decode_flashloan_log 1 2 s = (Ok p1, s1) /\
    Objects.decode_flashloan_log 1 2 s' = (Ok p2, s2) /\
    event_at s1 p1 = Some e1 /\ event_at s2 p2 = Some e2 /\
    gas_used e1 = 21000 /\ gas_used e2 = 30000.
Proof.
  cbv zeta. do 7 eexists.
  split; [vm_compute; reflexivity|]. split; [vm_compute; reflexivity|].
  split; [vm_compute; reflexivity|]. split; [vm_compute; reflexivity|].
  split; [vm_compute; reflexivity|]. split; reflexivity.
Qed.
End DecodeClaims.

(** ** Facts about the summary by token *)

Section GroupFacts.
Import Py Props ExtractAll.

Lemma group_of_append e groups t :
  group_of t (by_token_append e groups) =
    if String.eqb (token e) t
    then Some (default [] (group_of t groups) ++ [e])%list
    else group_of t groups.
Proof.
  induction groups as [|[t' es] groups IH]; simpl.
  - by destruct (String.eqb (token e) t).
  - destruct (String.eqb_spec t' (token e)) as [->|Hne]; simpl.
    + by destruct (String.eqb (token e) t).
    + rewrite IH. destruct (String.eqb_spec t' t) as [->|]; [|done].
      by destruct (String.eqb_spec (token e) t) as [Heq|].
Qed.

Lemma keys_append e groups t :
  t ∈ map fst (by_token_append e groups) <->
  t ∈ map fst groups \/ t = token e.
Proof.
  induction groups as [|[t' es] groups IH]; simpl.
  - rewrite list_elem_of_singleton. split; [by right|].
    intros [H|H]; [by apply elem_of_nil in H | done].
  - destruct (String.eqb_spec t' (token e)) as [->|Hne]; simpl.
    + split; [by left|]. intros [H| ->]; [done | apply elem_of_cons; by left].
    + rewrite !elem_of_cons, IH. tauto.
Qed.

Lemma NoDup_keys_append e groups :
  NoDup (map fst groups) -> NoDup (map fst (by_token_append e groups)).
Proof.
  induction groups as [|[t' es] groups IH]; simpl; intros Hn.
  - apply NoDup_singleton.
  - apply NoDup_cons in Hn as [Hni Hn].
    destruct (String.eqb_spec t' (token e)) as [->|Hne]; simpl.
    + by apply NoDup_cons.
    + apply NoDup_cons. split; [|by apply IH].
      rewrite keys_append. intros [H|H]; [done | congruence].
Qed.

Lemma group_of_elem groups t es :
  NoDup (map fst groups) ->
  (t, es) ∈ groups <-> group_of t groups = Some es.
Proof.
  induction groups as [|[t' es'] groups IH]; simpl; intros Hn.
  - split; [by intros ?%elem_of_nil | discriminate].
  - apply NoDup_cons in Hn as [Hni Hn]. rewrite elem_of_cons, (IH Hn).
    destruct (String.eqb_spec t' t) as [->|Hne].
    + split; [intros [[= ->]|H] | intros [= ->]; by left]; [done|].
      apply IH in H; [|done]. destruct Hni.
      apply (list_elem_of_fmap_2 fst) in H. exact H.
    + split; [intros [[= ? ?]|H]; [congruence | done] | by right].
Qed.

Lemma events_of_cons t e events :
  events_of t (e :: events) =
    if String.eqb (token e) t then e :: events_of t events
    else events_of t events.
Proof.
  unfold events_of. rewrite filter_cons.
  destruct (String.eqb_spec (token e) t);
    [by rewrite decide_True | by rewrite decide_False].
Qed.

Lemma group_of_fold events : forall groups t,
  group_of t (fold_left (fun g e => by_token_append e g) events groups) =
    match events_of t events with
    | [] => group_of t groups
    | es => Some (default [] (group_of t groups) ++ es)%list
    end.
Proof.
  induction events as [|e events IH]; intros groups t; simpl; [done|].
  rewrite IH, events_of_cons, group_of_append.
  destruct (String.eqb (token e) t); [|done]. simpl.
  destruct (events_of t events); [done|]. by rewrite <- app_assoc.
Qed.

Lemma NoDup_keys_fold events : forall groups,
  NoDup (map fst groups) ->
  NoDup (map fst (fold_left (fun g e => by_token_append e g) events groups)).
Proof.
  induction events as [|e events IH]; intros groups Hn; simpl; [done|].
  by apply IH, NoDup_keys_append.
Qed.

Lemma NoDup_keys_by_token events : NoDup (map fst (by_token events)).
Proof. apply NoDup_keys_fold. constructor. Qed.

(** A group of [by_token] holds exactly the events of its token. *)
Lemma by_token_group events t es :
  (t, es) ∈ by_token events <-> es = events_of t events /\ es <> [].
Proof.
  rewrite (group_of_elem _ _ _ (NoDup_keys_by_token events)).
  unfold by_token. rewrite group_of_fold. simpl.
  destruct (events_of t events) as [|e l]; split.
  - discriminate.
  - by intros [-> ?].
  - intros [= <-]. done.
  - by intros [-> _].
Qed.


End GroupFacts.

Section SortFacts.
Import Py Props ExtractAll.

Lemma insert_by_key_perm x l : insert_by_key x l ≡ₚ x :: l.
Proof.
  induction l as [|y l IH]; simpl; [done|].
  destruct (sort_key x <=? sort_key y); [done|].
  rewrite IH. apply Permutation_swap.
Qed.

Lemma sorted_perm l : sorted l ≡ₚ l.
Proof.
  induction l as [|x l IH]; simpl; [done|].
  by rewrite insert_by_key_perm, IH.
Qed.



Lemma mapM_total {A B} (f : A -> result B) (P : A -> B -> Prop) l :
  Forall (fun x => exists y, f x = Ok y /\ P x y) l ->
  exists ys, mapM f l = Ok ys /\ Forall2 P l ys.
Proof.
  induction 1 as [|x l (y & Hy & HP) _ (ys & Hys & HF)]; simpl.
  - exists []. split; [done | constructor].
  - exists (y :: ys). rewrite Hy. cbn [mbind result_bind]. rewrite Hys.
    split; [done | by constructor].
Qed.

(** Sortedness carries over from the groups to their rows. *)
Lemma sorted_rows {A B} (P : A -> B -> Prop) (RA : relation A)
    (RB : relation B) l k :
  (forall a1 b1 a2 b2, P a1 b1 -> P a2 b2 -> RA a1 a2 -> RB b1 b2) ->
  Forall2 P l k -> StronglySorted RA l -> StronglySorted RB k.
Proof.
  intros HR. induction 1 as [|a b l k Hab HF IH]; intros Hs; [constructor|].
  apply StronglySorted_cons in Hs as [Ha Hs].
  apply StronglySorted_cons. split; [|by apply IH].
  eapply Forall2_Forall_r; [exact HF|].
  eapply Forall_impl; [exact Ha|]. intros a2 Ha2 b2 Hb2. by eapply HR.
Qed.

Lemma fold_add_bound gl : forall a,
  Forall (fun g => 0 < g < 2 ^ 256) gl ->
  a <= fold_left Z.add gl a <= a + Z.of_nat (length gl) * (2 ^ 256 - 1).
Proof.
  induction gl as [|g gl IH]; intros a H.
  - simpl. lia.
  - apply Forall_cons in H as [Hg H]. cbn [fold_left length].
    destruct (IH (a + g) H). rewrite Nat2Z.inj_succ. lia.
Qed.

Lemma gas_summary_ok gl :
  Forall (fun g => 0 < g < 2 ^ 256) gl ->
  gas_summary gl =
    Ok match gl with
       | [] => None
       | g :: gs =>
         Some (fold_left Z.min gs g, fold_left Z.max gs g,
               SFdiv 53 1024 (exact (fold_left Z.add (g :: gs) 0))
                             (exact (Z.of_nat (length (g :: gs)))))
       end.
Proof.
  intros H. destruct gl as [|g gs]; [done|]. unfold gas_summary, truediv_int.
  pose proof (fold_add_bound (g :: gs) 0 H) as Hb.
  set (n := Z.of_nat (length (g :: gs))) in *.
  set (sum := fold_left Z.add (g :: gs) 0) in *.
  assert (Hn : 1 <= n) by (subst n; simpl; lia).
  pose proof float_limit_large as HL.
  destruct (Z.eqb_spec n 0); [lia|].
  destruct (Z.leb_spec (float_limit * Z.abs n) (Z.abs sum)); [nia | done].
Qed.

End SortFacts.

Section SummaryFacts.
Import Py Props ExtractAll.

Lemma gas_list_range es :
  Forall (fun e => gas_used e < 2 ^ 256) es ->
  Forall (fun g => 0 < g < 2 ^ 256)
         (List.filter (fun g => 0 <? g) (map gas_used es)).
Proof.
  intros H. apply Forall_forall. intros g Hg.
  apply list_elem_of_In, filter_In in Hg as [Hin Hpos].
  apply in_map_iff in Hin as (e & <- & He).
  apply list_elem_of_In in He. rewrite Forall_forall in H.
  specialize (H e He). cbv beta in H. apply Z.ltb_lt in Hpos. by split.
Qed.

(** On a non-empty group of bounded size and bounded gas [summarize]
    returns the row that describes the group. *)
Lemma summarize_ok impl t es :
  es <> [] -> Z.of_nat (length es) < 2 ^ 53 ->
  Forall (fun e => gas_used e < 2 ^ 256) es ->
  exists r, summarize impl t es = Ok r /\ row_token r = t /\
            describes impl es r.
Proof.
  intros Hne Hlen Hgas. destruct es as [|e es']; [done|].
  unfold summarize, describes. cbn [map].
  assert (Hl : length (amount e :: map amount es') = length (e :: es'))
    by (simpl; by rewrite List.length_map).
  rewrite Hl.
  destruct (float_of_int_small (Z.of_nat (length (e :: es'))))
    as (Hf & m & x & Hm); [cbn [length] in *; lia|].
  rewrite Hf. cbn [mbind result_bind]. unfold truediv_float. rewrite Hm.
  cbn [mbind result_bind].
  pose proof (gas_summary_ok _ (gas_list_range _ Hgas)) as Hg.
  cbn [map] in Hg. rewrite Hg.
  cbn [mbind result_bind]. eexists. split; [reflexivity|].
  cbn [row_token row_count loan_min loan_max loan_avg gas_figures].
  by repeat split.
Qed.



Lemma events_of_length t events :
  (length (events_of t events) <= length events)%nat.
Proof. apply length_filter. Qed.

Lemma events_of_gas t events :
  Forall (fun e => gas_used e < 2 ^ 256) events ->
  Forall (fun e => gas_used e < 2 ^ 256) (events_of t events).
Proof.
  rewrite !Forall_forall. intros H e He.
  apply list_elem_of_filter in He as [_ He]. by apply H.
Qed.

Lemma summary_rows impl events :
  Z.of_nat (length events) < 2 ^ 53 ->
  Forall (fun e => gas_used e < 2 ^ 256) events ->
  exists rows,
    summary impl events = Ok rows /\
    Forall2 (row_of impl events) (take 15 (sorted (by_token events))) rows.
Proof.
  intros Hlen Hgas. unfold summary. apply mapM_total.
  apply Forall_forall. intros [t es] Hin.
  apply subseteq_take in Hin. rewrite sorted_perm in Hin.
  apply by_token_group in Hin as [-> Hne].
  pose proof (events_of_length t events).
  destruct (summarize_ok impl t (events_of t events) Hne ltac:(lia)
              (events_of_gas t events Hgas)) as (r & Hr & Ht & Hd).
  exists r. by repeat split.
Qed.

End SummaryFacts.

(** ** The claim about the summary by token *)

Section SummaryClaims.
Import Py Props Samples ExtractAll.




Lemma top_keys_NoDup events :
  NoDup (map fst (take 15 (sorted (by_token events)))).
Proof.
  assert (H : NoDup (map fst (sorted (by_token events)))).
  { rewrite (Permutation_map fst (sorted_perm (by_token events))).
    apply NoDup_keys_by_token. }
  rewrite <- (take_drop 15 (sorted (by_token events))), map_app in H.
  by apply NoDup_app in H as (H & _).
Qed.





End SummaryClaims.

(** ** The client configuration *)

Section ConfigFacts.
Import Py Config.

Lemma present_Some (o : option string) :
  ExtractAll.present o = true -> exists s, o = Some s /\ s <> ""%string.
Proof.
  destruct o as [s|]; [|discriminate]. simpl.
  destruct (String.eqb_spec s ""); [discriminate|]. eauto.
Qed.

Lemma present_true (s : string) :
  s <> ""%string -> ExtractAll.present (Some s) = true.
Proof. intros H. simpl. by destruct (String.eqb_spec s ""). Qed.

(** X1.  The bearer token sent to the service is never the empty string.
    It is the value of [ENVIO_API_KEY] when that is set and not empty,
    otherwise the value of [ENVIO_API_TOKEN] when that is set and not
    empty; otherwise the client is configured without a token.  The URL
    is the same in every case. *)
Theorem X1_bearer_token (environ : gmap string string) (t : string) :
  (bearer_token (client_config environ) = Some t <->
   t <> ""%string /\
   (environ !! "ENVIO_API_KEY"%string = Some t \/
    ((environ !! "ENVIO_API_KEY"%string = None \/
      environ !! "ENVIO_API_KEY"%string = Some ""%string) /\
     environ !! "ENVIO_API_TOKEN"%string = Some t))) /\
  url (client_config environ) = "https://eth.hypersync.xyz"%string.
Proof.
  split; [|unfold client_config; by destruct (negb _)].
  unfold client_config, or_str.
  destruct (ExtractAll.present (environ !! "ENVIO_API_KEY"%string)) eqn:Hk.
  - rewrite Hk. cbn [negb bearer_token].
    apply present_Some in Hk as (k & Hk & Hne). rewrite Hk. split.
    + intros [= ->]. split; [done | by left].
    + intros (_ & [H | [[[=] | [= ->]] _]]); done.
  - destruct (ExtractAll.present (environ !! "ENVIO_API_TOKEN"%string))
      eqn:Ht; cbn [negb bearer_token].
    + apply present_Some in Ht as (k & Ht & Hne). rewrite Ht. split.
      * intros [= ->]. split; [done|]. right. split; [|done].
        destruct (environ !! "ENVIO_API_KEY"%string) as [s|]; [|by left].
        right. f_equal. simpl in Hk.
        by destruct (String.eqb_spec s ""); [|discriminate].
      * intros (Hne' & [H | [_ H]]); [|done].
        by rewrite H, present_true in Hk.
    + split; [discriminate|]. intros (Hne & [H | [_ H]]).
      * by rewrite H, present_true in Hk.
      * by rewrite H, present_true in Ht.
Qed.

End ConfigFacts.

(** ** The progress line and the loop behind it *)

Section ProgressFacts.
Import Py Hypersync Harvest Props Laws ExtractAll.

Lemma truediv_int_self a : 0 < a -> truediv_int a a = Ok (float_of_Z 1).
Proof.
  intros Ha. unfold truediv_int.
  destruct (Z.eqb_spec a 0) as [|_]; [lia|].
  pose proof float_limit_large as HL.
  assert (1 < 2 ^ 256) by (apply Z.pow_gt_1; lia).
  destruct (Z.leb_spec (float_limit * Z.abs a) (Z.abs a)) as [Hle|_]; [nia|].
  f_equal. destruct a as [|p|p]; try lia. cbn [exact].
  apply (SFdiv_exact p 0 p 0 1); [reflexivity|].
  rewrite Z.min_id, Z.sub_diag. lia.
Qed.

Lemma truediv_int_zero b : 0 < b -> truediv_int 0 b = Ok (S754_zero false).
Proof.
  intros Hb. unfold truediv_int.
  destruct (Z.eqb_spec b 0) as [|_]; [lia|].
  pose proof float_limit_large as HL.
  assert (1 < 2 ^ 256) by (apply Z.pow_gt_1; lia).
  destruct (Z.leb_spec (float_limit * Z.abs b) (Z.abs 0)) as [Hle|_]; [nia|].
  by destruct b.
Qed.

Lemma truediv_int_small a b :
  Z.abs a < 2 ^ 256 -> b <> 0 ->
  truediv_int a b = Ok (SFdiv 53 1024 (exact a) (exact b)).
Proof.
  intros Ha Hb. unfold truediv_int.
  destruct (Z.eqb_spec b 0) as [|_]; [lia|].
  pose proof float_limit_large as HL.
  destruct (Z.leb_spec (float_limit * Z.abs b) (Z.abs a)) as [Hle|_]; [nia|].
  done.
Qed.

(** X2.  The progress figure never divides by zero.  It is the integer
    100 when the target is not above the first block asked for;
    otherwise it is 0.0 as long as the cursor stands on that block and
    exactly 100.0 when the cursor stands on the target. *)
Theorem X2_progress_edges (from_block : Z) (to_block : option Z)
    (res : QueryResponse) :
  let target := or_int to_block (archive_height res) in
  progress from_block to_block res <> Raise ZeroDivisionError /\
  (target <= from_block ->
   progress from_block to_block res = Ok (NInt 100)) /\
  (from_block < target -> next_block res = from_block ->
   progress from_block to_block res = Ok (NFloat (S754_zero false))) /\
  (from_block < target -> next_block res = target ->
   progress from_block to_block res = Ok (NFloat float_100)).
Proof.
  intros target. unfold progress. fold target.
  split; [|split; [|split]].
  - destruct (Z.ltb_spec from_block target) as [Hlt|_]; [|discriminate].
    unfold truediv_int.
    destruct (Z.eqb_spec (target - from_block) 0) as [|_]; [lia|].
    destruct (_ <=? _); discriminate.
  - intros Hle. by destruct (Z.ltb_spec from_block target) as [|_]; [lia|].
  - intros Hlt ->. destruct (Z.ltb_spec from_block target) as [_|]; [|lia].
    rewrite Z.sub_diag, truediv_int_zero by lia. reflexivity.
  - intros Hlt ->. destruct (Z.ltb_spec from_block target) as [_|]; [|lia].
    rewrite truediv_int_self by lia. cbn [mbind result_bind].
    do 2 f_equal.
Qed.

Lemma X2_progress_witness :
  progress 100 (Some 200)
    {| logs := []; transactions := []; next_block := 200;
       archive_height := 1000 |}
  = Ok (NFloat float_100).
Proof.
  destruct (X2_progress_edges 100 (Some 200)
              {| logs := []; transactions := []; next_block := 200;
                 archive_height := 1000 |}) as (_ & _ & _ & H).
  apply H; [simpl; lia | reflexivity].
Defined.

Lemma progress_u64 from_block to_block res :
  0 <= from_block < 2 ^ 64 -> 0 <= next_block res < 2 ^ 64 ->
  exists pct, progress from_block to_block res = Ok pct.
Proof.
  intros Hf Hn. unfold progress.
  destruct (Z.ltb_spec from_block (or_int to_block (archive_height res)));
    [|eauto].
  rewrite truediv_int_small; [cbn [mbind result_bind]; eauto | | lia].
  assert (2 ^ 64 < 2 ^ 256) by (apply Z.pow_lt_mono_r; lia). lia.
Qed.

Lemma query_loop_u64 c start to_block :
  u64_service c -> 0 <= start < 2 ^ 64 ->
  forall fuel calls q all_logs all_txs,
  query_loop fuel c start to_block calls q all_logs all_txs
  = harvest_loop index_page fuel c to_block calls q all_logs all_txs.
Proof.
  intros Hc Hs. induction fuel as [|fuel IH]; intros calls q all_logs all_txs;
    [done|]. cbn [query_loop harvest_loop].
  destruct (c calls q to_block) as [res|] eqn:Hres; [|done].
  destruct (Hc _ _ _ _ Hres) as [Hn _].
  destruct (progress_u64 start to_block res Hs Hn) as [pct ->].
  unfold index_page. by rewrite IH.
Qed.

(** X3.  Against a service whose block numbers fit in 64 bits, and from
    a first block that does, the progress line raises nothing:
    [query_flashloans] returns, fails or keeps running exactly as the
    loop without the line.  A next block beyond the range of floats, on
    the other hand, makes the progress line raise [OverflowError] where
    the loop without it returns. *)
Theorem X3_progress_line_harmless (fuel : nat) (c : client) (from_block : Z)
    (to_block : option Z) :
  (u64_service c -> 0 <= from_block < 2 ^ 64 ->
   query_flashloans fuel c from_block to_block
   = harvest index_page fuel c from_block to_block) /\
  query_flashloans 1 far_client 0 (Some 1) = Failed OverflowError /\
  harvest index_page 1 far_client 0 (Some 1) = Returned ([], ∅).
Proof.
  split; [|split].
  - intros Hc Hs. unfold query_flashloans, harvest.
    by rewrite query_loop_u64.
  - vm_compute. reflexivity.
  - reflexivity.
Qed.

Lemma capped_client_u64 : u64_service capped_client.
Proof. intros n q to_block res [= <-]. simpl. lia. Qed.

Lemma X3_progress_line_witness :
  query_flashloans 5 capped_client 0 (Some 3)
  = harvest index_page 5 capped_client 0 (Some 3).
Proof.
  destruct (X3_progress_line_harmless 5 capped_client 0 (Some 3)) as [H _].
  apply H; [exact capped_client_u64 | lia].
Defined.

End ProgressFacts.

(** ** Further facts about the harvest loop *)

Section HarvestMore.
Import Py Hypersync Harvest Props Laws.

(** X4.  In the three scripts the logs returned are the logs of the
    pages received, page after page in the order of the requests and
    within a page in the order of the page: no log is dropped, repeated
    or moved. *)
Theorem X4_logs_in_arrival_order (fuel : nat) (c : client) (from_block : Z)
    (to_block : option Z) (l : list Log) (t : gmap pyval Transaction) :
  ExtractAll.query_flashloans fuel c from_block to_block = Returned (l, t) \/
  QueryAll.query_flashloans fuel c from_block to_block = Returned (l, t) \/
  QueryBalancer.query_flashloans fuel c from_block to_block
  = Returned (l, t) ->
  l = concat (map logs (fetched fuel c to_block 0 from_block)).
Proof.
  intros [H|[H|H]]; [apply query_flashloans_harvest in H| |];
    by apply harvest_logs in H.
Qed.

Lemma X4_logs_witness :
  fetched 5 two_page_client (Some 10) 0 0
  = [{| logs := [Samples.usdc_log]; transactions := [Samples.anonymous_tx];
        next_block := 5; archive_height := 10 |};
     {| logs := [Samples.bare_log]; transactions := [Samples.anonymous_tx];
        next_block := 10; archive_height := 10 |}] /\
  [Samples.usdc_log; Samples.bare_log]
  = concat (map logs (fetched 5 two_page_client (Some 10) 0 0)).
Proof.
  split; [reflexivity|].
  apply (X4_logs_in_arrival_order 5 two_page_client 0 (Some 10)
           [Samples.usdc_log; Samples.bare_log] ∅).
  left. reflexivity.
Defined.

Lemma harvest_loop_service index fuel c to_block :
  forall calls from_block all_logs all_txs,
  (forall m txs, index m txs <> Raise ServiceUnavailable) ->
  harvest_loop index fuel c to_block calls from_block all_logs all_txs
    = Failed ServiceUnavailable ->
  exists n q, c n q to_block = None.
Proof.
  induction fuel as [|fuel IH]; intros calls q all_logs all_txs Hi; simpl.
  - discriminate.
  - destruct (c calls q to_block) as [res|] eqn:Hc; [|eauto].
    destruct (index all_txs (transactions res)) as [m|e] eqn:He.
    + destruct (or_int to_block (archive_height res) <=? next_block res);
        [discriminate | by apply IH].
    + intros [= ->]. by destruct (Hi _ _ He).
Qed.

Lemma harvest_failed index fuel c from_block to_block e :
  harvest index fuel c from_block to_block = Failed e ->
  harvest_loop index fuel c to_block 0 from_block [] ∅ = Failed e.
Proof.
  unfold harvest.
  by destruct (harvest_loop index fuel c to_block 0 from_block [] ∅);
    simpl; intros [= ->].
Qed.

(** What makes the loop of [extract_all_flashloans.py] fail: a failed
    request, or a page whose next block is so far from the first block
    asked for that the progress figure is beyond the range of floats. *)
Lemma query_loop_failure fuel c start to_block :
  forall calls from_block all_logs all_txs e,
  ExtractAll.query_loop fuel c start to_block calls from_block
    all_logs all_txs = Failed e ->
  (e = ServiceUnavailable /\ exists n q, c n q to_block = None) \/
  (e = OverflowError /\
   exists n q res,
     c n q to_block = Some res /\
     start < or_int to_block (archive_height res) /\
     float_limit * (or_int to_block (archive_height res) - start)
       <= Z.abs (next_block res - start)).
Proof.
  induction fuel as [|fuel IH]; intros calls q all_logs all_txs e;
    cbn [ExtractAll.query_loop]; [done|].
  destruct (c calls q to_block) as [res|] eqn:Hc.
  - unfold index_page.
    destruct (ExtractAll.progress start to_block res) as [pct|e'] eqn:Hp.
    + destruct (or_int to_block (archive_height res) <=? next_block res);
        [done | apply IH].
    + intros [= <-]. right.
      apply progress_raise in Hp as (-> & Hlt & Hle). split; [done|].
      by exists calls, q, res.
  - intros [= <-]. left. split; [done|]. by exists calls, q.
Qed.

(** X5.  The loop of [query_all_flashloans.py] raises nothing of its
    own: when [query_flashloans] fails, a request to the service has
    failed and the exception is the one of that request.  The loop of
    [extract_all_flashloans.py] fails in that way or, with
    [OverflowError], on a page whose next block is so far from the
    first block asked for that the progress figure is beyond the range
    of floats.  When the first request fails, so does the harvest. *)
Theorem X5_only_the_service_fails (fuel : nat) (c : client) (from_block : Z)
    (to_block : option Z) :
  (forall e,
     QueryAll.query_flashloans fuel c from_block to_block = Failed e ->
     e = ServiceUnavailable /\ exists n q, c n q to_block = None) /\
  (forall e,
     ExtractAll.query_flashloans fuel c from_block to_block = Failed e ->
     (e = ServiceUnavailable /\ exists n q, c n q to_block = None) \/
     (e = OverflowError /\
      exists n q res,
        c n q to_block = Some res /\
        from_block < or_int to_block (archive_height res) /\
        float_limit * (or_int to_block (archive_height res) - from_block)
          <= Z.abs (next_block res - from_block))) /\
  (c 0%nat from_block to_block = None ->
   ExtractAll.query_flashloans (S fuel) c from_block to_block
   = Failed ServiceUnavailable /\
   QueryAll.query_flashloans (S fuel) c from_block to_block
   = Failed ServiceUnavailable).
Proof.
  split; [|split].
  - intros e H. apply harvest_failed in H.
    assert (He : e = ServiceUnavailable).
    { apply harvest_loop_failed in H as [H | (m & txs & H)];
        [done | discriminate]. }
    split; [exact He|]. subst e.
    eapply harvest_loop_service; [|exact H]. discriminate.
  - intros e H. unfold ExtractAll.query_flashloans in H.
    destruct (ExtractAll.query_loop fuel c from_block to_block 0 from_block
                [] ∅) as [r|e'|] eqn:Hq; [discriminate| |discriminate].
    injection H as ->. by apply query_loop_failure in Hq.
  - intros Hc.
    unfold ExtractAll.query_flashloans, QueryAll.query_flashloans, harvest.
    simpl. by rewrite Hc.
Qed.

Lemma X5_service_witness :
  ExtractAll.query_flashloans 5 failing_client 0 (Some 100)
    = Failed ServiceUnavailable /\
  (ServiceUnavailable = ServiceUnavailable /\
   exists n q, failing_client n q (Some 100) = None).
Proof.
  split; [vm_compute; reflexivity|].
  destruct (X5_only_the_service_fails 5 failing_client 0 (Some 100))
    as (_ & H & _).
  destruct (H ServiceUnavailable) as [Hs|[Ho _]].
  - vm_compute. reflexivity.
  - exact Hs.
  - discriminate Ho.
Defined.

Lemma index_unguarded_raise txs : forall m e,
  index_page_unguarded m txs = Raise e ->
  e = AttributeError /\ exists tx, tx ∈ txs /\ hash tx = None.
Proof.
  induction txs as [|tx txs IH]; intros m e; simpl; [discriminate|].
  destruct (hash tx) as [h|] eqn:Hh.
  - intros H. apply IH in H as (-> & tx' & Hin & Hn).
    split; [done|]. exists tx'. split; [by apply elem_of_cons; right | done].
  - intros [= <-]. split; [done|]. exists tx.
    split; [by apply elem_of_cons; left | done].
Qed.

Lemma index_unguarded_hashless txs : forall m tx,
  tx ∈ txs -> hash tx = None ->
  index_page_unguarded m txs = Raise AttributeError.
Proof.
  induction txs as [|tx' txs IH]; intros m tx Hin Hn.
  - by apply elem_of_nil in Hin.
  - simpl. apply elem_of_cons in Hin as [<-|Hin]; [by rewrite Hn|].
    destruct (hash tx'); [by eapply IH | done].
Qed.

Lemma index_unguarded_hashes txs : forall m m',
  index_page_unguarded m txs = Ok m' ->
  Forall (fun tx => is_Some (hash tx)) txs.
Proof.
  induction txs as [|tx txs IH]; intros m m'; simpl; [constructor|].
  destruct (hash tx) as [h|] eqn:Hh; [|discriminate].
  intros H. constructor; [by rewrite Hh | by eapply IH].
Qed.

(** X6.  The loop of [query_balancer_flashloans.py] reads [tx.hash]
    without a test.  A record without that attribute on the first page
    makes the harvest raise [AttributeError]; every harvest that returns
    has received only records that carry the attribute; and the only
    exceptions of the harvest are this one and the one of a failed
    request. *)
Theorem X6_unguarded_hash (fuel : nat) (c : client) (from_block : Z)
    (to_block : option Z) :
  (forall res tx,
     c 0%nat from_block to_block = Some res -> tx ∈ transactions res ->
     hash tx = None ->
     QueryBalancer.query_flashloans (S fuel) c from_block to_block
     = Failed AttributeError) /\
  (forall l t,
     QueryBalancer.query_flashloans fuel c from_block to_block
     = Returned (l, t) ->
     Forall (fun tx => is_Some (hash tx))
            (seen fuel c from_block to_block)) /\
  (forall e,
     QueryBalancer.query_flashloans fuel c from_block to_block = Failed e ->
     e = ServiceUnavailable \/ e = AttributeError).
Proof.
  split; [|split].
  - intros res tx Hc Hin Hn.
    unfold QueryBalancer.query_flashloans, harvest. simpl. rewrite Hc.
    by rewrite (index_unguarded_hashless _ _ _ Hin Hn).
  - intros l t H. apply harvest_returned in H as [n H].
    apply harvest_loop_returned in H as (_ & _ & H).
    rewrite index_pages_unguarded in H.
    by apply index_unguarded_hashes in H.
  - intros e H. apply harvest_failed in H.
    apply harvest_loop_failed in H as [H | (m & txs & H)]; [by left|].
    right. by apply index_unguarded_raise in H as [-> _].
Qed.

Lemma X6_unguarded_witness :
  QueryBalancer.query_flashloans 3 hashless_client 0 (Some 5)
    = Failed AttributeError /\
  ExtractAll.query_flashloans 3 hashless_client 0 (Some 5)
    = Returned ([Samples.usdc_log],
                {[ PyStr "0xaa" := Samples.tx_early ]}).
Proof.
  split; [|reflexivity].
  destruct (X6_unguarded_hash 2 hashless_client 0 (Some 5)) as [H _].
  apply (H _ hashless_tx eq_refl); [|reflexivity].
  apply elem_of_cons. right. apply elem_of_cons. by left.
Defined.

(** X7.  After a harvest of [query_balancer_flashloans.py] every record
    received has an entry under its hash, whatever the hash ([None] and
    the empty string are keys like any other), and every entry is a
    record received, stored under its own hash. *)
Theorem X7_unguarded_index (fuel : nat) (c : client) (from_block : Z)
    (to_block : option Z) (l : list Log) (t : gmap pyval Transaction) :
  QueryBalancer.query_flashloans fuel c from_block to_block
  = Returned (l, t) ->
  (forall tx, tx ∈ seen fuel c from_block to_block ->
     exists k, hash tx = Some k /\ is_Some (t !! k)) /\
  (forall k tx, t !! k = Some tx ->
     hash tx = Some k /\ tx ∈ seen fuel c from_block to_block).
Proof.
  intros H. split.
  - intros tx Hin.
    assert (Hall : Forall (fun tx => is_Some (hash tx))
                     (seen fuel c from_block to_block)).
    { apply harvest_returned in H as [n H].
      apply harvest_loop_returned in H as (_ & _ & H).
      rewrite index_pages_unguarded in H.
      by apply index_unguarded_hashes in H. }
    rewrite Forall_forall in Hall. destruct (Hall tx Hin) as [k Hk].
    exists k. split; [done|].
    rewrite (unguarded_harvest_lookup _ _ _ _ _ _ k H).
    assert (Hf : tx ∈ filter (filed_under k)
                   (seen fuel c from_block to_block))
      by (by apply list_elem_of_filter).
    destruct (filter _ _) as [|x xs] eqn:Hx using rev_ind;
      [by apply elem_of_nil in Hf|].
    rewrite last_snoc. eauto.
  - intros k tx Hk.
    rewrite (unguarded_harvest_lookup _ _ _ _ _ _ k H) in Hk.
    by apply last_Some_elem_of, list_elem_of_filter in Hk as [Hh Hin].
Qed.

Lemma X7_unguarded_witness :
  exists t,
    QueryBalancer.query_flashloans 1 Samples.anonymous_client 0 (Some 5)
    = Returned ([Samples.usdc_log], t) /\
    is_Some (t !! PyNone).
Proof.
  exists {[ PyNone := Samples.anonymous_tx ]}. split; [reflexivity|].
  destruct (X7_unguarded_index 1 Samples.anonymous_client 0 (Some 5)
              [Samples.usdc_log] {[ PyNone := Samples.anonymous_tx ]}
              eq_refl) as [H _].
  destruct (H Samples.anonymous_tx) as (k & Hk & Hs).
  - apply elem_of_cons. by left.
  - injection Hk as <-. exact Hs.
Defined.

End HarvestMore.

(** ** What [int(s, 16)] accepts and what it returns *)

Section IntMore.
Import Py Props Laws.

Lemma hex_digit_readable c d : hex_digit c = Some d -> unreadable c = false.
Proof. unfold unreadable, is_hex. by intros ->. Qed.

Lemma space_readable c : is_space c = true -> unreadable c = false.
Proof. unfold unreadable. intros ->. by rewrite andb_false_r. Qed.

Lemma eqb_readable c (k : ascii) :
  In k ["_"; "+"; "-"; "x"; "X"]%char -> Ascii.eqb c k = true ->
  unreadable c = false.
Proof.
  intros Hk Hc. apply Ascii.eqb_eq in Hc. subst c. simpl in Hk.
  destruct Hk as [<-|[<-|[<-|[<-|[<-|[]]]]]]; reflexivity.
Qed.

Lemma forallb_space_readable cs :
  forallb is_space cs = true -> Forall (fun c => unreadable c = false) cs.
Proof.
  intros H. apply Forall_forall. intros c Hc.
  apply space_readable. rewrite forallb_forall in H.
  by apply H, list_elem_of_In.
Qed.

Lemma hex_digits_outcome n : forall cs acc,
  (length cs <= n)%nat -> 0 <= acc ->
  match hex_digits acc cs with
  | Ok z => 0 <= z < (acc + 1) * 16 ^ Z.of_nat (length cs) /\
            Forall (fun c => unreadable c = false) cs
  | Raise e => e = ValueError
  end.
Proof.
  induction n as [|n IH]; intros cs acc Hl Ha.
  - destruct cs; [|simpl in Hl; lia]. simpl. split; [lia | constructor].
  - destruct cs as [|c cs]; [simpl; split; [lia | constructor]|].
    cbn [hex_digits length]. cbn [length] in Hl.
    assert (Hp : 0 < 16 ^ Z.of_nat (length cs))
      by (apply Z.pow_pos_nonneg; lia).
    rewrite Nat2Z.inj_succ, Z.pow_succ_r by lia.
    destruct (hex_digit c) as [d|] eqn:Hd.
    + pose proof (hex_digit_range c d Hd) as Hr.
      specialize (IH cs (16 * acc + d) ltac:(lia) ltac:(lia)).
      destruct (hex_digits (16 * acc + d) cs) as [z|e]; [|done].
      destruct IH as [Hz Hall]. split; [nia|].
      constructor; [by eapply hex_digit_readable | done].
    + destruct (Ascii.eqb c "_") eqn:Hu.
      * destruct cs as [|c2 cs2]; [done|].
        destruct (hex_digit c2) as [d|] eqn:Hd2; [|done].
        pose proof (hex_digit_range c2 d Hd2) as Hr.
        cbn [length] in Hl, Hp |- *.
        specialize (IH cs2 (16 * acc + d) ltac:(lia) ltac:(lia)).
        destruct (hex_digits (16 * acc + d) cs2) as [z|e]; [|done].
        destruct IH as [Hz Hall].
        assert (Hp2 : 0 < 16 ^ Z.of_nat (length cs2))
          by (apply Z.pow_pos_nonneg; lia).
        rewrite Nat2Z.inj_succ, Z.pow_succ_r by lia. split; [nia|].
        constructor; [eapply eqb_readable; [|exact Hu]; simpl; tauto|].
        constructor; [by eapply hex_digit_readable | done].
      * destruct (forallb is_space (c :: cs)) eqn:Hs; [|done].
        split; [nia | by apply forallb_space_readable].
Qed.

Lemma hex_body_outcome (body : list ascii) (n : nat) :
  (length body <= n)%nat ->
  int_outcome (16 ^ Z.of_nat n) body
    match body with
    | c :: cs' =>
      match hex_digit c with
      | Some d => hex_digits d cs'
      | None => Raise ValueError
      end
    | [] => Raise ValueError
    end.
Proof.
  intros Hl. destruct body as [|c cs]; [done|].
  destruct (hex_digit c) as [d|] eqn:Hd; [|done].
  pose proof (hex_digit_range c d Hd) as Hr.
  pose proof (hex_digits_outcome (length cs) cs d (le_n _) ltac:(lia)) as H.
  unfold int_outcome. destruct (hex_digits d cs) as [z|e]; [|done].
  destruct H as [Hz Hall]. cbn [length] in Hl. split.
  - assert (Hp : 0 < 16 ^ Z.of_nat (length cs))
      by (apply Z.pow_pos_nonneg; lia).
    assert (Hn : 16 ^ Z.succ (Z.of_nat (length cs)) <= 16 ^ Z.of_nat n)
      by (apply Z.pow_le_mono_r; lia).
    rewrite Z.pow_succ_r in Hn by lia.
    assert ((d + 1) * 16 ^ Z.of_nat (length cs)
            <= 16 * 16 ^ Z.of_nat (length cs)) by nia.
    lia.
  - constructor; [by eapply hex_digit_readable | done].
Qed.

Lemma int_outcome_cons n c cs r :
  unreadable c = false -> int_outcome n cs r -> int_outcome n (c :: cs) r.
Proof.
  unfold int_outcome. destruct r; [|done].
  intros Hc [Hz Hall]. split; [done | by constructor].
Qed.

Lemma hex_literal_outcome cs (n : nat) :
  (length cs <= n)%nat -> int_outcome (16 ^ Z.of_nat n) cs (hex_literal cs).
Proof.
  intros Hl. unfold hex_literal.
  destruct cs as [|z [|x rest]];
    [by apply (hex_body_outcome [] n) | by apply (hex_body_outcome [z] n) |].
  destruct (Ascii.eqb z "0" && (Ascii.eqb x "x" || Ascii.eqb x "X")) eqn:Hp;
    [|by apply (hex_body_outcome (z :: x :: rest) n)].
  apply andb_true_iff in Hp as [Hz Hx].
  assert (Hrz : unreadable z = false)
    by (apply Ascii.eqb_eq in Hz; subst z; reflexivity).
  assert (Hrx : unreadable x = false).
  { apply orb_true_iff in Hx as [Hx|Hx];
      (eapply eqb_readable; [|exact Hx]); simpl; tauto. }
  cbn [length] in Hl. do 2 (apply int_outcome_cons; [done|]).
  destruct rest as [|u rest']; [apply (hex_body_outcome [] n); simpl; lia|].
  cbn [length] in Hl.
  destruct (Ascii.eqb u "_") eqn:Hu.
  - apply int_outcome_cons;
      [eapply eqb_readable; [|exact Hu]; simpl; tauto|].
    apply (hex_body_outcome rest' n). lia.
  - apply (hex_body_outcome (u :: rest') n). cbn [length]. lia.
Qed.

Lemma skip_spaces_outcome cs n r :
  int_outcome n (skip_spaces cs) r -> int_outcome n cs r.
Proof.
  induction cs as [|c cs IH]; simpl; [done|].
  destruct (is_space c) eqn:Hc; [|done].
  intros H. apply int_outcome_cons; [by apply space_readable | by apply IH].
Qed.

Lemma skip_spaces_length cs : (length (skip_spaces cs) <= length cs)%nat.
Proof.
  induction cs as [|c cs IH]; simpl; [done|].
  destruct (is_space c); simpl; lia.
Qed.

(** The value of [int(s, 16)] has a magnitude below [16^len(s)], no
    character of [s] being unreadable; the only exception is
    [ValueError]. *)
Lemma int16_outcome s :
  int_outcome (16 ^ Z.of_nat (length (chars s))) (chars s) (int16 s).
Proof.
  unfold int16. apply skip_spaces_outcome.
  pose proof (skip_spaces_length (chars s)) as Hl.
  destruct (skip_spaces (chars s)) as [|c cs]; [done|].
  cbn [length] in Hl.
  destruct (Ascii.eqb c "-") eqn:Hm; [|destruct (Ascii.eqb c "+") eqn:Hp].
  - apply int_outcome_cons;
      [eapply eqb_readable; [|exact Hm]; simpl; tauto|].
    pose proof (hex_literal_outcome cs (length (chars s)) ltac:(lia)) as H.
    unfold int_outcome in *. destruct (hex_literal cs) as [z|e]; [|done].
    cbn [mbind result_bind]. destruct H as [Hz Hall]. split; [lia | done].
  - apply int_outcome_cons;
      [eapply eqb_readable; [|exact Hp]; simpl; tauto|].
    apply hex_literal_outcome. lia.
  - apply hex_literal_outcome. cbn [length]. lia.
Qed.

Lemma int16_word_outcome a b d :
  (b - a <= 64)%nat ->
  int_outcome (2 ^ 256) (take (b - a) (drop a (chars d)))
              (int16 (slice a b d)).
Proof.
  intros Hab. pose proof (int16_outcome (slice a b d)) as H.
  unfold slice in *. rewrite chars_str in H.
  unfold int_outcome in *.
  destruct (int16 (str (take (b - a) (drop a (chars d))))) as [z|e]; [|done].
  destruct H as [Hz Hall]. split; [|done].
  eapply Z.lt_le_trans; [exact Hz|]. change (2 ^ 256) with (16 ^ 64).
  apply Z.pow_le_mono_r; [lia|]. rewrite length_take. lia.
Qed.

End IntMore.

(** ** Exceptions and bounds of [decode_flashloan_log] *)

Section DecodeMore.
Import Py Hypersync Harvest Props Laws ExtractAll.

Lemma present_len d : 66 <= len d -> present (Some d) = true.
Proof. destruct d; [unfold len; simpl; lia | done]. Qed.

Lemma decode_amounts_outcome data :
  match decode_amounts data with
  | Ok (a, f) => Z.abs a < 2 ^ 256 /\ Z.abs f < 2 ^ 256
  | Raise e => e = ValueError
  end.
Proof.
  assert (H0 : Z.abs 0 < 2 ^ 256) by (by apply Z.pow_pos_nonneg).
  unfold decode_amounts. destruct data as [d|]; [|done].
  destruct (present (Some d) && (66 <=? len d)); [|done].
  pose proof (int16_word_outcome 2 66 d ltac:(lia)) as H1.
  unfold int_outcome in H1.
  destruct (int16 (slice 2 66 d)) as [a|e]; [|done].
  cbn [mbind result_bind]. destruct H1 as [Ha _].
  destruct (130 <=? len d); [|done].
  pose proof (int16_word_outcome 66 130 d ltac:(lia)) as H2.
  unfold int_outcome in H2.
  destruct (int16 (slice 66 130 d)) as [f|e]; [|done].
  cbn [mbind result_bind]. by destruct H2 as [Hf _].
Qed.

Lemma decode_amounts_unreadable d c :
  66 <= len d -> unreadable c = true ->
  c ∈ take 64 (drop 2 (chars d)) \/
  (130 <= len d /\ c ∈ take 64 (drop 66 (chars d))) ->
  decode_amounts (Some d) = Raise ValueError.
Proof.
  intros Hl Hc Hin. unfold decode_amounts.
  rewrite present_len by done.
  destruct (Z.leb_spec 66 (len d)) as [_|]; [|lia]. cbn [andb].
  pose proof (int16_word_outcome 2 66 d ltac:(lia)) as H1.
  unfold int_outcome in H1.
  destruct (int16 (slice 2 66 d)) as [a|e]; [|by subst e].
  cbn [mbind result_bind]. destruct H1 as [_ H1].
  destruct Hin as [Hin | [Hl2 Hin]].
  { rewrite Forall_forall in H1. apply H1 in Hin. congruence. }
  destruct (Z.leb_spec 130 (len d)) as [_|]; [|lia].
  pose proof (int16_word_outcome 66 130 d ltac:(lia)) as H2.
  unfold int_outcome in H2.
  destruct (int16 (slice 66 130 d)) as [f|e]; [|by subst e].
  destruct H2 as [_ H2]. rewrite Forall_forall in H2.
  apply H2 in Hin. congruence.
Qed.

Lemma gas_field_raise a e : gas_field a = Raise e -> e = ValueError.
Proof.
  unfold gas_field. destruct a as [v|]; [|discriminate].
  destruct (truthy v); [|discriminate].
  destruct v as [|s|z]; try discriminate.
  pose proof (int16_outcome s) as H. unfold int_outcome in H.
  destruct (int16 s); [discriminate|]. by intros [= <-].
Qed.

Lemma decode_gas_raise tx e : decode_gas tx = Raise e -> e = ValueError.
Proof.
  unfold decode_gas. destruct tx as [tx|]; [|discriminate].
  destruct (gas_field (Hypersync.gas_used tx)) as [u|e1] eqn:H1;
    cbn [mbind result_bind].
  - destruct (gas_field (Hypersync.gas_price tx)) as [p|e2] eqn:H2;
      cbn [mbind result_bind]; [discriminate|].
    intros [= <-]. by eapply gas_field_raise.
  - intros [= <-]. by eapply gas_field_raise.
Qed.

Lemma float_1e9_finite :
  float_1e9 = S754_finite false 8388608000000000 (-23).
Proof. vm_compute. reflexivity. Qed.

Lemma gwei_raise n e :
  gwei n = Raise e -> e = OverflowError /\ float_limit <= Z.abs n.
Proof.
  unfold gwei, float_of_int. destruct (n =? 0); [discriminate|].
  destruct (Z.leb_spec float_limit (Z.abs n)) as [Hle|_].
  - cbn [mbind result_bind]. by intros [= <-].
  - cbn [mbind result_bind]. rewrite float_1e9_finite. discriminate.
Qed.

Lemma pow10_decimals dec : In dec [6; 8; 18] -> 1 <= 10 ^ dec.
Proof.
  simpl. intros [<-|[<-|[<-|[]]]]; vm_compute; discriminate.
Qed.

(** X9.  Whatever the payload, the two integers of a decoded event have
    a magnitude below [2^256] (each is read from at most 64 characters);
    they are not negative when the payload is well formed, and the fee is
    zero when the payload has fewer than 130 characters. *)
Theorem X9_amounts_bounded (log : Log) (txs : gmap pyval Transaction)
    (ev : Event) :
  decode_flashloan_log log txs = Ok ev ->
  Z.abs (amount_raw ev) < 2 ^ 256 /\ Z.abs (fee_raw ev) < 2 ^ 256 /\
  (hex_data (data log) = true -> 0 <= amount_raw ev /\ 0 <= fee_raw ev) /\
  (forall d, data log = Some d -> len d < 130 -> fee_raw ev = 0).
Proof.
  intros H. unfold decode_flashloan_log in H.
  destruct (token_of (topic log 2)) as [name dec].
  pose proof (decode_amounts_outcome (data log)) as Hb.
  destruct (decode_amounts (data log)) as [[a f]|] eqn:Ha; [|discriminate].
  cbn [mbind result_bind] in H.
  destruct (truediv_int a (10 ^ dec)) as [x|]; [|discriminate].
  cbn [mbind result_bind] in H.
  destruct (decode_gas (txs !! transaction_hash log)) as [[gu gp]|];
    [|discriminate].
  cbn [mbind result_bind] in H.
  destruct (gwei gp) as [g|]; [|discriminate].
  cbn [mbind result_bind] in H. inversion H; subst ev. clear H.
  cbn [amount_raw fee_raw]. destruct Hb as [Hba Hbf].
  split; [done|]. split; [done|]. split.
  - intros Hd. rewrite (decode_amounts_hex _ Hd) in Ha.
    injection Ha as <- <-.
    pose proof (hex_word_range 0 _ (hex_data_digits _ Hd)).
    pose proof (hex_word_range 1 _ (hex_data_digits _ Hd)). lia.
  - intros d Hd Hl. rewrite Hd in Ha. unfold decode_amounts in Ha.
    destruct (present (Some d) && (66 <=? len d)); [|by injection Ha].
    destruct (int16 (slice 2 66 d)); [|discriminate].
    cbn [mbind result_bind] in Ha.
    destruct (Z.leb_spec 130 (len d)); [lia | by injection Ha].
Qed.

Lemma X9_amounts_witness :
  exists ev, decode_flashloan_log Samples.usdc_log Samples.hex_txs = Ok ev /\
             Z.abs (amount_raw ev) < 2 ^ 256 /\ Z.abs (fee_raw ev) < 2 ^ 256.
Proof.
  destruct (decode_flashloan_log Samples.usdc_log Samples.hex_txs)
    as [ev|e] eqn:He; [| vm_compute in He; discriminate He].
  exists ev. split; [reflexivity|].
  destruct (X9_amounts_bounded _ _ _ He) as (Ha & Hf & _). by split.
Defined.

(** X10.  [decode_flashloan_log] of [extract_all_flashloans.py] raises
    [ValueError] (a field that [int] cannot read) or [OverflowError]
    (a gas price beyond the range of floats) and nothing else: the
    division of the amount neither overflows nor divides by zero, and no
    attribute or type error can occur. *)
Theorem X10_decode_exceptions (log : Log) (txs : gmap pyval Transaction)
    (e : exn) :
  decode_flashloan_log log txs = Raise e ->
  e = ValueError \/
  (e = OverflowError /\
   exists gu gp, decode_gas (txs !! transaction_hash log) = Ok (gu, gp) /\
                 float_limit <= Z.abs gp).
Proof.
  intros H. unfold decode_flashloan_log in H.
  pose proof (token_of_decimals (topic log 2)) as Hdec.
  destruct (token_of (topic log 2)) as [name dec]. cbn [snd] in Hdec.
  pose proof (decode_amounts_outcome (data log)) as Hb.
  destruct (decode_amounts (data log)) as [[a f]|e1];
    [|left; cbn [mbind result_bind] in H; congruence].
  cbn [mbind result_bind] in H. destruct Hb as [Hba _].
  pose proof (pow10_decimals dec Hdec) as Hp.
  rewrite truediv_int_small in H by lia.
  cbn [mbind result_bind] in H.
  destruct (decode_gas (txs !! transaction_hash log)) as [[gu gp]|e2] eqn:Hg.
  - cbn [mbind result_bind] in H.
    destruct (gwei gp) as [g|e3] eqn:Hw; [discriminate|].
    cbn [mbind result_bind] in H. injection H as <-.
    apply gwei_raise in Hw as [-> Hw]. right. split; [done|]. eauto.
  - cbn [mbind result_bind] in H. injection H as <-.
    left. by eapply decode_gas_raise.
Qed.

Lemma X10_decode_exceptions_witness :
  decode_flashloan_log Samples.garbled_log ∅ = Raise ValueError /\
  decode_flashloan_log Samples.usdc_log huge_gas_txs = Raise OverflowError /\
  exists gu gp,
    decode_gas (huge_gas_txs !! transaction_hash Samples.usdc_log)
    = Ok (gu, gp) /\ float_limit <= Z.abs gp.
Proof.
  split; [vm_compute; reflexivity|].
  assert (H : decode_flashloan_log Samples.usdc_log huge_gas_txs
              = Raise OverflowError) by (vm_compute; reflexivity).
  split; [exact H|].
  destruct (X10_decode_exceptions _ _ _ H) as [Hv | [_ Hg]];
    [discriminate Hv | exact Hg].
Defined.

Lemma mapM_raise {A B} (f : A -> result B) (xs : list A) x e :
  x ∈ xs -> f x = Raise e -> exists e', mapM f xs = Raise e'.
Proof.
  induction xs as [|y xs IH]; intros Hin Hf; [by apply elem_of_nil in Hin|].
  simpl. destruct (f y) as [b|e1] eqn:Hy; [|by exists e1].
  cbn [mbind result_bind].
  apply elem_of_cons in Hin as [->|Hin]; [congruence|].
  destruct (IH Hin Hf) as [e' ->]. by exists e'.
Qed.

(** X11.  A payload of at least 66 characters whose first word (or
    whose second word, when there are 130 characters) holds a character
    that is no hexadecimal digit, no white space, no underscore, no sign
    and no [x] makes the decoding raise [ValueError]; and one such log
    among those handed to [main] makes the decoding of the whole list
    raise, so that no event is exported. *)
Theorem X11_unreadable_data (log : Log) (txs : gmap pyval Transaction)
    (d : string) (c : ascii) :
  data log = Some d -> 66 <= len d -> unreadable c = true ->
  c ∈ take 64 (drop 2 (chars d)) \/
  (130 <= len d /\ c ∈ take 64 (drop 66 (chars d))) ->
  decode_flashloan_log log txs = Raise ValueError /\
  forall logs, log ∈ logs -> exists e, decode_all logs txs = Raise e.
Proof.
  intros Hd Hl Hc Hin.
  assert (H : decode_flashloan_log log txs = Raise ValueError).
  { unfold decode_flashloan_log.
    destruct (token_of (topic log 2)) as [name dec].
    by rewrite Hd, (decode_amounts_unreadable d c Hl Hc Hin). }
  split; [exact H|]. intros logs Hlog. unfold decode_all.
  by eapply mapM_raise.
Qed.

Lemma X11_unreadable_witness :
  decode_flashloan_log Samples.garbled_log Samples.hex_txs = Raise ValueError /\
  exists e,
    decode_all [Samples.usdc_log; Samples.garbled_log; Samples.bare_log]
               Samples.hex_txs = Raise e.
Proof.
  destruct (X11_unreadable_data Samples.garbled_log Samples.hex_txs
    "0x00000000000000000000000000000000000000000000000000000000000g4240"
    "g") as [H1 H2].
  - reflexivity.
  - vm_compute. discriminate.
  - reflexivity.
  - left. apply (bool_decide_unpack _). vm_compute. exact I.
  - split; [exact H1|]. apply H2.
    apply elem_of_cons. right. apply elem_of_cons. by left.
Defined.

End DecodeMore.

(** ** Names and addresses of a decoded event *)

Section NameFacts.
Import Py Hypersync Harvest Props Laws ExtractAll.

Lemma chars_app s1 s2 :
  chars (s1 ++ s2)%string = (chars s1 ++ chars s2)%list.
Proof. induction s1 as [|c s1 IH]; simpl; [done | by rewrite IH]. Qed.

Lemma str_app l1 l2 : str (l1 ++ l2)%list = (str l1 ++ str l2)%string.
Proof. induction l1 as [|c l1 IH]; simpl; [done | by rewrite IH]. Qed.

Lemma length_str l : String.length (str l) = length l.
Proof. by rewrite <- length_chars, chars_str. Qed.

Lemma present_length (t : string) :
  (0 < String.length t)%nat -> present (Some t) = true.
Proof. destruct t; [simpl; lia | done]. Qed.

(** The fields of an event that are copied or looked up. *)
Lemma decode_fields log txs ev :
  decode_flashloan_log log txs = Ok ev ->
  tx_hash ev = transaction_hash log /\ block ev = block_number log /\
  token ev = fst (token_of (topic log 2)) /\
  decimals ev = snd (token_of (topic log 2)) /\
  token_address ev = address_of (topic log 2) /\
  recipient ev = address_of (topic log 1).
Proof.
  intros H. unfold decode_flashloan_log in H.
  destruct (token_of (topic log 2)) as [name dec].
  destruct (decode_amounts (data log)) as [[a f]|]; [|discriminate].
  cbn [mbind result_bind] in H.
  destruct (truediv_int a (10 ^ dec)) as [x|]; [|discriminate].
  cbn [mbind result_bind] in H.
  destruct (decode_gas (txs !! transaction_hash log)) as [[gu gp]|];
    [|discriminate].
  cbn [mbind result_bind] in H.
  destruct (gwei gp) as [g|]; [|discriminate].
  cbn [mbind result_bind] in H. by inversion H.
Qed.

(** X12.  For a token topic of 32 bytes (66 characters) the token
    address of the event is the last 40 characters of the topic, the 20
    bytes of the address behind 12 bytes of padding; a token the table
    does not list is named by the first 16 characters of that address
    followed by three dots and is given 18 decimals.  The recipient is
    cut from the second topic in the same way. *)
Theorem X12_address_fields (log : Log) (txs : gmap pyval Transaction)
    (ev : Event) (t : string) :
  decode_flashloan_log log txs = Ok ev ->
  topic log 2 = Some t -> String.length t = 66%nat ->
  token_address ev = slice_from 26 t /\
  String.length (token_address ev) = 40%nat /\
  (slice 0 26 t ++ token_address ev)%string = t /\
  (dict_get KNOWN_TOKENS (Some t) = None ->
   token ev = (slice 0 16 (token_address ev) ++ "...")%string /\
   decimals ev = 18) /\
  (forall r, topic log 1 = Some r -> String.length r = 66%nat ->
             recipient ev = slice_from 26 r /\
             String.length (recipient ev) = 40%nat).
Proof.
  intros H Ht Hl.
  apply decode_fields in H as (_ & _ & Hn & Hd & Ha & Hr).
  rewrite Ht in Hn, Hd, Ha. unfold address_of in Ha.
  rewrite present_length in Ha by lia.
  split; [exact Ha|]. rewrite Ha. unfold slice_from, slice.
  rewrite length_str, length_drop, length_chars, Hl.
  split; [reflexivity|]. split.
  { rewrite <- str_app, drop_0. change (26 - 0)%nat with 26%nat.
    by rewrite take_drop, str_chars. }
  split.
  - intros Hk. unfold token_of in Hn, Hd. rewrite Hk in Hn, Hd.
    rewrite present_length in Hn by lia. cbn [fst snd] in Hn, Hd.
    split; [|exact Hd]. rewrite Hn. unfold slice.
    by rewrite chars_str, drop_0.
  - intros r Hr1 Hlr. rewrite Hr1 in Hr. unfold address_of in Hr.
    rewrite present_length in Hr by lia. split; [exact Hr|].
    rewrite Hr. unfold slice_from.
    by rewrite length_str, length_drop, length_chars, Hlr.
Qed.

Lemma X12_address_witness :
  exists ev,
    decode_flashloan_log unlisted_log ∅ = Ok ev /\
    token_address ev = "1234567890abcdef1234567890abcdef12345678"%string /\
    token ev = "1234567890abcdef..."%string /\
    recipient ev = "1111111111111111111111111111111111111111"%string.
Proof.
  destruct (decode_flashloan_log unlisted_log ∅) as [ev|e] eqn:He;
    [| vm_compute in He; discriminate He].
  exists ev. split; [reflexivity|].
  destruct (X12_address_fields unlisted_log ∅ ev unlisted_topic He
              eq_refl eq_refl) as (Ha & _ & _ & Hn & Hr).
  split; [rewrite Ha; reflexivity|]. split.
  - destruct (Hn eq_refl) as [-> _]. rewrite Ha. reflexivity.
  - destruct (Hr _ eq_refl eq_refl) as [-> _]. reflexivity.
Defined.

Lemma dict_get_elem {V} (d : list (string * V)) k v :
  dict_get d (Some k) = Some v -> (k, v) ∈ d.
Proof.
  induction d as [|[k' v'] d IH]; simpl; [done|].
  destruct (String.eqb_spec k' k) as [->|_].
  - intros [= ->]. apply elem_of_cons. by left.
  - intros H. apply elem_of_cons. right. by apply IH.
Qed.

Lemma NoDup_map_inj {A B} (g : A -> B) (l : list A) x y :
  NoDup (map g l) -> x ∈ l -> y ∈ l -> g x = g y -> x = y.
Proof.
  induction l as [|a l IH]; intros Hn Hx Hy Hg;
    [by apply elem_of_nil in Hx|].
  simpl in Hn. apply NoDup_cons in Hn as [Ha Hn].
  apply elem_of_cons in Hx as [->|Hx]; apply elem_of_cons in Hy as [->|Hy].
  - done.
  - destruct Ha. rewrite Hg. apply list_elem_of_In, in_map, list_elem_of_In, Hy.
  - destruct Ha. rewrite <- Hg.
    apply list_elem_of_In, in_map, list_elem_of_In, Hx.
  - by apply IH.
Qed.

Lemma dots_last s : last (chars (s ++ "...")) = Some "."%char.
Proof.
  rewrite chars_app.
  change (chars "...") with (["."; "."] ++ ["."])%char%list.
  by rewrite app_assoc, last_snoc.
Qed.

Lemma known_names_NoDup :
  NoDup (map (fun kv : string * (string * Z) => fst (snd kv)) KNOWN_TOKENS).
Proof. apply (bool_decide_unpack _). vm_compute. exact I. Qed.

(** A name made up for an unlisted token is no name of the table. *)
Lemma fallback_name_unlisted t name :
  name ∈ map (fun kv : string * (string * Z) => fst (snd kv)) KNOWN_TOKENS ->
  dict_get KNOWN_TOKENS t = None ->
  fst (token_of t) <> name.
Proof.
  intros Hin Hk. unfold token_of. rewrite Hk. cbn [fst].
  assert (Hu : "Unknown"%string <> name /\
               forall s, (s ++ "...")%string <> name).
  { cbn [map KNOWN_TOKENS fst snd] in Hin.
    repeat (apply elem_of_cons in Hin as [->|Hin];
            [split; [discriminate|]; intros s Hs;
             apply (f_equal (fun x => last (chars x))) in Hs;
             rewrite dots_last in Hs; vm_compute in Hs; discriminate Hs|]).
    by apply elem_of_nil in Hin. }
  destruct Hu as [Hu Hd]. destruct t as [t|]; [|done].
  destruct (present (Some t)); [apply Hd | done].
Qed.

(** X13.  A name of the token table is given to the events of one topic
    only: an event carries the name exactly when its token topic is the
    key the table lists with that name, and no two keys share a name.
    The names made up for unlisted tokens never coincide with a name of
    the table. *)
Theorem X13_known_names (log : Log) (txs : gmap pyval Transaction)
    (ev : Event) (name : string) :
  decode_flashloan_log log txs = Ok ev ->
  name ∈ map (fun kv : string * (string * Z) => fst (snd kv)) KNOWN_TOKENS ->
  (token ev = name <->
   exists d, dict_get KNOWN_TOKENS (topic log 2) = Some (name, d)) /\
  (forall t1 t2 d1 d2,
     dict_get KNOWN_TOKENS (Some t1) = Some (name, d1) ->
     dict_get KNOWN_TOKENS (Some t2) = Some (name, d2) -> t1 = t2).
Proof.
  intros H Hin. apply decode_fields in H as (_ & _ & Hn & _).
  split.
  - rewrite Hn. split.
    + intros Ht.
      destruct (dict_get KNOWN_TOKENS (topic log 2)) as [[n d]|] eqn:Hk.
      * unfold token_of in Ht. rewrite Hk in Ht. simpl in Ht. subst n.
        by exists d.
      * by destruct (fallback_name_unlisted _ _ Hin Hk).
    + intros [d Hk]. unfold token_of. by rewrite Hk.
  - intros t1 t2 d1 d2 H1 H2.
    apply dict_get_elem in H1, H2.
    pose proof (NoDup_map_inj (fun kv : string * (string * Z) => fst (snd kv))
                  KNOWN_TOKENS _ _ known_names_NoDup H1 H2 eq_refl) as Heq.
    by injection Heq.
Qed.

Lemma X13_known_names_witness :
  exists ev,
    decode_flashloan_log Samples.usdc_log Samples.hex_txs = Ok ev /\
    token ev = "USDC"%string.
Proof.
  destruct (decode_flashloan_log Samples.usdc_log Samples.hex_txs)
    as [ev|e] eqn:He; [| vm_compute in He; discriminate He].
  exists ev. split; [reflexivity|].
  destruct (X13_known_names Samples.usdc_log Samples.hex_txs ev
              "USDC"%string He) as [[_ Hn] _].
  - apply elem_of_cons. by left.
  - apply Hn. by exists 6.
Defined.

End NameFacts.

(** ** [query_all_flashloans.py]: decoding and [main] *)

Section QueryAllFacts.
Import Py Hypersync Harvest Props Laws.

(** X14.  [decode_flashloan_log] of [query_all_flashloans.py] and the one
    of [extract_all_flashloans.py] agree on every log and index: both
    return, with the same hash, block, amount, fee, gas used and gas
    price in gwei, or both raise the same exception. *)
Theorem X14_decoders_agree (log : Log) (txs : gmap pyval Transaction) :
  match QueryAll.decode_flashloan_log log txs,
        ExtractAll.decode_flashloan_log log txs with
  | Ok a, Ok e =>
    QueryAll.tx_hash a = ExtractAll.tx_hash e /\
    QueryAll.block a = ExtractAll.block e /\
    QueryAll.amount a = ExtractAll.amount_raw e /\
    QueryAll.fee a = ExtractAll.fee_raw e /\
    QueryAll.gas_used a = ExtractAll.gas_used e /\
    QueryAll.gas_price_gwei a = ExtractAll.gas_price_gwei e /\
    QueryAll.token_topic a = ExtractAll.topic log 2
  | Raise x, Raise y => x = y
  | _, _ => False
  end.
Proof.
  unfold QueryAll.decode_flashloan_log, ExtractAll.decode_flashloan_log.
  pose proof (token_of_decimals (ExtractAll.topic log 2)) as Hdec.
  destruct (ExtractAll.token_of (ExtractAll.topic log 2)) as [name dec].
  cbn [snd] in Hdec.
  pose proof (decode_amounts_outcome (data log)) as Hb.
  destruct (ExtractAll.decode_amounts (data log)) as [[a f]|e1]; [|done].
  cbn [mbind result_bind]. destruct Hb as [Hba _].
  pose proof (pow10_decimals dec Hdec) as Hp.
  rewrite truediv_int_small by lia. cbn [mbind result_bind].
  destruct (ExtractAll.decode_gas (txs !! transaction_hash log))
    as [[gu gp]|e2]; [|done].
  cbn [mbind result_bind].
  destruct (ExtractAll.gwei gp) as [g|e3]; [|done].
  cbn [mbind result_bind]. done.
Qed.

Lemma balancer_topics :
  QueryBalancer.STABLECOIN_TOPICS
  = ltac:(let v := eval vm_compute in QueryBalancer.STABLECOIN_TOPICS in
          exact v).
Proof. vm_compute. reflexivity. Qed.

(** X15.  The token tables of the three scripts agree.  A topic that
    [query_all_flashloans.py] names has the same name in
    [extract_all_flashloans.py]; a topic that
    [query_balancer_flashloans.py] names has the same name in each of
    the other two tables that lists it; and for the five stablecoin
    names the decimals that the sample of [query_all_flashloans.py]
    assumes (6 for USDC and USDT, 18 otherwise) are the decimals of the
    table of [extract_all_flashloans.py]. *)
Theorem X15_tables_agree (t : option string) (name : string) :
  (ExtractAll.dict_get QueryAll.STABLECOINS t = Some name ->
   exists d,
     ExtractAll.dict_get ExtractAll.KNOWN_TOKENS t = Some (name, d) /\
     (name ∈ QueryAll.stablecoin_names ->
      d = if bool_decide (name ∈ ["USDC"; "USDT"]%string) then 6 else 18)) /\
  (ExtractAll.dict_get QueryBalancer.STABLECOIN_TOPICS t = Some name ->
   (forall n d,
      ExtractAll.dict_get ExtractAll.KNOWN_TOKENS t = Some (n, d) ->
      n = name) /\
   (forall n,
      ExtractAll.dict_get QueryAll.STABLECOINS t = Some n -> n = name)).
Proof.
  split.
  - destruct t as [k|]; [|discriminate]. intros H.
    apply dict_get_elem in H. cbn [QueryAll.STABLECOINS] in H.
    repeat (apply elem_of_cons in H as [[= -> ->]|H];
            [eexists; split; [vm_compute; reflexivity|];
             intros Hin; first [reflexivity
               | exfalso;
                 repeat (apply elem_of_cons in Hin as [Hin|Hin];
                         [discriminate Hin|]);
                 by apply elem_of_nil in Hin]|]).
    by apply elem_of_nil in H.
  - destruct t as [k|]; [|discriminate]. intros H.
    apply dict_get_elem in H. rewrite balancer_topics in H.
    repeat (apply elem_of_cons in H as [[= -> ->]|H];
            [split; [intros n d Hk | intros n Hk];
             vm_compute in Hk; congruence|]).
    by apply elem_of_nil in H.
Qed.

Lemma X15_tables_witness :
  exists d,
    ExtractAll.dict_get ExtractAll.KNOWN_TOKENS (Some Samples.usdc_topic)
    = Some ("USDC"%string, d) /\ d = 6.
Proof.
  destruct (X15_tables_agree (Some Samples.usdc_topic) "USDC"%string)
    as [H _].
  destruct (H eq_refl) as (d & Hd & H6). exists d. split; [exact Hd|].
  apply H6. apply elem_of_cons. by left.
Defined.


Lemma query_all_fields log txs a :
  QueryAll.decode_flashloan_log log txs = Ok a ->
  QueryAll.tx_hash a = transaction_hash log /\
  QueryAll.token a = QueryAll.token_name (ExtractAll.topic log 2) /\
  QueryAll.token_topic a = ExtractAll.topic log 2 /\
  Z.abs (QueryAll.amount a) < 2 ^ 256.
Proof.
  unfold QueryAll.decode_flashloan_log.
  pose proof (decode_amounts_outcome (data log)) as Hb.
  destruct (ExtractAll.decode_amounts (data log)) as [[x f]|]; [|discriminate].
  cbn [mbind result_bind]. destruct Hb as [Hb _].
  destruct (ExtractAll.decode_gas (txs !! transaction_hash log))
    as [[gu gp]|]; [|discriminate].
  cbn [mbind result_bind].
  destruct (ExtractAll.gwei gp) as [g|]; [|discriminate].
  cbn [mbind result_bind]. by intros [= <-].
Qed.

Lemma not_stablecoin_name (s : string) :
  (s = "Unknown"%string \/ exists p, s = (p ++ "...")%string) ->
  s ∉ QueryAll.stablecoin_names.
Proof.
  intros Hs Hin. unfold QueryAll.stablecoin_names in Hin.
  repeat (apply elem_of_cons in Hin as [->|Hin];
          [destruct Hs as [Hs | [p Hs]]; [discriminate Hs|];
           apply (f_equal (fun x => last (chars x))) in Hs;
           rewrite dots_last in Hs; vm_compute in Hs; discriminate Hs|]).
  by apply elem_of_nil in Hin.
Qed.

(** Only a hit in the table makes a stablecoin name. *)
Lemma token_name_stable t :
  QueryAll.token_name t ∈ QueryAll.stablecoin_names <->
  exists name, ExtractAll.dict_get QueryAll.STABLECOINS t = Some name /\
               name ∈ QueryAll.stablecoin_names.
Proof.
  unfold QueryAll.token_name.
  destruct (ExtractAll.dict_get QueryAll.STABLECOINS t) as [n|]; simpl.
  - split; [eauto | by intros (? & [= <-] & ?)].
  - split; [|by intros (? & [=] & _)].
    intros Hin. exfalso. revert Hin. apply not_stablecoin_name.
    destruct t as [t|]; [|by left].
    destruct (ExtractAll.present (Some t)); [right; eauto | by left].
Qed.

Lemma select_filter logs txs : forall u es,
  QueryAll.select logs txs u es
  = (decoded ← mapM (fun log => QueryAll.decode_flashloan_log log txs) logs;
     let chosen :=
       filter (fun e => QueryAll.token e ∈ QueryAll.stablecoin_names)
              decoded in
     Ok (list_to_set (map QueryAll.tx_hash chosen) ∪ u, (es ++ chosen)%list)).
Proof.
  induction logs as [|log logs IH]; intros u es; cbn [QueryAll.select mapM].
  - cbn [mbind result_bind mret result_ret]. cbv zeta.
    rewrite filter_nil, app_nil_r. cbn [map list_to_set].
    by rewrite (left_id_L ∅ (∪)).
  - destruct (QueryAll.decode_flashloan_log log txs) as [d|e];
      cbn [mbind result_bind]; [|done].
    case_bool_decide as Hd; rewrite IH;
      destruct (mapM _ logs) as [ds|e]; cbn [mbind result_bind mret result_ret];
      try done; cbv zeta.
    + rewrite filter_cons_True by done. cbn [map list_to_set].
      rewrite <- app_assoc. cbn [app]. f_equal. f_equal.
      by rewrite (assoc_L (∪)), (comm_L (∪) _ {[QueryAll.tx_hash d]}).
    + by rewrite filter_cons_False by done.
Qed.

Lemma size_list_to_set_le (l : list pyval) :
  (size (list_to_set l : gset pyval) <= length l)%nat.
Proof.
  induction l as [|x l IH]; cbn [list_to_set length].
  - by rewrite size_empty.
  - rewrite size_union_alt, size_singleton.
    assert (Hs : (list_to_set l ∖ {[x]} : gset pyval) ⊆ list_to_set l)
      by (intros y Hy; by apply elem_of_difference in Hy as [Hy _]).
    apply subseteq_size in Hs. lia.
Qed.

Lemma main_select logs txs r :
  QueryAll.main logs txs = Ok (Some r) ->
  QueryAll.select logs txs ∅ []
    = Ok (QueryAll.unique_txs r, QueryAll.stablecoin_events r) /\
  QueryAll.sample (take 20 (QueryAll.stablecoin_events r)) ∅
    = Ok (QueryAll.samples r).
Proof.
  unfold QueryAll.main. destruct logs as [|log logs]; [discriminate|].
  destruct (QueryAll.select (log :: logs) txs ∅ []) as [[u es]|];
    [|discriminate].
  cbn [mbind result_bind].
  destruct (QueryAll.sample (take 20 es) ∅) as [printed|] eqn:Hs;
    [|discriminate].
  cbn [mbind result_bind]. intros [= <-]. by split.
Qed.

(** X16.  When [main] of [query_all_flashloans.py] comes to its report,
    every log has been decoded; the stablecoin events are the decoded
    events of the five names, in the order of the logs; an event is one
    of them exactly when the table lists its token topic under one of
    the five names (a name made up for an unlisted topic never counts);
    and the unique transactions are the hashes of these events, at most
    as many as the events and as many when no hash occurs twice. *)
Theorem X16_stablecoin_selection (logs : list Log)
    (txs : gmap pyval Transaction) (r : QueryAll.Report) :
  QueryAll.main logs txs = Ok (Some r) ->
  exists decoded,
    mapM (fun log => QueryAll.decode_flashloan_log log txs) logs
    = Ok decoded /\
    QueryAll.stablecoin_events r
    = filter (fun e => QueryAll.token e ∈ QueryAll.stablecoin_names)
             decoded /\
    Forall2 (fun log e =>
               QueryAll.token e ∈ QueryAll.stablecoin_names <->
               exists name,
                 ExtractAll.dict_get QueryAll.STABLECOINS
                   (ExtractAll.topic log 2) = Some name /\
                 name ∈ QueryAll.stablecoin_names)
            logs decoded /\
    QueryAll.unique_txs r
    = list_to_set (map QueryAll.tx_hash (QueryAll.stablecoin_events r)) /\
    (size (QueryAll.unique_txs r)
     <= length (QueryAll.stablecoin_events r))%nat /\
    (NoDup (map QueryAll.tx_hash (QueryAll.stablecoin_events r)) ->
     size (QueryAll.unique_txs r)
     = length (QueryAll.stablecoin_events r)).
Proof.
  intros H. apply main_select in H as [H _].
  rewrite select_filter in H.
  destruct (mapM _ logs) as [decoded|] eqn:Hm; [|discriminate].
  cbn [mbind result_bind] in H. cbv zeta in H. cbn [app] in H.
  rewrite (right_id_L ∅ (∪)) in H. injection H as Hu He.
  exists decoded. split; [done|]. split; [done|]. split.
  { apply mapM_Ok in Hm. eapply Forall2_impl; [exact Hm|].
    intros log e Hd. cbv beta in Hd.
    apply query_all_fields in Hd as (_ & -> & _).
    apply token_name_stable. }
  rewrite <- He. split; [done|]. rewrite <- Hu. split.
  - etrans; [apply size_list_to_set_le|]. by rewrite length_map.
  - intros Hn. by rewrite size_list_to_set, length_map.
Qed.

Lemma X16_selection_witness :
  exists r,
    QueryAll.main [Samples.usdc_log; unlisted_log; Samples.usdc_log]
                  Samples.hex_txs = Ok (Some r) /\
    length (QueryAll.stablecoin_events r) = 2%nat /\
    (size (QueryAll.unique_txs r) <= 2)%nat.
Proof.
  destruct (QueryAll.main [Samples.usdc_log; unlisted_log; Samples.usdc_log]
              Samples.hex_txs) as [[r|]|e] eqn:Hr;
    [| vm_compute in Hr; discriminate Hr..].
  exists r. split; [reflexivity|].
  destruct (X16_stablecoin_selection _ _ _ Hr)
    as (decoded & Hd & He & _ & _ & Hs & _).
  assert (Hl : length (QueryAll.stablecoin_events r) = 2%nat).
  { vm_compute in Hd. injection Hd as <-. rewrite He. reflexivity. }
  split; [exact Hl|]. by rewrite <- Hl.
Defined.


Lemma sample_decimals_pos e : 1 <= 10 ^ QueryAll.sample_decimals e.
Proof.
  unfold QueryAll.sample_decimals.
  destruct (bool_decide _); vm_compute; discriminate.
Qed.

Lemma sample_once events : forall seen printed,
  QueryAll.sample events seen = Ok printed ->
  map fst printed `sublist_of` events /\
  NoDup (map (fun p => QueryAll.tx_hash (fst p)) printed) /\
  (forall p, p ∈ printed -> QueryAll.tx_hash (fst p) ∉ seen) /\
  (forall e, e ∈ events ->
     QueryAll.tx_hash e ∈ seen \/
     QueryAll.tx_hash e
       ∈ map (fun p => QueryAll.tx_hash (fst p)) printed) /\
  (forall p, p ∈ printed ->
     exists pre post,
       events = (pre ++ fst p :: post)%list /\
       Forall (fun e' => QueryAll.tx_hash e' <> QueryAll.tx_hash (fst p))
              pre) /\
  Forall (fun p => truediv_int (QueryAll.amount (fst p))
                     (10 ^ QueryAll.sample_decimals (fst p)) = Ok (snd p))
         printed.
Proof.
  induction events as [|e events IH]; intros seen printed;
    cbn [QueryAll.sample].
  - intros [= <-]. cbn [map].
    split; [constructor|]. split; [constructor|].
    split; [intros p Hp; by apply elem_of_nil in Hp|].
    split; [intros e0 He; by apply elem_of_nil in He|].
    split; [intros p Hp; by apply elem_of_nil in Hp|]. constructor.
  - case_bool_decide as Hseen.
    + intros H. destruct (IH _ _ H) as (Hsub & Hnd & Hfresh & Hcov & Hfirst & Hamt).
      split; [by apply sublist_cons|]. split; [done|]. split; [done|].
      split; [|split; [|done]].
      * intros e' He'. apply elem_of_cons in He' as [->|He']; [by left|].
        by apply Hcov.
      * intros p Hp. destruct (Hfirst p Hp) as (pre & post & -> & Hpre).
        exists (e :: pre), post. split; [done|].
        constructor; [|done]. intros Heq. apply (Hfresh p Hp).
        by rewrite <- Heq.
    + destruct (truediv_int _ _) as [x|] eqn:Hx; [|discriminate].
      cbn [mbind result_bind].
      destruct (QueryAll.sample events _) as [printed'|] eqn:Hs;
        [|discriminate].
      cbn [mbind result_bind]. intros [= <-].
      destruct (IH _ _ Hs) as (Hsub & Hnd & Hfresh & Hcov & Hfirst & Hamt).
      cbn [map fst]. split; [by apply sublist_skip|]. split.
      { apply NoDup_cons. split; [|done]. intros Hin.
        apply list_elem_of_In, in_map_iff in Hin as (p & Hp & Hin).
        apply list_elem_of_In in Hin. apply (Hfresh p Hin).
        rewrite Hp. apply elem_of_union. left. by apply elem_of_singleton. }
      split.
      { intros p Hp. apply elem_of_cons in Hp as [->|Hp]; [done|].
        intros Hin. apply (Hfresh p Hp). apply elem_of_union. by right. }
      split.
      { intros e' He'. apply elem_of_cons in He' as [->|He'].
        - right. apply elem_of_cons. by left.
        - destruct (Hcov e' He') as [Hin|Hin].
          + apply elem_of_union in Hin as [Hin|Hin]; [|by left].
            right. apply elem_of_singleton in Hin. rewrite Hin.
            apply elem_of_cons. by left.
          + right. apply elem_of_cons. by right. }
      split.
      { intros p Hp. apply elem_of_cons in Hp as [->|Hp].
        - exists [], events. by split; [|constructor].
        - destruct (Hfirst p Hp) as (pre & post & -> & Hpre).
          exists (e :: pre), post. split; [done|].
          constructor; [|done]. intros Heq. apply (Hfresh p Hp).
          apply elem_of_union. left. by apply elem_of_singleton. }
      by constructor.
Qed.

Lemma sample_total events : forall seen,
  Forall (fun e => Z.abs (QueryAll.amount e) < 2 ^ 256) events ->
  exists printed, QueryAll.sample events seen = Ok printed.
Proof.
  induction events as [|e events IH]; intros seen Hb; cbn [QueryAll.sample];
    [eauto|].
  apply Forall_cons in Hb as [He Hb].
  case_bool_decide; [by apply IH|].
  pose proof (sample_decimals_pos e).
  rewrite truediv_int_small by lia. cbn [mbind result_bind].
  destruct (IH ({[QueryAll.tx_hash e]} ∪ seen) Hb) as [printed ->].
  cbn [mbind result_bind]. eauto.
Qed.

(** X17.  The sample of [query_all_flashloans.py] shows each transaction
    once: the events shown are taken in order from the first 20
    stablecoin events, no two of them share a transaction hash, every
    hash among the first 20 is shown, the event shown for a hash is the
    first one that carries it, and each amount is the quotient of the
    event's amount by [10^6] for USDC and USDT and by [10^18]
    otherwise. *)
Theorem X17_sample_once_per_hash (logs : list Log)
    (txs : gmap pyval Transaction) (r : QueryAll.Report) :
  QueryAll.main logs txs = Ok (Some r) ->
  let first20 := take 20 (QueryAll.stablecoin_events r) in
  let shown := map fst (QueryAll.samples r) in
  shown `sublist_of` first20 /\
  (length shown <= 20)%nat /\
  NoDup (map QueryAll.tx_hash shown) /\
  (forall e, e ∈ first20 ->
     QueryAll.tx_hash e ∈ map QueryAll.tx_hash shown) /\
  (forall e, e ∈ shown ->
     exists pre post,
       first20 = (pre ++ e :: post)%list /\
       Forall (fun e' => QueryAll.tx_hash e' <> QueryAll.tx_hash e) pre) /\
  Forall (fun p => snd p = scaled (QueryAll.amount (fst p))
                             (QueryAll.sample_decimals (fst p)))
         (QueryAll.samples r).
Proof.
  intros H first20 shown. apply main_select in H as [_ H].
  fold first20 in H.
  destruct (sample_once _ _ _ H) as (Hsub & Hnd & _ & Hcov & Hfirst & Hamt).
  assert (Hmap : map QueryAll.tx_hash shown
                 = map (fun p => QueryAll.tx_hash (fst p))
                       (QueryAll.samples r))
    by (unfold shown; by rewrite map_map).
  split; [done|]. split.
  { apply sublist_length in Hsub. unfold first20 in Hsub.
    rewrite length_take in Hsub. unfold shown. lia. }
  rewrite Hmap. split; [done|]. split.
  { intros e He. destruct (Hcov e He) as [Hin|Hin]; [|done].
    by apply elem_of_empty in Hin. }
  split.
  { intros e He. unfold shown in He.
    apply list_elem_of_In, in_map_iff in He as (p & <- & Hp).
    apply Hfirst. by apply list_elem_of_In. }
  eapply Forall_impl; [exact Hamt|]. intros p Hp. cbv beta in Hp.
  cbv beta. by eapply truediv_int_scaled.
Qed.

Lemma X17_sample_witness :
  exists r,
    QueryAll.main [Samples.usdc_log; unlisted_log; Samples.usdc_log]
                  Samples.hex_txs = Ok (Some r) /\
    (length (QueryAll.samples r) <= 20)%nat /\
    NoDup (map QueryAll.tx_hash (map fst (QueryAll.samples r))).
Proof.
  destruct (QueryAll.main [Samples.usdc_log; unlisted_log; Samples.usdc_log]
              Samples.hex_txs) as [[r|]|e] eqn:Hr;
    [| vm_compute in Hr; discriminate Hr..].
  exists r. split; [reflexivity|].
  destruct (X17_sample_once_per_hash _ _ _ Hr) as (_ & Hl & Hn & _).
  rewrite length_map in Hl. by split.
Defined.

(** X18.  [main] of [query_all_flashloans.py] stops without a report
    when there is no log; otherwise it comes to its report whenever every
    log decodes, and raises the exception of the first log that does not:
    neither the selection nor the sample raises anything of its own. *)
Theorem X18_main_outcome (logs : list Log) (txs : gmap pyval Transaction) :
  QueryAll.main [] txs = Ok None /\
  (logs <> [] ->
   match mapM (fun log => QueryAll.decode_flashloan_log log txs) logs with
   | Ok decoded => exists r, QueryAll.main logs txs = Ok (Some r)
   | Raise e => QueryAll.main logs txs = Raise e
   end).
Proof.
  split; [done|]. intros Hne. unfold QueryAll.main.
  destruct logs as [|log logs]; [done|]. rewrite select_filter.
  destruct (mapM _ (log :: logs)) as [decoded|e] eqn:Hm; [|done].
  cbn [mbind result_bind]. cbv zeta. cbn [app].
  set (chosen := filter _ decoded).
  destruct (sample_total (take 20 chosen) ∅) as [printed ->].
  - apply Forall_take, Forall_forall. intros e He.
    apply list_elem_of_filter in He as [_ He].
    apply mapM_Ok in Hm.
    apply list_elem_of_lookup in He as [i Hi].
    destruct (Forall2_lookup_r _ _ _ _ _ Hm Hi) as (l & _ & Hd).
    by apply query_all_fields in Hd as (_ & _ & _ & Hb).
  - cbn [mbind result_bind]. eauto.
Qed.

Lemma X18_main_witness :
  (exists r, QueryAll.main [Samples.usdc_log; unlisted_log] Samples.hex_txs
             = Ok (Some r)) /\
  QueryAll.main [Samples.usdc_log; Samples.garbled_log] Samples.hex_txs
  = Raise ValueError.
Proof.
  split.
  - destruct (X18_main_outcome [Samples.usdc_log; unlisted_log]
                Samples.hex_txs) as [_ H].
    specialize (H ltac:(discriminate)).
    destruct (mapM _ _) as [decoded|e] eqn:Hm;
      [exact H | vm_compute in Hm; discriminate Hm].
  - vm_compute. reflexivity.
Defined.

End QueryAllFacts.

(** ** Dictionaries of lists *)

Section GroupingFacts.
Import Py Laws.
Context {A : Type} (key : A -> string).

Lemma filter_none (t : string) (xs : list A) :
  Forall (fun y => key y <> t) xs -> filter (fun y => key y = t) xs = [].
Proof.
  induction 1 as [|y xs Hy _ IH]; [done|].
  by rewrite filter_cons_False.
Qed.

Lemma filter_snoc_same (x : A) (xs : list A) :
  filter (fun y => key y = key x) (xs ++ [x])%list
  = (filter (fun y => key y = key x) xs ++ [x])%list.
Proof. by rewrite filter_app, filter_cons_True, filter_nil. Qed.

Lemma filter_snoc_other (t : string) (x : A) (xs : list A) :
  key x <> t ->
  filter (fun y => key y = t) (xs ++ [x])%list = filter (fun y => key y = t) xs.
Proof.
  intros H. by rewrite filter_app, filter_cons_False, filter_nil, app_nil_r.
Qed.

Lemma append_keys (x : A) groups :
  map fst (Grouping.append key x groups)
  = if bool_decide (key x ∈ map fst groups) then map fst groups
    else (map fst groups ++ [key x])%list.
Proof.
  induction groups as [|[t xs] groups IH]; cbn [Grouping.append map fst].
  - by rewrite bool_decide_eq_false_2 by (apply not_elem_of_nil).
  - destruct (String.eqb_spec t (key x)) as [->|Hne]; cbn [map fst].
    + rewrite bool_decide_eq_true_2; [done|]. apply elem_of_cons. by left.
    + rewrite IH. case_bool_decide as Hin.
      * rewrite bool_decide_eq_true_2; [done|]. apply elem_of_cons. by right.
      * rewrite bool_decide_eq_false_2; [done|].
        intros [Heq|Hin']%elem_of_cons; [by destruct Hne | done].
Qed.

Lemma append_perm (x : A) groups :
  concat (map snd (Grouping.append key x groups))
  ≡ₚ x :: concat (map snd groups).
Proof.
  induction groups as [|[t xs] groups IH]; cbn [Grouping.append map snd concat].
  - done.
  - destruct (String.eqb t (key x)); cbn [map snd concat].
    + rewrite <- app_assoc. cbn [app].
      by rewrite <- Permutation_middle.
    + rewrite IH. by rewrite <- Permutation_middle.
Qed.

Lemma append_filed (x : A) xs groups :
  NoDup (map fst groups) ->
  Forall (filed key xs) groups ->
  (key x ∉ map fst groups -> Forall (fun y => key y <> key x) xs) ->
  Forall (filed key (xs ++ [x])%list) (Grouping.append key x groups).
Proof.
  induction groups as [|[t es] groups IH]; intros Hnd Hf Hnew;
    cbn [Grouping.append].
  - constructor; [|constructor]. unfold filed. cbn [fst snd].
    rewrite filter_snoc_same, filter_none; [done|].
    apply Hnew, not_elem_of_nil.
  - cbn [map fst] in Hnd, Hnew. apply NoDup_cons in Hnd as [Ht Hnd].
    apply Forall_cons in Hf as [[He Hne] Hf]. cbn [fst snd] in He, Hne.
    destruct (String.eqb_spec t (key x)) as [->|Hneq].
    + constructor.
      * unfold filed. cbn [fst snd]. rewrite filter_snoc_same, <- He.
        split; [done|]. by destruct es.
      * apply Forall_forall. intros [t' es'] Hg.
        rewrite Forall_forall in Hf. destruct (Hf _ Hg) as [He' Hne'].
        cbn [fst snd] in *. unfold filed. cbn [fst snd].
        split; [|done]. rewrite filter_snoc_other; [done|].
        intros Heq. apply Ht. rewrite Heq.
        apply list_elem_of_In, in_map_iff. exists (t', es').
        split; [done | by apply list_elem_of_In].
    + constructor.
      * unfold filed. cbn [fst snd]. split; [|done].
        by rewrite filter_snoc_other.
      * apply IH; [done | done |]. intros Hn. apply Hnew.
        intros [Heq|Hin]%elem_of_cons; [by destruct Hneq | done].
Qed.

(** The dictionary built from a list: its keys are distinct, every key
    of the list is among them, every group holds the elements of its key
    in input order, and the groups together hold every element once. *)
Lemma group_invariant (xs : list A) :
  let groups := fold_left (fun g x => Grouping.append key x g) xs [] in
  NoDup (map fst groups) /\
  Forall (filed key xs) groups /\
  (forall x, x ∈ xs -> key x ∈ map fst groups) /\
  concat (map snd groups) ≡ₚ xs.
Proof.
  induction xs as [|x xs IH] using rev_ind; cbv zeta.
  - cbn. split; [constructor|]. split; [constructor|].
    split; [|done]. intros x Hx. by apply elem_of_nil in Hx.
  - rewrite fold_left_app. cbn [fold_left].
    cbv zeta in IH. destruct IH as (Hnd & Hf & Hcov & Hperm).
    set (groups := fold_left _ xs []) in *.
    split; [|split; [|split]].
    + rewrite append_keys. case_bool_decide as Hin; [done|].
      apply NoDup_app. split; [done|]. split; [|apply NoDup_singleton].
      intros t Ht Hx. apply list_elem_of_singleton in Hx. by subst t.
    + apply append_filed; [done | done |].
      intros Hn. apply Forall_forall. intros y Hy Heq.
      apply Hn. rewrite <- Heq. by apply Hcov.
    + intros y Hy. rewrite append_keys.
      apply elem_of_app in Hy as [Hy|Hy].
      * case_bool_decide; [by apply Hcov|].
        apply elem_of_app. left. by apply Hcov.
      * apply list_elem_of_singleton in Hy. subst y.
        case_bool_decide as Hin; [done|].
        apply elem_of_app. right. by apply list_elem_of_singleton.
    + rewrite append_perm, Hperm. by rewrite <- Permutation_cons_append.
Qed.

Lemma insert_by_key_perm' (g : string * list A) l :
  Grouping.insert_by_key g l ≡ₚ g :: l.
Proof.
  induction l as [|h l IH]; cbn [Grouping.insert_by_key]; [done|].
  destruct (_ <=? _); [done|]. by rewrite IH, Permutation_swap.
Qed.

Lemma grouping_sorted_perm (l : list (string * list A)) :
  Grouping.sorted l ≡ₚ l.
Proof.
  induction l as [|g l IH]; [done|]. cbn [Grouping.sorted foldr].
  rewrite insert_by_key_perm'. by constructor.
Qed.

Lemma insert_by_key_sorted' (g : string * list A) l :
  StronglySorted by_size l ->
  StronglySorted by_size (Grouping.insert_by_key g l).
Proof.
  induction l as [|h l IH]; intros Hs; cbn [Grouping.insert_by_key].
  - repeat constructor.
  - destruct (Z.leb_spec (Grouping.sort_key g) (Grouping.sort_key h))
      as [Hle|Hgt].
    + apply StronglySorted_cons. split; [|done].
      apply StronglySorted_cons in Hs as [Hh _].
      constructor; [done|]. eapply Forall_impl; [exact Hh|].
      intros k Hk. unfold by_size in *. lia.
    + apply StronglySorted_cons in Hs as [Hh Hs].
      apply StronglySorted_cons. split; [|by apply IH].
      rewrite insert_by_key_perm'. constructor; [|done].
      unfold by_size. lia.
Qed.

Lemma grouping_sorted_sorted (l : list (string * list A)) :
  StronglySorted by_size (Grouping.sorted l).
Proof.
  induction l as [|g l IH]; [constructor|].
  cbn [Grouping.sorted foldr]. by apply insert_by_key_sorted'.
Qed.

End GroupingFacts.

(** ** [query_balancer_flashloans.py]: decoding and [main] *)

Section BalancerFacts.
Import Py Hypersync Harvest Props Laws.

Lemma gas_field_textual tx (f : Transaction -> attr) :
  textual (f tx) = true ->
  QueryBalancer.gas_field (Some tx) f = ExtractAll.gas_field (f tx).
Proof.
  unfold QueryBalancer.gas_field, ExtractAll.gas_field, textual.
  destruct (f tx) as [[|s|z]|]; try done.
  intros Hz. apply Z.eqb_eq in Hz. by subst z.
Qed.

Lemma float_1e6_finite :
  QueryBalancer.float_1e6 = S754_finite false 8589934592000000 (-33).
Proof. vm_compute. reflexivity. Qed.

(** X19.  As long as the gas fields of the matched record are strings
    (or [None], empty or zero), [decode_flashloan_log] of
    [query_balancer_flashloans.py] agrees with the one of
    [extract_all_flashloans.py]: both return, with the same hash, block,
    amount, fee and gas used, and with the same gas price in gwei (the
    float 0.0 where the other script has the integer 0), or both raise
    the same exception.  The stablecoin script keeps the two topics
    whole. *)
Theorem X19_balancer_agrees (log : Log) (txs : gmap pyval Transaction) :
  textual_gas (txs !! transaction_hash log) = true ->
  match QueryBalancer.decode_flashloan_log log txs,
        ExtractAll.decode_flashloan_log log txs with
  | Ok b, Ok e =>
    QueryBalancer.tx_hash b = ExtractAll.tx_hash e /\
    QueryBalancer.block b = ExtractAll.block e /\
    QueryBalancer.amount b = ExtractAll.amount_raw e /\
    QueryBalancer.fee b = ExtractAll.fee_raw e /\
    QueryBalancer.gas_used b = ExtractAll.gas_used e /\
    match ExtractAll.gas_price_gwei e with
    | NInt z => z = 0 /\ QueryBalancer.gas_price_gwei b = S754_zero false
    | NFloat x => QueryBalancer.gas_price_gwei b = x
    end /\
    QueryBalancer.token_address b = ExtractAll.topic log 2 /\
    QueryBalancer.recipient b = ExtractAll.topic log 1
  | Raise x, Raise y => x = y
  | _, _ => False
  end.
Proof.
  intros Ht.
  unfold QueryBalancer.decode_flashloan_log, ExtractAll.decode_flashloan_log.
  pose proof (token_of_decimals (ExtractAll.topic log 2)) as Hdec.
  destruct (ExtractAll.token_of (ExtractAll.topic log 2)) as [name dec].
  cbn [snd] in Hdec.
  pose proof (decode_amounts_outcome (data log)) as Hb.
  destruct (ExtractAll.decode_amounts (data log)) as [[a f]|e1]; [|done].
  cbn [mbind result_bind]. destruct Hb as [Hba _].
  pose proof (pow10_decimals dec Hdec) as Hp.
  rewrite truediv_int_small by lia. cbn [mbind result_bind].
  assert (Hgas :
    ExtractAll.decode_gas (txs !! transaction_hash log)
    = (gu ← QueryBalancer.gas_field (txs !! transaction_hash log)
              Hypersync.gas_used;
       gp ← QueryBalancer.gas_field (txs !! transaction_hash log)
              Hypersync.gas_price;
       Ok (gu, gp))).
  { destruct (txs !! transaction_hash log) as [tx|]; [|done].
    cbn [textual_gas] in Ht. apply andb_true_iff in Ht as [Hu Hg].
    unfold ExtractAll.decode_gas. by rewrite !gas_field_textual. }
  rewrite Hgas.
  destruct (QueryBalancer.gas_field _ Hypersync.gas_used) as [gu|e2];
    [|done].
  cbn [mbind result_bind].
  destruct (QueryBalancer.gas_field _ Hypersync.gas_price) as [gp|e3];
    [|done].
  cbn [mbind result_bind]. unfold ExtractAll.gwei.
  destruct (Z.eqb_spec gp 0) as [->|Hne].
  - cbn [mbind result_bind]. repeat split; vm_compute; reflexivity.
  - destruct (float_of_int gp) as [x|e4]; [|done].
    cbn [mbind result_bind]. rewrite float_1e9_finite.
    cbn [truediv_float mbind result_bind]. done.
Qed.

Lemma X19_balancer_witness :
  exists b e,
    QueryBalancer.decode_flashloan_log Samples.usdc_log Samples.hex_txs
      = Ok b /\
    ExtractAll.decode_flashloan_log Samples.usdc_log Samples.hex_txs
      = Ok e /\
    QueryBalancer.amount b = ExtractAll.amount_raw e /\
    QueryBalancer.gas_used b = ExtractAll.gas_used e.
Proof.
  pose proof (X19_balancer_agrees Samples.usdc_log Samples.hex_txs eq_refl)
    as H.
  destruct (QueryBalancer.decode_flashloan_log Samples.usdc_log
              Samples.hex_txs) as [b|x] eqn:Hb;
    [| vm_compute in Hb; discriminate Hb].
  destruct (ExtractAll.decode_flashloan_log Samples.usdc_log
              Samples.hex_txs) as [e|y] eqn:He; [|destruct H].
  exists b, e. destruct H as (_ & _ & Ha & _ & Hg & _). by repeat split.
Defined.

Lemma dict_get_of_elem {V} (d : list (string * V)) k v :
  NoDup (map fst d) -> (k, v) ∈ d -> ExtractAll.dict_get d (Some k) = Some v.
Proof.
  induction d as [|[k' v'] d IH]; intros Hn Hin;
    [by apply elem_of_nil in Hin|].
  cbn [map fst] in Hn. apply NoDup_cons in Hn as [Hk Hn]. simpl.
  apply elem_of_cons in Hin as [[= <- <-]|Hin].
  - by rewrite String.eqb_refl.
  - destruct (String.eqb_spec k' k) as [->|_]; [|by apply IH].
    destruct Hk. apply list_elem_of_In, in_map_iff. exists (k, v).
    split; [done | by apply list_elem_of_In].
Qed.

Lemma balancer_keys_NoDup :
  NoDup (map fst QueryBalancer.STABLECOINS) /\
  NoDup (map fst QueryBalancer.STABLECOIN_TOPICS).
Proof. split; apply (bool_decide_unpack _); vm_compute; exact I. Qed.

(** X20.  The table of topics is the table of addresses with every
    address padded to 32 bytes: a topic has a name exactly when it is
    [0x], 24 zeros and the 40 digits of a listed address, and the name is
    the one of that address; every such topic has 66 characters. *)
Theorem X20_topic_table (t name : string) :
  ExtractAll.dict_get QueryBalancer.STABLECOIN_TOPICS (Some t) = Some name <->
  exists addr,
    ExtractAll.dict_get QueryBalancer.STABLECOINS (Some addr) = Some name /\
    t = ("0x000000000000000000000000" ++ slice_from 2 addr)%string /\
    String.length t = 66%nat.
Proof.
  destruct balancer_keys_NoDup as [Hn1 Hn2]. split.
  - intros H. apply dict_get_elem in H.
    unfold QueryBalancer.STABLECOIN_TOPICS in H.
    apply list_elem_of_In, in_map_iff in H as ([addr n] & [= <- <-] & Hin).
    apply list_elem_of_In in Hin. exists addr.
    split; [by apply dict_get_of_elem|]. split; [done|].
    cbn [QueryBalancer.STABLECOINS] in Hin.
    repeat (apply elem_of_cons in Hin as [[= -> ->]|Hin]; [reflexivity|]).
    by apply elem_of_nil in Hin.
  - intros (addr & H & -> & _). apply dict_get_elem in H.
    apply dict_get_of_elem; [done|].
    unfold QueryBalancer.STABLECOIN_TOPICS.
    apply list_elem_of_In, in_map_iff. exists (addr, name).
    split; [done | by apply list_elem_of_In].
Qed.


Lemma total_acc l : forall a, fold_left Z.add l a = a + total l.
Proof.
  unfold total. induction l as [|x l IH]; intros a; cbn [fold_left]; [lia|].
  rewrite IH, (IH (0 + x)). lia.
Qed.

Lemma total_cons x l : total (x :: l) = x + total l.
Proof. unfold total. cbn [fold_left]. rewrite total_acc. unfold total. lia. Qed.

Lemma total_app l k : total (l ++ k) = total l + total k.
Proof.
  induction l as [|x l IH]; [unfold total; simpl; lia|].
  cbn [app]. rewrite !total_cons, IH. lia.
Qed.

Lemma total_perm l k : l ≡ₚ k -> total l = total k.
Proof.
  induction 1 as [|x l k _ IH|x y l|l k m _ IH1 _ IH2];
    rewrite ?total_cons; lia.
Qed.

Lemma total_concat {A} (f : A -> Z) (ls : list (list A)) :
  total (map f (concat ls)) = total (map (fun l => total (map f l)) ls).
Proof.
  induction ls as [|l ls IH]; [done|].
  cbn [concat map]. by rewrite map_app, total_app, total_cons, IH.
Qed.

Lemma length_concat_sum {A} (ls : list (list A)) :
  length (concat ls) = sum_list (map length ls).
Proof.
  induction ls as [|l ls IH]; [done|].
  cbn [concat map]. rewrite length_app, IH. reflexivity.
Qed.

Lemma balancer_fields log txs b :
  QueryBalancer.decode_flashloan_log log txs = Ok b ->
  QueryBalancer.tx_hash b = transaction_hash log /\
  Z.abs (QueryBalancer.amount b) < 2 ^ 256.
Proof.
  unfold QueryBalancer.decode_flashloan_log.
  pose proof (decode_amounts_outcome (data log)) as Hb.
  destruct (ExtractAll.decode_amounts (data log)) as [[a f]|]; [|discriminate].
  cbn [mbind result_bind]. destruct Hb as [Hb _].
  destruct (QueryBalancer.gas_field _ Hypersync.gas_used); [|discriminate].
  cbn [mbind result_bind].
  destruct (QueryBalancer.gas_field _ Hypersync.gas_price) as [gp|];
    [|discriminate].
  cbn [mbind result_bind].
  destruct (float_of_int gp); [|discriminate]. cbn [mbind result_bind].
  destruct (truediv_float _ _); [|discriminate]. cbn [mbind result_bind].
  by intros [= <-].
Qed.

Lemma group_logs_fold logs txs : forall by_token,
  QueryBalancer.group_logs logs txs by_token
  = (events ← mapM (fun log => QueryBalancer.decode_flashloan_log log txs)
                   logs;
     Ok (fold_left (fun g e => Grouping.append QueryBalancer.token e g)
                   events by_token)).
Proof.
  induction logs as [|log logs IH]; intros g; cbn [QueryBalancer.group_logs mapM].
  - done.
  - destruct (QueryBalancer.decode_flashloan_log log txs) as [d|e];
      cbn [mbind result_bind]; [|done].
    rewrite IH. by destruct (mapM _ logs).
Qed.

Lemma balancer_row t es r :
  QueryBalancer.summarize t es = Ok r ->
  QueryBalancer.row_token r = t /\
  QueryBalancer.row_count r = length es /\
  QueryBalancer.total_amount r = total (map QueryBalancer.amount es).
Proof.
  unfold QueryBalancer.summarize.
  destruct (match es with [] => _ | _ => _ end) as [g|]; [|discriminate].
  cbn [mbind result_bind].
  destruct (float_of_int _) as [x|]; [|discriminate].
  cbn [mbind result_bind].
  destruct (truediv_float x _) as [v|]; [|discriminate].
  cbn [mbind result_bind]. by intros [= <-].
Qed.

(** X21.  When [main] of [query_balancer_flashloans.py] comes to its
    summary, every log has been decoded and every token that occurs has
    one entry, nothing being cut off; the entries come in descending
    order of their number of loans; each gives the number and the total
    amount of the loans of its token; and nothing is lost or counted
    twice: the numbers add up to the number of logs and the totals to
    the total of all amounts. *)
Theorem X21_balancer_summary (logs : list Log)
    (txs : gmap pyval Transaction) (rows : list QueryBalancer.Row)
    (shown : list (string * QueryBalancer.Event * float)) :
  QueryBalancer.main logs txs = Ok (Some (rows, shown)) ->
  exists events,
    mapM (fun log => QueryBalancer.decode_flashloan_log log txs) logs
    = Ok events /\
    NoDup (map QueryBalancer.row_token rows) /\
    (forall e, e ∈ events ->
               QueryBalancer.token e ∈ map QueryBalancer.row_token rows) /\
    StronglySorted
      (fun r1 r2 =>
         (QueryBalancer.row_count r2 <= QueryBalancer.row_count r1)%nat)
      rows /\
    Forall (fun r =>
              let es := filter (fun e => QueryBalancer.token e
                                         = QueryBalancer.row_token r)
                               events in
              es <> [] /\ QueryBalancer.row_count r = length es /\
              QueryBalancer.total_amount r
              = total (map QueryBalancer.amount es))
           rows /\
    sum_list (map QueryBalancer.row_count rows) = length logs /\
    total (map QueryBalancer.total_amount rows)
    = total (map QueryBalancer.amount events).
Proof.
  unfold QueryBalancer.main. destruct logs as [|log logs]; [discriminate|].
  rewrite group_logs_fold.
  destruct (mapM _ (log :: logs)) as [events|] eqn:Hm; [|discriminate].
  cbn [mbind result_bind].
  destruct (group_invariant QueryBalancer.token events)
    as (Hnd & Hf & Hcov & Hperm).
  set (G := fold_left _ events []) in *.
  destruct (mapM _ (Grouping.sorted G)) as [rows'|] eqn:Hr; [|discriminate].
  cbn [mbind result_bind].
  destruct (QueryBalancer.samples _ _) as [shown'|]; [|discriminate].
  cbn [mbind result_bind]. intros [= <- <-].
  exists events. split; [done|].
  apply mapM_Ok in Hr.
  assert (HF : Forall2 (fun g r =>
                 QueryBalancer.row_token r = fst g /\
                 QueryBalancer.row_count r = length (snd g) /\
                 QueryBalancer.total_amount r
                 = total (map QueryBalancer.amount (snd g)))
                 (Grouping.sorted G) rows').
  { eapply Forall2_impl; [exact Hr|]. intros g r Hg. by apply balancer_row. }
  assert (Htok : map QueryBalancer.row_token rows'
                 = map fst (Grouping.sorted G)).
  { clear -HF. induction HF as [|g r l k (Ht & _) _ IH]; [done|].
    cbn [map]. by rewrite Ht, IH. }
  assert (Hcnt : map QueryBalancer.row_count rows'
                 = map length (map snd (Grouping.sorted G))).
  { clear -HF. induction HF as [|g r l k (_ & Hc & _) _ IH]; [done|].
    cbn [map]. by rewrite Hc, IH. }
  assert (Htot : map QueryBalancer.total_amount rows'
                 = map (fun l => total (map QueryBalancer.amount l))
                       (map snd (Grouping.sorted G))).
  { clear -HF. induction HF as [|g r l k (_ & _ & Ha) _ IH]; [done|].
    cbn [map]. by rewrite Ha, IH. }
  pose proof (grouping_sorted_perm G) as HS.
  assert (Hall : concat (map snd (Grouping.sorted G)) ≡ₚ events).
  { rewrite <- Hperm. clear -HS. induction HS as [|x l k _ IH|x y l|l k m _ IH1 _ IH2].
    - done.
    - cbn [map concat]. by rewrite IH.
    - cbn [map concat]. rewrite !app_assoc.
      by rewrite (Permutation_app_comm (snd y) (snd x)).
    - by etrans. }
  split; [by rewrite Htok, HS|]. split.
  { intros e He. rewrite Htok, HS. by apply Hcov. }
  split.
  { eapply sorted_rows; [|exact HF|apply grouping_sorted_sorted].
    intros g1 r1 g2 r2 (_ & H1 & _) (_ & H2 & _).
    unfold by_size, Grouping.sort_key. lia. }
  split.
  { eapply Forall2_Forall_r; [exact HF|]. apply Forall_forall.
    intros g Hg r (Ht & Hc & Ha). cbv zeta. rewrite Ht.
    rewrite HS in Hg. rewrite Forall_forall in Hf.
    destruct (Hf g Hg) as [Hes Hne]. rewrite <- Hes. by split. }
  split.
  { rewrite Hcnt, <- length_concat_sum, Hall.
    apply mapM_Ok in Hm. symmetry. by eapply Forall2_length. }
  rewrite Htot, <- total_concat. by apply total_perm, Permutation_map.
Qed.


Lemma X21_summary_witness :
  exists rows shown,
    QueryBalancer.main [Samples.usdc_log; dai_log; Samples.usdc_log]
                       Samples.hex_txs = Ok (Some (rows, shown)) /\
    map QueryBalancer.row_token rows = ["USDC"; "DAI"]%string /\
    sum_list (map QueryBalancer.row_count rows) = 3%nat.
Proof.
  destruct (QueryBalancer.main [Samples.usdc_log; dai_log; Samples.usdc_log]
              Samples.hex_txs) as [[[rows shown]|]|e] eqn:Hr;
    [| vm_compute in Hr; discriminate Hr..].
  exists rows, shown. split; [reflexivity|].
  destruct (X21_balancer_summary _ _ _ _ Hr)
    as (events & _ & _ & _ & _ & _ & Hsum & _).
  split; [|exact Hsum].
  vm_compute in Hr. injection Hr as <- _. reflexivity.
Defined.

Lemma sample_entry_hash log txs b :
  QueryBalancer.decode_flashloan_log log txs = Ok b ->
  match transaction_hash log with
  | PyStr s => exists a, QueryBalancer.sample_entry log txs
                         = Ok (slice 0 20 s, b, a)
  | _ => QueryBalancer.sample_entry log txs = Raise TypeError
  end.
Proof.
  intros Hb. unfold QueryBalancer.sample_entry. rewrite Hb.
  cbn [mbind result_bind].
  apply balancer_fields in Hb as [-> Ha].
  destruct (transaction_hash log) as [|s|z]; try done.
  cbn [QueryBalancer.hash_prefix mbind result_bind].
  unfold float_of_int. pose proof float_limit_large.
  destruct (Z.leb_spec float_limit (Z.abs (QueryBalancer.amount b)));
    [lia|].
  cbn [mbind result_bind]. rewrite float_1e6_finite.
  cbn [truediv_float mbind result_bind]. eauto.
Qed.

(** X22.  The sample of [query_balancer_flashloans.py] slices the
    transaction hash of each of the first ten logs.  For a log that
    decodes, the entry is made when the hash is a string (its first 20
    characters are shown, with the amount over [1e6]) and [TypeError] is
    raised when it is [None] or a number; and one log without a string
    hash among the first ten makes [main] end with an exception. *)
Theorem X22_sample_needs_string_hash (log : Log)
    (txs : gmap pyval Transaction) :
  (forall b, QueryBalancer.decode_flashloan_log log txs = Ok b ->
     match transaction_hash log with
     | PyStr s => exists a, QueryBalancer.sample_entry log txs
                            = Ok (slice 0 20 s, b, a)
     | _ => QueryBalancer.sample_entry log txs = Raise TypeError
     end) /\
  (forall logs,
     log ∈ take 10 logs -> (forall s, transaction_hash log <> PyStr s) ->
     exists e, QueryBalancer.main logs txs = Raise e).
Proof.
  split; [apply sample_entry_hash|].
  intros logs Hin Hs.
  assert (He : exists e, QueryBalancer.sample_entry log txs = Raise e).
  { destruct (QueryBalancer.decode_flashloan_log log txs) as [b|e] eqn:Hb.
    - pose proof (sample_entry_hash _ _ _ Hb) as H.
      destruct (transaction_hash log) as [|s|z]; [eauto | | eauto].
      by destruct (Hs s).
    - exists e. unfold QueryBalancer.sample_entry. by rewrite Hb. }
  destruct He as [e He].
  destruct (mapM_raise (fun l => QueryBalancer.sample_entry l txs)
              (take 10 logs) log e Hin He) as [e' Hsam].
  unfold QueryBalancer.main. destruct logs as [|l logs];
    [by apply elem_of_nil in Hin|].
  destruct (QueryBalancer.group_logs _ _ _) as [g|e1];
    cbn [mbind result_bind]; [|eauto].
  destruct (mapM _ (Grouping.sorted g)) as [rows|e2];
    cbn [mbind result_bind]; [|eauto].
  unfold QueryBalancer.samples. rewrite Hsam. cbn [mbind result_bind]. eauto.
Qed.

Lemma X22_sample_witness :
  QueryBalancer.sample_entry numbered_log ∅ = Raise TypeError /\
  exists e, QueryBalancer.main [Samples.usdc_log; numbered_log] ∅ = Raise e.
Proof.
  destruct (X22_sample_needs_string_hash numbered_log ∅) as [H1 H2].
  split.
  - destruct (QueryBalancer.decode_flashloan_log numbered_log ∅)
      as [b|e] eqn:Hb; [| vm_compute in Hb; discriminate Hb].
    exact (H1 b eq_refl).
  - apply H2; [|discriminate].
    apply elem_of_cons. right. apply elem_of_cons. by left.
Defined.


Lemma total_bound (B : Z) (l : list Z) :
  Forall (fun x => Z.abs x < B) l ->
  Z.abs (total l) <= Z.of_nat (length l) * B.
Proof.
  induction 1 as [|x l Hx _ IH]; [unfold total; simpl; lia|].
  rewrite total_cons. cbn [length]. lia.
Qed.

Lemma float_limit_huge : 2 ^ 53 * 2 ^ 256 <= float_limit.
Proof. unfold float_limit. vm_compute. discriminate. Qed.

Lemma balancer_summarize_ok t es :
  es <> [] -> Z.of_nat (length es) < 2 ^ 53 ->
  Forall (fun e => Z.abs (QueryBalancer.amount e) < 2 ^ 256 /\
                   Z.abs (QueryBalancer.gas_used e) < 2 ^ 256) es ->
  exists r, QueryBalancer.summarize t es = Ok r.
Proof.
  intros Hne Hlen Hb. unfold QueryBalancer.summarize.
  assert (Ha : Z.abs (total (map QueryBalancer.amount es))
               <= Z.of_nat (length es) * 2 ^ 256).
  { rewrite <- (length_map QueryBalancer.amount). apply total_bound.
    apply Forall_map. eapply Forall_impl; [exact Hb|]. by intros e [? _]. }
  assert (Hg : Z.abs (total (map QueryBalancer.gas_used es))
               <= Z.of_nat (length es) * 2 ^ 256).
  { rewrite <- (length_map QueryBalancer.gas_used). apply total_bound.
    apply Forall_map. eapply Forall_impl; [exact Hb|]. by intros e [_ ?]. }
  fold (total (map QueryBalancer.amount es)).
  fold (total (map QueryBalancer.gas_used es)).
  pose proof float_limit_huge as HL.
  assert (H256 : 0 < 2 ^ 256) by (by apply Z.pow_pos_nonneg).
  assert (Hn : 0 < Z.of_nat (length es)) by (destruct es; [done | simpl; lia]).
  assert (Hq : exists q,
    truediv_int (total (map QueryBalancer.gas_used es))
                (Z.of_nat (length es)) = Ok q).
  { unfold truediv_int.
    destruct (Z.eqb_spec (Z.of_nat (length es)) 0); [lia|].
    destruct (Z.leb_spec (float_limit * Z.abs (Z.of_nat (length es)))
                (Z.abs (total (map QueryBalancer.gas_used es))));
      [nia | eauto]. }
  destruct Hq as [q Hq].
  destruct es as [|e es']; [done|]. rewrite Hq. cbn [mbind result_bind].
  unfold float_of_int.
  destruct (Z.leb_spec float_limit
              (Z.abs (total (map QueryBalancer.amount (e :: es')))));
    [nia|].
  cbn [mbind result_bind]. rewrite float_1e6_finite.
  cbn [truediv_float mbind result_bind]. eauto.
Qed.

(** X23.  [main] of [query_balancer_flashloans.py] stops without output
    when there is no log.  Otherwise it comes to its summary and its
    sample whenever every log decodes, there are fewer than [2^53] logs,
    the gas figures are below [2^256] and the first ten logs carry a
    string as transaction hash; the sample then has one entry for each
    of the first ten logs. *)
Theorem X23_balancer_main_returns (logs : list Log)
    (txs : gmap pyval Transaction) (events : list QueryBalancer.Event) :
  QueryBalancer.main [] txs = Ok None /\
  (logs <> [] ->
   mapM (fun log => QueryBalancer.decode_flashloan_log log txs) logs
   = Ok events ->
   Z.of_nat (length logs) < 2 ^ 53 ->
   Forall (fun e => Z.abs (QueryBalancer.gas_used e) < 2 ^ 256) events ->
   Forall (fun log => exists s, transaction_hash log = PyStr s)
          (take 10 logs) ->
   exists rows shown,
     QueryBalancer.main logs txs = Ok (Some (rows, shown)) /\
     length shown = length (take 10 logs)).
Proof.
  split; [done|]. intros Hne Hm Hlen Hgas Hstr.
  unfold QueryBalancer.main. destruct logs as [|log logs]; [done|].
  rewrite group_logs_fold, Hm. cbn [mbind result_bind].
  destruct (group_invariant QueryBalancer.token events)
    as (_ & Hf & _ & Hperm).
  set (G := fold_left _ events []) in *.
  pose proof (mapM_Ok _ _ _ Hm) as HF.
  assert (Hev : Forall (fun e => Z.abs (QueryBalancer.amount e) < 2 ^ 256 /\
                                 Z.abs (QueryBalancer.gas_used e) < 2 ^ 256)
                       events).
  { apply Forall_forall. intros e He. split.
    - apply list_elem_of_lookup in He as [i Hi].
      destruct (Forall2_lookup_r _ _ _ _ _ HF Hi) as (l & _ & Hd).
      by apply balancer_fields in Hd as [_ Hd].
    - rewrite Forall_forall in Hgas. by apply Hgas. }
  destruct (mapM_total (fun g => QueryBalancer.summarize (fst g) (snd g))
              (fun _ _ => True) (Grouping.sorted G)) as (rows & -> & _).
  { apply Forall_forall. intros g Hg.
    rewrite grouping_sorted_perm in Hg. rewrite Forall_forall in Hf.
    destruct (Hf g Hg) as [Hes Hnil].
    destruct (balancer_summarize_ok (fst g) (snd g)) as [r Hr]; [done| |  |eauto].
    - rewrite Hes. pose proof (length_filter
        (fun x => QueryBalancer.token x = fst g) events) as Hl.
      apply Forall2_length in HF. lia.
    - rewrite Hes. apply Forall_forall. intros e He.
      apply list_elem_of_filter in He as [_ He].
      rewrite Forall_forall in Hev. by apply Hev. }
  cbn [mbind result_bind]. unfold QueryBalancer.samples.
  destruct (mapM_total (fun l => QueryBalancer.sample_entry l txs)
              (fun _ _ => True) (take 10 (log :: logs)))
    as (shown & -> & HS).
  { apply Forall_forall. intros l Hl.
    rewrite Forall_forall in Hstr. destruct (Hstr l Hl) as [s Hs].
    apply elem_of_take in Hl as (i & Hi & _).
    destruct (Forall2_lookup_l _ _ _ _ _ HF Hi) as (b & _ & Hb).
    pose proof (sample_entry_hash _ _ _ Hb) as He.
    rewrite Hs in He. destruct He as [a ->]. eauto. }
  cbn [mbind result_bind]. exists rows, shown. split; [done|].
  symmetry. by eapply Forall2_length.
Qed.

Lemma X23_main_returns_witness :
  exists rows shown,
    QueryBalancer.main [Samples.usdc_log; dai_log] Samples.hex_txs
    = Ok (Some (rows, shown)) /\ length shown = 2%nat.
Proof.
  destruct (mapM (fun log => QueryBalancer.decode_flashloan_log log
                               Samples.hex_txs) [Samples.usdc_log; dai_log])
    as [events|e] eqn:Hm; [| vm_compute in Hm; discriminate Hm].
  destruct (X23_balancer_main_returns [Samples.usdc_log; dai_log]
              Samples.hex_txs events) as [_ H].
  apply H.
  - discriminate.
  - exact Hm.
  - vm_compute. reflexivity.
  - vm_compute in Hm. injection Hm as <-.
    repeat constructor; vm_compute; reflexivity.
  - repeat constructor; eexists; reflexivity.
Defined.

End BalancerFacts.

(** ** [extract_all_flashloans.py]: what the two summaries count *)

Section CountFacts.
Import Py Props Laws ExtractAll.

Lemma filter_key_cons {A} (key : A -> string) (t : string)
    (ts : list string) (xs : list A) :
  t ∉ ts ->
  length (filter (fun x => key x ∈ t :: ts) xs)
  = (length (filter (fun x => key x = t) xs)
     + length (filter (fun x => key x ∈ ts) xs))%nat.
Proof.
  intros Ht. induction xs as [|x xs IH]; [done|].
  destruct (decide (key x = t)) as [Heq|Hne];
    [|destruct (decide (key x ∈ ts)) as [Hin|Hnin]].
  - rewrite (filter_cons_True (fun x => key x ∈ t :: ts))
      by (apply elem_of_cons; by left).
    rewrite (filter_cons_True (fun x => key x = t)) by done.
    rewrite (filter_cons_False (fun x => key x ∈ ts)) by (by rewrite Heq).
    cbn [length]. lia.
  - rewrite (filter_cons_True (fun x => key x ∈ t :: ts))
      by (apply elem_of_cons; by right).
    rewrite (filter_cons_False (fun x => key x = t)) by done.
    rewrite (filter_cons_True (fun x => key x ∈ ts)) by done.
    cbn [length]. lia.
  - rewrite (filter_cons_False (fun x => key x ∈ t :: ts))
      by (by intros [?|?]%elem_of_cons).
    rewrite (filter_cons_False (fun x => key x = t)) by done.
    by rewrite (filter_cons_False (fun x => key x ∈ ts)) by done.
Qed.

(** Groups with distinct keys hold together as many elements as the
    list has elements of their keys. *)
Lemma filed_groups_length {A} (key : A -> string) (xs : list A)
    (gs : list (string * list A)) :
  NoDup (map fst gs) -> Forall (filed key xs) gs ->
  sum_list (map (fun g => length (snd g)) gs)
  = length (filter (fun x => key x ∈ map fst gs) xs).
Proof.
  induction gs as [|[t es] gs IH]; intros Hn Hf.
  - cbn [map]. symmetry. apply length_zero_iff_nil.
    clear Hn Hf. induction xs as [|x xs IHx]; [done|].
    rewrite filter_cons_False; [done | apply not_elem_of_nil].
  - cbn [map fst] in Hn |- *. apply NoDup_cons in Hn as [Ht Hn].
    apply Forall_cons in Hf as [[He _] Hf]. cbn [fst snd] in He |- *.
    rewrite filter_key_cons by done. rewrite <- IH by done.
    rewrite He. reflexivity.
Qed.

Lemma summarize_fields impl t es r :
  summarize impl t es = Ok r -> row_token r = t /\ row_count r = length es.
Proof.
  unfold summarize. destruct (map amount es) as [|a rest]; [discriminate|].
  destruct (float_of_int _) as [n|]; [|discriminate].
  cbn [mbind result_bind].
  destruct (truediv_float _ n) as [avg|]; [|discriminate].
  cbn [mbind result_bind].
  destruct (gas_summary _) as [g|]; [|discriminate].
  cbn [mbind result_bind]. by intros [= <-].
Qed.

(** X24.  The counts of "SUMMARY BY TOKEN" add up to the number of
    events whose token has an entry: never to more than the number of
    events, and to exactly that number when every token that occurs is
    reported (at most 15 tokens). *)
Theorem X24_summary_counts (impl : sum_impl) (events : list Event)
    (rows : list Row) :
  summary impl events = Ok rows ->
  sum_list (map row_count rows)
  = length (filter (fun e => token e ∈ map row_token rows) events) /\
  (sum_list (map row_count rows) <= length events)%nat /\
  ((forall e, e ∈ events -> token e ∈ map row_token rows) ->
   sum_list (map row_count rows) = length events).
Proof.
  intros H. unfold summary in H. apply mapM_Ok in H.
  set (top := take 15 (sorted (by_token events))) in *.
  assert (Hn : NoDup (map fst top)) by apply top_keys_NoDup.
  assert (Hf : Forall (filed token events) top).
  { apply Forall_forall. intros [t es] Hin. unfold top in Hin.
    apply subseteq_take in Hin. rewrite sorted_perm in Hin.
    by apply by_token_group in Hin as [-> Hne]. }
  assert (Htok : map row_token rows = map fst top).
  { clear -H. induction H as [|g r l k Hg _ IH]; [done|].
    apply summarize_fields in Hg as [Ht _]. cbn [map]. by rewrite Ht, IH. }
  assert (Hcnt : map row_count rows = map (fun g => length (snd g)) top).
  { clear -H. induction H as [|g r l k Hg _ IH]; [done|].
    apply summarize_fields in Hg as [_ Hc]. cbn [map]. by rewrite Hc, IH. }
  assert (Hsum : sum_list (map row_count rows)
                 = length (filter (fun e => token e ∈ map row_token rows)
                                  events)).
  { rewrite Hcnt, Htok. by apply filed_groups_length. }
  split; [exact Hsum|]. split.
  - rewrite Hsum. apply length_filter.
  - intros Hall. rewrite Hsum. f_equal.
    clear -Hall. induction events as [|e events IH]; [done|].
    rewrite filter_cons_True by (apply Hall, elem_of_cons; by left).
    f_equal. apply IH. intros e' He'. apply Hall, elem_of_cons. by right.
Qed.

Lemma X24_summary_counts_witness :
  exists rows,
    summary Plain Samples.sixteen_events = Ok rows /\
    sum_list (map row_count rows) = 15%nat /\
    length Samples.sixteen_events = 16%nat.
Proof.
  destruct (summary Plain Samples.sixteen_events) as [rows|e] eqn:Hr;
    [| vm_compute in Hr; discriminate Hr].
  exists rows. split; [reflexivity|]. split; [|reflexivity].
  destruct (X24_summary_counts Plain Samples.sixteen_events rows Hr)
    as [Hs _].
  rewrite Hs. vm_compute in Hr. injection Hr as <-. reflexivity.
Defined.


Lemma eqb_filter t (l : list Event) :
  List.filter (fun e => String.eqb (token e) t) l = events_of t l.
Proof.
  unfold events_of. induction l as [|e l IH]; [done|]. cbn [List.filter].
  destruct (String.eqb_spec (token e) t) as [Heq|Hne].
  - by rewrite filter_cons_True, IH.
  - by rewrite filter_cons_False, IH.
Qed.

Lemma stable_events_of t (events : list Event) :
  t ∈ stables ->
  events_of t (List.filter (fun e => bool_decide (token e ∈ stables)) events)
  = events_of t events.
Proof.
  intros Ht. unfold events_of.
  induction events as [|e events IH]; [done|]. cbn [List.filter].
  case_bool_decide as Hs.
  - destruct (decide (token e = t)) as [Heq|Hne].
    + by rewrite !filter_cons_True, IH.
    + by rewrite !filter_cons_False, IH.
  - rewrite IH. rewrite filter_cons_False; [done|].
    intros Heq. apply Hs. by rewrite Heq.
Qed.

Lemma events_of_absent t (events : list Event) :
  events_of t events = [] <-> t ∉ map token events.
Proof.
  unfold events_of. induction events as [|e events IH]; cbn [map].
  - split; [intros _; apply not_elem_of_nil | done].
  - destruct (decide (token e = t)) as [Heq|Hne].
    + rewrite filter_cons_True by done. split; [done|].
      intros Hn. destruct Hn. apply elem_of_cons. by left.
    + rewrite filter_cons_False by done. rewrite IH. split.
      * intros Hn [Heq|Hin]%elem_of_cons; [by destruct Hne | done].
      * intros Hn Hin. apply Hn, elem_of_cons. by right.
Qed.

Lemma stable_row_ok impl t es :
  es <> [] -> Z.of_nat (length es) < 2 ^ 53 ->
  Forall (fun e => gas_used e < 2 ^ 256) es ->
  exists r, stable_row impl t es = Ok r /\ stable_token r = t /\
            stable_describes impl es r.
Proof.
  intros Hne Hlen Hgas. destruct es as [|e es']; [done|].
  unfold stable_row, stable_describes. cbn [map].
  assert (Hl : length (amount e :: map amount es') = length (e :: es'))
    by (simpl; by rewrite List.length_map).
  rewrite Hl.
  destruct (float_of_int_small (Z.of_nat (length (e :: es'))))
    as (Hf & m & x & Hm); [cbn [length] in *; lia|].
  rewrite Hf. cbn [mbind result_bind]. unfold truediv_float. rewrite Hm.
  cbn [mbind result_bind].
  pose proof (gas_summary_ok _ (gas_list_range _ Hgas)) as Hg.
  unfold gas_summary in Hg. unfold gas_figures_of.
  cbn [map] in Hg |- *.
  destruct (List.filter (fun g => 0 <? g)
              (gas_used e :: map gas_used es')) as [|g gs].
  - cbn [mbind result_bind]. eexists. split; [reflexivity|].
    cbn [stable_token stable_count total_volume avg_loan max_loan
         stable_avg_gas option_map].
    destruct (max_float_greatest (amount e) (map amount es')) as [Hin Hge].
    by repeat split.
  - destruct (truediv_int _ _) as [q|] eqn:Hq; [|discriminate Hg].
    cbn [mbind result_bind] in Hg |- *. injection Hg as Hq'.
    eexists. split; [reflexivity|].
    cbn [stable_token stable_count total_volume avg_loan max_loan
         stable_avg_gas option_map snd].
    destruct (max_float_greatest (amount e) (map amount es')) as [Hin Hge].
    repeat split; try done. by rewrite Hq'.
Qed.

Lemma stable_rows_ok impl (events : list Event) (ts : list string) :
  Z.of_nat (length events) < 2 ^ 53 ->
  Forall (fun e => gas_used e < 2 ^ 256) events ->
  Forall (fun t => t ∈ stables) ts ->
  exists rows,
    stable_rows impl
      (List.filter (fun e => bool_decide (token e ∈ stables)) events) ts
    = Ok rows /\
    map stable_token rows = filter (fun t => t ∈ map token events) ts /\
    Forall (fun r => stable_describes impl
                       (events_of (stable_token r) events) r) rows.
Proof.
  intros Hlen Hgas. induction 1 as [|t ts Ht _ (rows & Hr & Htok & Hd)];
    cbn [stable_rows]; [by exists []|].
  cbv zeta. rewrite eqb_filter, stable_events_of by done. rewrite Hr.
  destruct (events_of t events) as [|e es] eqn:He.
  - exists rows. split; [done|]. split; [|done].
    rewrite filter_cons_False; [done|]. by apply events_of_absent.
  - destruct (stable_row_ok impl t (e :: es)) as (r & -> & Hrt & Hrd).
    + done.
    + pose proof (events_of_length t events) as Hle. rewrite He in Hle. lia.
    + rewrite <- He. by apply events_of_gas.
    + cbn [mbind result_bind]. exists (r :: rows). split; [done|]. split.
      * cbn [map]. rewrite Hrt, Htok. rewrite filter_cons_True; [done|].
        apply dec_stable. intros Hn. apply events_of_absent in Hn.
        by rewrite He in Hn.
      * constructor; [by rewrite Hrt, He | done].
Qed.

Lemma keys_length (events : list Event) (ts : list string) :
  NoDup ts ->
  sum_list (map (fun t => length (events_of t events)) ts)
  = length (filter (fun e => token e ∈ ts) events).
Proof.
  induction 1 as [|t ts Ht _ IH].
  - cbn [map]. symmetry. apply length_zero_iff_nil.
    induction events as [|e events IHe]; [done|].
    rewrite filter_cons_False; [done | apply not_elem_of_nil].
  - cbn [map]. rewrite filter_key_cons by done. rewrite <- IH. reflexivity.
Qed.

Lemma sum_present (events : list Event) (ts : list string) :
  sum_list (map (fun t => length (events_of t events))
                (filter (fun t => t ∈ map token events) ts))
  = sum_list (map (fun t => length (events_of t events)) ts).
Proof.
  induction ts as [|t ts IH]; [done|].
  destruct (decide (t ∈ map token events)) as [Hin|Hn].
  - rewrite filter_cons_True by done. cbn [map]. cbn. by rewrite <- IH.
  - rewrite filter_cons_False by done. cbn [map].
    apply events_of_absent in Hn. rewrite Hn, IH. reflexivity.
Qed.

(** X25.  The stablecoin section of [main] has one entry for each of
    USDC, USDT, DAI, FRAX and LUSD that occurs among the events, in this
    order whatever their numbers of loans, and none for a stablecoin
    without events.  An entry gives the number of the loans of its
    token, the sum, the average and the maximum of their scaled amounts
    and the average gas over the loans of positive gas; the numbers add
    up to the number of stablecoin loans.  (Fewer than [2^53] events,
    gas below [2^256].) *)
Theorem X25_stable_summary (impl : sum_impl) (events : list Event) :
  Z.of_nat (length events) < 2 ^ 53 ->
  Forall (fun e => gas_used e < 2 ^ 256) events ->
  exists rows,
    stable_summary impl events = Ok rows /\
    map stable_token rows
    = filter (fun t => t ∈ map token events) stables /\
    Forall (fun r => stable_describes impl
                       (events_of (stable_token r) events) r) rows /\
    sum_list (map stable_count rows)
    = length (filter (fun e => token e ∈ stables) events).
Proof.
  intros Hlen Hgas.
  destruct (stable_rows_ok impl events stables Hlen Hgas)
    as (rows & Hr & Htok & Hd).
  { by apply Forall_forall. }
  exists rows. split; [exact Hr|]. split; [exact Htok|].
  split; [exact Hd|].
  assert (Hcnt : map stable_count rows
                 = map (fun t => length (events_of t events))
                       (map stable_token rows)).
  { clear -Hd. induction Hd as [|r rows (Hc & _) _ IH]; [done|].
    cbn [map]. by rewrite Hc, IH. }
  rewrite Hcnt, Htok, sum_present. apply keys_length.
  apply (bool_decide_unpack _). vm_compute. exact I.
Qed.

Lemma X25_stable_summary_witness :
  exists rows,
    stable_summary Plain mixed_events = Ok rows /\
    map stable_token rows = ["USDC"; "DAI"]%string /\
    map stable_count rows = [1; 2]%nat.
Proof.
  destruct (X25_stable_summary Plain mixed_events)
    as (rows & Hr & Htok & Hd & _).
  - vm_compute. reflexivity.
  - repeat constructor.
  - exists rows. split; [exact Hr|]. split.
    + rewrite Htok. apply (bool_decide_unpack _). vm_compute. exact I.
    + vm_compute in Hr. injection Hr as <-. reflexivity.
Defined.

End CountFacts.

(** ** [extract_all_flashloans.py] from the first request to the report *)

Section WholeRun.
Import Py Hypersync Harvest Props Laws ExtractAll.

Lemma index_tx_gas m tx :
  gas_ok (Some tx) = true ->
  (forall k t, m !! k = Some t -> gas_ok (Some t) = true) ->
  forall k t, index_tx m tx !! k = Some t -> gas_ok (Some t) = true.
Proof.
  intros Htx Hm k t. rewrite index_tx_lookup.
  case_decide; [by intros [= <-] | apply Hm].
Qed.

Lemma fold_index_gas txs : forall m,
  Forall (fun tx => gas_ok (Some tx) = true) txs ->
  (forall k t, m !! k = Some t -> gas_ok (Some t) = true) ->
  forall k t, fold_left index_tx txs m !! k = Some t ->
              gas_ok (Some t) = true.
Proof.
  induction txs as [|tx txs IH]; intros m Hf Hm; [exact Hm|].
  apply Forall_cons in Hf as [Htx Hf]. cbn [fold_left].
  apply IH; [done|]. by apply index_tx_gas.
Qed.

(** Between [lo] and [hi] the loop returns within [hi - q] requests, and
    what it returns is well formed. *)
Lemma query_loop_served c lo hi :
  well_served c lo hi -> 0 <= lo < 2 ^ 64 -> hi <> 0 ->
  forall fuel calls q all_logs all_txs,
  lo <= q < hi -> hi - q <= Z.of_nat fuel ->
  Forall (fun log => hex_data (data log) = true) all_logs ->
  (forall k t, all_txs !! k = Some t -> gas_ok (Some t) = true) ->
  exists n l t,
    query_loop fuel c lo (Some hi) calls q all_logs all_txs
    = Returned (n, l, t) /\
    Forall (fun log => hex_data (data log) = true) l /\
    (forall k tx, t !! k = Some tx -> gas_ok (Some tx) = true).
Proof.
  intros Hc Hlo Hhi.
  induction fuel as [|fuel IH]; intros calls q all_logs all_txs Hq Hf HL HT;
    [lia|].
  cbn [query_loop].
  destruct (Hc calls q Hq) as (res & -> & Hn & Hlogs & Htxs).
  unfold index_page.
  destruct (progress_u64 lo (Some hi) res Hlo ltac:(lia)) as [pct ->].
  assert (HL' : Forall (fun log => hex_data (data log) = true)
                       (all_logs ++ logs res))
    by (by apply Forall_app).
  pose proof (fold_index_gas _ _ Htxs HT) as HT'.
  replace (or_int (Some hi) (archive_height res)) with hi
    by (unfold or_int; by destruct (Z.eqb_spec hi 0)).
  destruct (Z.leb_spec hi (next_block res)) as [Hge|Hlt].
  - eexists _, _, _. split; [reflexivity|]. by split.
  - apply IH; [lia | lia | done | done].
Qed.

Lemma decode_all_ok logs txs :
  Forall (fun log => hex_data (data log) = true) logs ->
  (forall k tx, txs !! k = Some tx -> gas_ok (Some tx) = true) ->
  exists events,
    decode_all logs txs = Ok events /\ length events = length logs /\
    Forall (fun e => gas_used e < 2 ^ 256) events.
Proof.
  intros Hl Ht. unfold decode_all.
  destruct (mapM_total (fun log => decode_flashloan_log log txs)
              (fun _ e => gas_used e < 2 ^ 256) logs)
    as (events & Hm & HF).
  - eapply Forall_impl; [exact Hl|]. intros log Hd. cbv beta in Hd.
    assert (Hg : gas_ok (txs !! transaction_hash log) = true).
    { destruct (txs !! transaction_hash log) as [tx|] eqn:Hk;
        [by eapply Ht | done]. }
    pose proof (decode_ok log txs Hd Hg) as Hok. cbv zeta in Hok.
    eexists. split; [exact Hok|]. cbn [ExtractAll.gas_used].
    destruct (decode_gas_ok _ Hg) as (_ & [_ Hu] & _). exact Hu.
  - exists events. split; [done|]. split.
    + symmetry. by eapply Forall2_length.
    + by eapply Forall2_Forall_r; [exact HF | apply Forall_true].
Qed.

(** X26.  Against a service that, for every block between 19 000 000
    and 21 000 000, answers with a next block further on and with
    well-formed logs and records, [extract_all_flashloans.py] runs to
    its end: the harvest (with its progress line) returns within
    2 000 000 requests; without logs [main] stops there; with logs
    (fewer than [2^53]) every log is decoded and written, and both
    summaries are printed, with at most 15 and at most 5 entries. *)
Theorem X26_extract_all_runs (impl : sum_impl) (fuel : nat) (c : client) :
  well_served c 19000000 21000000 -> 2000000 <= Z.of_nat fuel ->
  exists logs txs,
    query_flashloans fuel c 19000000 (Some 21000000)
    = Returned (logs, txs) /\
    (logs = [] -> main impl logs txs = Ok None) /\
    (logs <> [] -> Z.of_nat (length logs) < 2 ^ 53 ->
     exists r,
       main impl logs txs = Ok (Some r) /\
       length (csv_rows r) = length logs /\
       (length (token_rows r) <= 15)%nat /\
       (length (stablecoin_rows r) <= 5)%nat).
Proof.
  intros Hc Hf.
  destruct (query_loop_served c 19000000 21000000 Hc ltac:(lia) ltac:(lia)
              fuel 0%nat 19000000 [] ∅) as (n & l & t & Hq & Hl & Ht);
    [lia | lia | constructor | intros k tx Hk; by rewrite lookup_empty in Hk |].
  exists l, t. unfold query_flashloans. rewrite Hq.
  split; [reflexivity|]. split; [by intros ->|].
  intros Hne Hlen. unfold main. destruct l as [|log l]; [done|].
  destruct (decode_all_ok _ _ Hl Ht) as (events & -> & Hle & Hgas).
  cbn [mbind result_bind].
  destruct (summary_rows impl events) as (rows & -> & HF); [lia | done |].
  cbn [mbind result_bind].
  destruct (stable_rows_ok impl events stables) as (srows & Hs & Htok & _);
    [lia | done | by apply Forall_forall |].
  unfold stable_summary. rewrite Hs. cbn [mbind result_bind].
  eexists. split; [reflexivity|]. cbn [csv_rows token_rows stablecoin_rows].
  split; [done|]. split.
  - rewrite <- (Forall2_length _ _ _ HF), length_take. lia.
  - rewrite <- (length_map stable_token), Htok.
    etrans; [apply length_filter|]. reflexivity.
Qed.

Lemma million_client_served : well_served million_client 19000000 21000000.
Proof.
  intros n q Hq. eexists. split; [reflexivity|]. cbn.
  split; [lia|]. split; repeat constructor.
Qed.

Lemma X26_extract_all_witness :
  exists logs txs,
    query_flashloans (Z.to_nat 2000000) million_client 19000000
                          (Some 21000000) = Returned (logs, txs).
Proof.
  destruct (X26_extract_all_runs Plain (Z.to_nat 2000000) million_client
              million_client_served) as (logs & txs & H & _).
  - lia.
  - by exists logs, txs.
Defined.

End WholeRun.
